(** * WindsurfSwitch: key-value store engine, identity reset and account switch

    A shallow embedding of the TypeScript services

    - [src/services/databaseHelper.ts]   (class [DatabaseHelper])
    - [src/services/machineIdReset.ts]   (class [MachineIdResetter])
    - [src/services/accountManager.ts]   (class [AccountManager])
    - [src/services/accountSwitcher.ts]  (class [AccountSwitcher])
    - [src/extension.ts]                 (the command [switchNext])

    The services are asynchronous but strictly sequential: every [await]
    is a sequencing point, so they are embedded in a state-and-exception
    monad over an explicit [World] (the two files, the host commands, the
    random source, the log channels).  The JavaScript built-ins the code
    relies on ([JSON.stringify], [JSON.parse], [String], SQL [LIKE], the
    SHA-2 digests, version-4 UUIDs) are embedded as executable functions. *)

From Stdlib Require Import ZArith NArith List String Ascii Bool Lia.
From Stdlib Require Import Decimal DecimalFacts DecimalN.
From stdpp Require Import base option list gmap strings.

Local Open Scope Z_scope.

(* ===================================================================== *)
(** * Part I: definitions                                                 *)
(* ===================================================================== *)

(** ** Characters *)

Definition chars := list ascii.

Definition ch (n : N) : ascii := ascii_of_N n.

Definition c_quote : ascii := Eval cbv in ch 34.
Definition c_backslash : ascii := Eval cbv in ch 92.
Definition c_slash : ascii := Eval cbv in ch 47.
Definition c_space : ascii := Eval cbv in ch 32.
Definition c_tab : ascii := Eval cbv in ch 9.
Definition c_lf : ascii := Eval cbv in ch 10.
Definition c_cr : ascii := Eval cbv in ch 13.
Definition c_bs : ascii := Eval cbv in ch 8.
Definition c_ff : ascii := Eval cbv in ch 12.
Definition c_lbracket : ascii := "["%char.
Definition c_rbracket : ascii := "]"%char.
Definition c_lbrace : ascii := "{"%char.
Definition c_rbrace : ascii := "}"%char.
Definition c_comma : ascii := ","%char.
Definition c_colon : ascii := ":"%char.
Definition c_minus : ascii := "-"%char.
Definition c_dot : ascii := "."%char.

Definition code (c : ascii) : N := N_of_ascii c.

Definition is_digit (c : ascii) : bool :=
  ((48 <=? code c) && (code c <=? 57))%N.

Definition is_ws (c : ascii) : bool :=
  Ascii.eqb c c_space || Ascii.eqb c c_tab || Ascii.eqb c c_lf || Ascii.eqb c c_cr.

Definition str (s : string) : chars := list_ascii_of_string s.
Definition text (cs : chars) : string := string_of_list_ascii cs.

(** ** JSON values

    The values that [JSON.parse] returns.  A number is a [JNum] when its
    literal is a whole number below 2^53 in size: a double holds it
    exactly and prints all its digits.  Any other number (a fraction, an
    exponent, a larger whole number) is a [JReal] and is kept as the
    literal that spelled it: it stands for the double nearest to what the
    literal says, and nothing here computes with it; [canonical] below
    tells the literals that the engine prints back as they are.  An object is its
    list of own properties in the order they were first set, which is the
    order JavaScript enumerates them in when no property name is an array
    index.  Texts are their UTF-8 bytes. *)

Module JSON.

Unset Elimination Schemes.
Inductive json : Type :=
| JNull
| JBool (b : bool)
| JNum (z : Z)
| JReal (literal : string)
| JStr (s : string)
| JArr (items : list json)
| JObj (props : list (string * json)).
Set Elimination Schemes.

(** [obj[k]] *)
Fixpoint obj_get (k : string) (props : list (string * json)) : option json :=
  match props with
  | [] => None
  | (k', v) :: rest => if String.eqb k k' then Some v else obj_get k rest
  end.

(** [obj[k] = v]: an existing property keeps its place, a new one is
    appended. *)
Fixpoint obj_set (k : string) (v : json) (props : list (string * json))
  : list (string * json) :=
  match props with
  | [] => [(k, v)]
  | (k', v') :: rest =>
      if String.eqb k k' then (k', v) :: rest else (k', v') :: obj_set k v rest
  end.

Definition obj_of_pairs (kvs : list (string * json)) : list (string * json) :=
  fold_left (fun o kv => obj_set (fst kv) (snd kv) o) kvs [].

(** *** Numbers *)

Fixpoint uint_chars (d : uint) : chars :=
  match d with
  | Nil => []
  | D0 d => "0"%char :: uint_chars d
  | D1 d => "1"%char :: uint_chars d
  | D2 d => "2"%char :: uint_chars d
  | D3 d => "3"%char :: uint_chars d
  | D4 d => "4"%char :: uint_chars d
  | D5 d => "5"%char :: uint_chars d
  | D6 d => "6"%char :: uint_chars d
  | D7 d => "7"%char :: uint_chars d
  | D8 d => "8"%char :: uint_chars d
  | D9 d => "9"%char :: uint_chars d
  end.

Definition push_digit (c : ascii) (d : uint) : uint :=
  match code c with
  | 48%N => D0 d | 49%N => D1 d | 50%N => D2 d | 51%N => D3 d | 52%N => D4 d
  | 53%N => D5 d | 54%N => D6 d | 55%N => D7 d | 56%N => D8 d | _ => D9 d
  end.

(** The longest run of decimal digits at the head of the input. *)
Fixpoint take_digits (s : chars) : uint * chars :=
  match s with
  | c :: r =>
      if is_digit c then let '(d, r') := take_digits r in (push_digit c d, r')
      else (Nil, s)
  | [] => (Nil, [])
  end.

(** [String(n)] for a whole number [n] below 2^53 in size; also what
    [JSON.stringify] prints. *)
Definition print_Z (z : Z) : chars :=
  if z <? 0 then c_minus :: uint_chars (N.to_uint (Z.abs_N z))
  else uint_chars (N.to_uint (Z.to_N z)).

(** JSON forbids a leading zero in front of other digits. *)
Definition int_literal (d : uint) : bool :=
  match d with
  | Nil => false
  | D0 Nil => true
  | D0 _ => false
  | _ => true
  end.

(** [Number.isSafeInteger]: the whole numbers below 2^53 in size, which
    a double holds exactly and prints with all their digits. *)
Definition safe_integer (z : Z) : bool := Z.abs z <=? 9007199254740991.

(** What may stand behind a number without being read into it. *)
Definition num_follow (s : chars) : bool :=
  match s with
  | [] => true
  | c :: _ => negb (is_digit c || Ascii.eqb c c_dot || Ascii.eqb c "e" || Ascii.eqb c "E")
  end.

(** The fraction of a number literal, if there is one: a dot and at least
    one digit.  The result is what was read and what follows. *)
Definition take_fraction (s : chars) : option (chars * chars) :=
  match s with
  | c :: r =>
      if Ascii.eqb c c_dot then
        match take_digits r with
        | (Nil, _) => None
        | (d, r') => Some (c :: uint_chars d, r')
        end
      else Some ([], s)
  | [] => Some ([], [])
  end.

(** The exponent of a number literal, if there is one: [e] or [E], an
    optional sign, at least one digit. *)
Definition take_exponent (s : chars) : option (chars * chars) :=
  match s with
  | c :: r =>
      if Ascii.eqb c "e" || Ascii.eqb c "E" then
        let '(sign, r1) :=
          match r with
          | g :: r' => if Ascii.eqb g "+" || Ascii.eqb g c_minus then ([g], r') else ([], r)
          | [] => ([], r)
          end in
        match take_digits r1 with
        | (Nil, _) => None
        | (d, r2) => Some (c :: sign ++ uint_chars d, r2)
        end
      else Some ([], s)
  | [] => Some ([], [])
  end.

(** A number literal behind its sign: the whole part, an optional
    fraction, an optional exponent. *)
Definition unsigned_number (neg : bool) (s : chars) : option (json * chars) :=
  let '(d, r) := take_digits s in
  if int_literal d then
    match take_fraction r with
    | Some (fraction, r1) =>
        match take_exponent r1 with
        | Some (exponent, r2) =>
            let n := Z.of_N (N.of_uint d) in
            match fraction, exponent with
            | [], [] =>
                if safe_integer n then Some (JNum (if neg then - n else n), r2)
                else Some (JReal (text ((if neg then [c_minus] else []) ++ uint_chars d)), r2)
            | _, _ =>
                Some (JReal (text ((if neg then [c_minus] else []) ++ uint_chars d ++
                                   fraction ++ exponent)), r2)
            end
        | None => None
        end
    | None => None
    end
  else None.

(** A number literal: an optional minus, then the number. *)
Definition parse_number (s : chars) : option (json * chars) :=
  match s with
  | c :: r => if Ascii.eqb c c_minus then unsigned_number true r else unsigned_number false s
  | [] => None
  end.

(** *** Strings *)

Definition hex_digit (n : N) : ascii :=
  if (n <? 10)%N then ch (48 + n) else ch (87 + n).

Definition hex_val (c : ascii) : option N :=
  let n := code c in
  if ((48 <=? n) && (n <=? 57))%N then Some (n - 48)%N
  else if ((97 <=? n) && (n <=? 102))%N then Some (n - 87)%N
  else if ((65 <=? n) && (n <=? 70))%N then Some (n - 55)%N
  else None.

(** [QuoteJSONString]: how [JSON.stringify] writes one character. *)
Definition escape_char (c : ascii) : chars :=
  if Ascii.eqb c c_quote then [c_backslash; c_quote]
  else if Ascii.eqb c c_backslash then [c_backslash; c_backslash]
  else if Ascii.eqb c c_bs then [c_backslash; "b"%char]
  else if Ascii.eqb c c_ff then [c_backslash; "f"%char]
  else if Ascii.eqb c c_lf then [c_backslash; "n"%char]
  else if Ascii.eqb c c_cr then [c_backslash; "r"%char]
  else if Ascii.eqb c c_tab then [c_backslash; "t"%char]
  else if (code c <? 32)%N then
    [c_backslash; "u"%char; "0"%char; "0"%char;
     hex_digit (code c / 16); hex_digit (code c mod 16)]
  else [c].

Definition print_string (s : chars) : chars :=
  c_quote :: flat_map escape_char s ++ [c_quote].

(** The UTF-8 bytes of a code unit given as [\uXXXX].  A surrogate half
    that stands alone has no UTF-8 of its own; it is kept in the same
    three-byte form. *)
Definition utf8_of_unit (n : N) : chars :=
  if (n <? 128)%N then [ch n]
  else if (n <? 2048)%N then [ch (192 + n / 64); ch (128 + n mod 64)]
  else [ch (224 + n / 4096); ch (128 + (n / 64) mod 64); ch (128 + n mod 64)].

(** The two halves of a surrogate pair, and the UTF-8 bytes of the
    character a pair stands for. *)
Definition is_high (n : N) : bool := ((55296 <=? n) && (n <=? 56319))%N.
Definition is_low (n : N) : bool := ((56320 <=? n) && (n <=? 57343))%N.

Definition utf8_of_pair (high low : N) : chars :=
  let cp := (65536 + (high - 55296) * 1024 + (low - 56320))%N in
  [ch (240 + cp / 262144); ch (128 + (cp / 4096) mod 64);
   ch (128 + (cp / 64) mod 64); ch (128 + cp mod 64)].

Definition hex4 (a b c d : ascii) : option N :=
  match hex_val a, hex_val b, hex_val c, hex_val d with
  | Some x, Some y, Some z, Some w => Some (((x * 16 + y) * 16 + z) * 16 + w)%N
  | _, _, _, _ => None
  end.

(** The body of a string literal, after its opening quote. *)
Fixpoint parse_string_body (s : chars) : option (chars * chars) :=
  match s with
  | [] => None
  | c :: r =>
      if Ascii.eqb c c_quote then Some ([], r)
      else if Ascii.eqb c c_backslash then
        match r with
        | [] => None
        | e :: r1 =>
            let simple (x : ascii) :=
              match parse_string_body r1 with
              | Some (cs, r') => Some (x :: cs, r')
              | None => None
              end in
            if Ascii.eqb e c_quote then simple c_quote
            else if Ascii.eqb e c_backslash then simple c_backslash
            else if Ascii.eqb e c_slash then simple c_slash
            else if Ascii.eqb e "b" then simple c_bs
            else if Ascii.eqb e "f" then simple c_ff
            else if Ascii.eqb e "n" then simple c_lf
            else if Ascii.eqb e "r" then simple c_cr
            else if Ascii.eqb e "t" then simple c_tab
            else if Ascii.eqb e "u" then
              match r1 with
              | h1 :: h2 :: h3 :: h4 :: r2 =>
                  match hex4 h1 h2 h3 h4 with
                  | Some n =>
                      let alone :=
                        match parse_string_body r2 with
                        | Some (cs, r') => Some (utf8_of_unit n ++ cs, r')
                        | None => None
                        end in
                      if is_high n then
                        match r2 with
                        | b :: u :: l1 :: l2 :: l3 :: l4 :: r3 =>
                            if Ascii.eqb b c_backslash && Ascii.eqb u "u" then
                              match hex4 l1 l2 l3 l4 with
                              | Some m =>
                                  if is_low m then
                                    match parse_string_body r3 with
                                    | Some (cs, r') => Some (utf8_of_pair n m ++ cs, r')
                                    | None => None
                                    end
                                  else alone
                              | None => alone
                              end
                            else alone
                        | _ => alone
                        end
                      else alone
                  | None => None
                  end
              | _ => None
              end
            else None
        end
      else if (code c <? 32)%N then None
      else
        match parse_string_body r with
        | Some (cs, r') => Some (c :: cs, r')
        | None => None
        end
  end.

(** *** Values *)

Fixpoint skip_ws (s : chars) : chars :=
  match s with
  | c :: r => if is_ws c then skip_ws r else s
  | [] => []
  end.

Fixpoint strip_prefix (p s : chars) : option chars :=
  match p, s with
  | [], _ => Some s
  | a :: p', b :: s' => if Ascii.eqb a b then strip_prefix p' s' else None
  | _ :: _, [] => None
  end.

Fixpoint print_items (pr : json -> chars) (l : list json) : chars :=
  match l with
  | [] => []
  | [x] => pr x
  | x :: rest => pr x ++ c_comma :: print_items pr rest
  end.

Fixpoint print_props (pr : json -> chars) (l : list (string * json)) : chars :=
  match l with
  | [] => []
  | [(k, v)] => print_string (str k) ++ c_colon :: pr v
  | (k, v) :: rest =>
      print_string (str k) ++ c_colon :: pr v ++ c_comma :: print_props pr rest
  end.

(** [JSON.stringify(v)] without indentation.  A [JReal] is printed as
    the literal it is kept as, where the engine prints the shortest
    literal of the same double (and [null] when the double is infinite). *)
Fixpoint print (j : json) : chars :=
  match j with
  | JNull => str "null"
  | JBool true => str "true"
  | JBool false => str "false"
  | JNum z => print_Z z
  | JReal literal => str literal
  | JStr s => print_string (str s)
  | JArr l => c_lbracket :: print_items print l ++ [c_rbracket]
  | JObj l => c_lbrace :: print_props print l ++ [c_rbrace]
  end.

Definition stringify (j : json) : string := text (print j).

(** The recursive-descent reader behind [JSON.parse].  [fuel] bounds the
    nesting of calls; [parse] below supplies more than any input needs. *)
Fixpoint parse_value (fuel : nat) (s : chars) : option (json * chars) :=
  match fuel with
  | O => None
  | S fuel' =>
      match skip_ws s with
      | [] => None
      | c :: r =>
          if Ascii.eqb c c_quote then
            match parse_string_body r with
            | Some (cs, r') => Some (JStr (text cs), r')
            | None => None
            end
          else if Ascii.eqb c c_lbracket then
            match skip_ws r with
            | c' :: r' =>
                if Ascii.eqb c' c_rbracket then Some (JArr [], r')
                else
                  match parse_items fuel' r with
                  | Some (l, r'') => Some (JArr l, r'')
                  | None => None
                  end
            | [] => None
            end
          else if Ascii.eqb c c_lbrace then
            match skip_ws r with
            | c' :: r' =>
                if Ascii.eqb c' c_rbrace then Some (JObj [], r')
                else
                  match parse_props fuel' r with
                  | Some (l, r'') => Some (JObj (obj_of_pairs l), r'')
                  | None => None
                  end
            | [] => None
            end
          else if Ascii.eqb c c_minus || is_digit c then
            parse_number (c :: r)
          else
            match strip_prefix (str "null") (c :: r) with
            | Some r' => Some (JNull, r')
            | None =>
                match strip_prefix (str "true") (c :: r) with
                | Some r' => Some (JBool true, r')
                | None =>
                    match strip_prefix (str "false") (c :: r) with
                    | Some r' => Some (JBool false, r')
                    | None => None
                    end
                end
            end
      end
  end
with parse_items (fuel : nat) (s : chars) : option (list json * chars) :=
  match fuel with
  | O => None
  | S fuel' =>
      match parse_value fuel' s with
      | Some (v, r) =>
          match skip_ws r with
          | c :: r' =>
              if Ascii.eqb c c_comma then
                match parse_items fuel' r' with
                | Some (l, r'') => Some (v :: l, r'')
                | None => None
                end
              else if Ascii.eqb c c_rbracket then Some ([v], r')
              else None
          | [] => None
          end
      | None => None
      end
  end
with parse_props (fuel : nat) (s : chars) : option (list (string * json) * chars) :=
  match fuel with
  | O => None
  | S fuel' =>
      match skip_ws s with
      | q :: r0 =>
          if Ascii.eqb q c_quote then
            match parse_string_body r0 with
            | Some (k, r1) =>
                match skip_ws r1 with
                | c1 :: r2 =>
                    if Ascii.eqb c1 c_colon then
                      match parse_value fuel' r2 with
                      | Some (v, r3) =>
                          match skip_ws r3 with
                          | c :: r' =>
                              if Ascii.eqb c c_comma then
                                match parse_props fuel' r' with
                                | Some (l, r'') => Some ((text k, v) :: l, r'')
                                | None => None
                                end
                              else if Ascii.eqb c c_rbrace then Some ([(text k, v)], r')
                              else None
                          | [] => None
                          end
                      | None => None
                      end
                    else None
                | [] => None
                end
            | None => None
            end
          else None
      | [] => None
      end
  end.

(** [JSON.parse(s)]; [None] is the [SyntaxError]. *)
Definition parse (s : string) : option json :=
  let cs := str s in
  match parse_value (S (length cs)) cs with
  | Some (j, r) => match skip_ws r with [] => Some j | _ :: _ => None end
  | None => None
  end.

(** *** Decimals that are printed as they are written

    [String] and [JSON.stringify] print a number with the fewest digits
    that tell its double from every other.  A literal with a fraction
    that does not end in [0], no exponent, at most 15 significant digits
    and a size of 0.000001 or more is such a shortest form (a double
    holds 15 decimal digits without loss): the engine prints the number
    that the literal spells as that very literal. *)

Fixpoint zeros (s : chars) : nat :=
  match s with
  | c :: r => if Ascii.eqb c "0" then S (zeros r) else O
  | [] => O
  end.

Definition canonical (literal : string) : bool :=
  let s := str literal in
  let s1 :=
    match s with
    | c :: r => if Ascii.eqb c c_minus then r else s
    | [] => s
    end in
  let '(w, r) := take_digits s1 in
  match r with
  | c :: r1 =>
      let '(f, r2) := take_digits r1 in
      let fraction := uint_chars f in
      Ascii.eqb c c_dot && int_literal w &&
      match r2 with [] => true | _ :: _ => false end &&
      negb (Ascii.eqb (List.last fraction "0"%char) "0") &&
      match w with
      | D0 Nil =>
          (zeros fraction <=? 5)%nat && (length fraction - zeros fraction <=? 15)%nat
      | _ => (length (uint_chars w) + length fraction <=? 15)%nat
      end
  | [] => false
  end.

(** *** Plain values

    A value is plain when the reader gives it back from what the printer
    writes of it: every number is a whole number below 2^53 in size or a
    decimal that is printed as it is written, and no object has a
    property name twice, as no JavaScript object can. *)

Fixpoint distinct (ks : list string) : bool :=
  match ks with
  | [] => true
  | k :: rest => negb (existsb (String.eqb k) rest) && distinct rest
  end.

Fixpoint plain (j : json) : bool :=
  match j with
  | JNum z => safe_integer z
  | JReal literal => canonical literal
  | JArr l => forallb plain l
  | JObj l => distinct (map fst l) && forallb (fun kv => plain (snd kv)) l
  | _ => true
  end.

(** A whole number as a property name: a decimal numeral without
    leading zero.  Where it is an array index (below 2^32 - 1) JavaScript
    enumerates the property before the others and by its number, whenever
    it was set. *)
Definition is_index (k : string) : bool :=
  match take_digits (str k) with
  | (d, []) => int_literal d
  | (_, _ :: _) => false
  end.

Definition in_range (low high : N) (c : ascii) : bool :=
  ((low <=? code c) && (code c <=? high))%N.

(** The bytes of a text are UTF-8 (RFC 3629): only then does decoding a
    file and encoding it again, as [fs.readFile] and [fs.writeFile] do,
    give the same bytes, and only then is no half of a surrogate pair in
    the text, which [JSON.stringify] would write as an escape. *)
Fixpoint utf8 (s : chars) : bool :=
  match s with
  | [] => true
  | a :: r =>
      if (code a <? 128)%N then utf8 r
      else if in_range 194 223 a then
        match r with
        | b :: r' => in_range 128 191 b && utf8 r'
        | _ => false
        end
      else if in_range 224 239 a then
        match r with
        | b :: c :: r' =>
            in_range (if (code a =? 224)%N then 160 else 128)
                     (if (code a =? 237)%N then 159 else 191) b &&
            in_range 128 191 c && utf8 r'
        | _ => false
        end
      else if in_range 240 244 a then
        match r with
        | b :: c :: d :: r' =>
            in_range (if (code a =? 240)%N then 144 else 128)
                     (if (code a =? 244)%N then 143 else 191) b &&
            in_range 128 191 c && in_range 128 191 d && utf8 r'
        | _ => false
        end
      else false
  end.

(** A value is exact when, beyond being plain, it is printed here
    character for character as [JSON.stringify] prints it: its texts are
    UTF-8 and the properties of its objects stand in the order of
    JavaScript, no name being a whole number. *)
Fixpoint exact (j : json) : bool :=
  match j with
  | JNum z => safe_integer z
  | JReal literal => canonical literal
  | JStr s => utf8 (str s)
  | JArr l => forallb exact l
  | JObj l =>
      distinct (map fst l) &&
      forallb (fun kv => negb (is_index (fst kv)) && utf8 (str (fst kv)) &&
                         exact (snd kv)) l
  | _ => true
  end.

(** Calls of the reader that printing [j] back takes. *)
Fixpoint json_fuel (j : json) : nat :=
  match j with
  | JArr l => S (list_sum (map (fun x => S (json_fuel x)) l))
  | JObj l => S (list_sum (map (fun kv => S (json_fuel (snd kv))) l))
  | _ => 1%nat
  end.

(** What a printed value starts with: never blank, never a closing
    bracket. *)
Definition opens (cs : chars) : Prop :=
  exists c tl, cs = c :: tl /\ is_ws c = false /\
    Ascii.eqb c c_rbracket = false /\ Ascii.eqb c c_rbrace = false.

(** The printer [pr] writes [j] so that the reader, given fuel enough and
    whatever follows, returns [j] and what follows. *)
Definition reads_back_as (pr : json -> chars) (j : json) : Prop :=
  plain j = true ->
  forall fuel rest, (json_fuel j <= fuel)%nat -> num_follow rest = true ->
  parse_value fuel (pr j ++ rest) = Some (j, rest).

Definition reads_back (j : json) : Prop := reads_back_as print j.

End JSON.

Import JSON.

(** ** The world the services run in *)

(** A JavaScript [Error]; only its message is ever inspected. *)
Record JsError := Error { message : string }.

(** What a file holds: nothing that can be read ([Unreadable], with the
    message of the error [fs.readFile] raises: missing file, permission,
    or an image the engine rejects), or a content. *)
Inductive disk (A : Type) : Type :=
| Unreadable (why : string)
| Stored (content : A).
Arguments Unreadable {A} why.
Arguments Stored {A} content.

(** A file together with the fate of the coming [fs.writeFile] calls on
    it, oldest first: [None] is a call that succeeds, [Some msg] one that
    throws [Error msg] before it has touched the file (a file that is
    busy, locked or not writable); once the list is used up every write
    succeeds.  A write that fails half-way and leaves a truncated file is
    not among these fates, and no property below says what a failed write
    leaves on disk. *)
Record file (A : Type) : Type := File {
  on_disk : disk A;
  write_faults : list (option string)
}.
Arguments File {A} on_disk write_faults.
Arguments on_disk {A} f.
Arguments write_faults {A} f.

(** A cell of the [value] column of [ItemTable]. *)
Inductive sqlval : Type :=
| SqlNull
| SqlInt (z : Z)
| SqlText (s : string)
| SqlBlob (bs : list Byte.byte).

(** [ItemTable (key TEXT UNIQUE ON CONFLICT REPLACE, value BLOB)]: keys
    are unique, so the table is a finite map. *)
Abbreviation table := (gmap string sqlval).

(** Modelled from the spec: [windsurfPatchService.ts] is not among the
    sources.  The patch service is a collaborator with the contract
    [checkAndApply() -> { needsRestart: bool, error?: string }], and
    [switchAccount] reads just these two fields of what
    [WindsurfPatchService.checkAndApplyPatch()] resolves to; the answer
    itself is part of the world. *)
Module WindsurfPatchService.

Record PatchResult := {
  needsRestart : bool;
  error : option string
}.

End WindsurfPatchService.

(** What the services do to the host, in the order they do it. *)
Inductive Effect : Type :=
| ExecuteCommand (cmd : string) (arg : option json)
| ShowInformationMessage (msg : string)
| SetTimeoutCommand (cmd : string) (ms : Z)
| Sleep (ms : Z)
| WriteDb (ok : bool)
| WriteStorage (ok : bool).

Record World := {
  platform : string;                       (* process.platform *)
  db : file table;                         (* state.vscdb *)
  storage : file string;                   (* storage.json *)
  entropy : nat -> Byte.byte;              (* the random source *)
  drawn : nat;                             (* random bytes used so far *)
  patch : JsError + WindsurfPatchService.PatchResult;
                                           (* the patch check: throws or resolves *)
  command_fault : string -> option string; (* a host command that throws *)
  effects : list Effect;                   (* what was done, oldest first *)
  output : list string;                    (* the output channel *)
  console : list string                    (* console.log / warn / error *)
}.

Definition set_db (f : file table) (w : World) : World :=
  {| platform := platform w; db := f; storage := storage w;
     entropy := entropy w; drawn := drawn w; patch := patch w;
     command_fault := command_fault w; effects := effects w;
     output := output w; console := console w |}.

Definition set_storage (f : file string) (w : World) : World :=
  {| platform := platform w; db := db w; storage := f;
     entropy := entropy w; drawn := drawn w; patch := patch w;
     command_fault := command_fault w; effects := effects w;
     output := output w; console := console w |}.

Definition set_drawn (n : nat) (w : World) : World :=
  {| platform := platform w; db := db w; storage := storage w;
     entropy := entropy w; drawn := n; patch := patch w;
     command_fault := command_fault w; effects := effects w;
     output := output w; console := console w |}.

Definition add_effect (e : Effect) (w : World) : World :=
  {| platform := platform w; db := db w; storage := storage w;
     entropy := entropy w; drawn := drawn w; patch := patch w;
     command_fault := command_fault w; effects := effects w ++ [e];
     output := output w; console := console w |}.

Definition set_output (l : list string) (w : World) : World :=
  {| platform := platform w; db := db w; storage := storage w;
     entropy := entropy w; drawn := drawn w; patch := patch w;
     command_fault := command_fault w; effects := effects w;
     output := l; console := console w |}.

Definition add_console (line : string) (w : World) : World :=
  {| platform := platform w; db := db w; storage := storage w;
     entropy := entropy w; drawn := drawn w; patch := patch w;
     command_fault := command_fault w; effects := effects w;
     output := output w; console := console w ++ [line] |}.

(** ** Sequencing, [throw] and [try]/[catch] *)

Inductive outcome (A : Type) : Type :=
| Return (a : A)
| Throw (e : JsError).
Arguments Return {A} a.
Arguments Throw {A} e.

Definition M (A : Type) : Type := World -> outcome A * World.

Definition ret {A} (a : A) : M A := fun w => (Return a, w).

Definition throw {A} (e : JsError) : M A := fun w => (Throw e, w).

Definition bind {A B} (m : M A) (k : A -> M B) : M B :=
  fun w =>
    match m w with
    | (Return a, w') => k a w'
    | (Throw e, w') => (Throw e, w')
    end.

Definition try_catch {A} (m : M A) (handler : JsError -> M A) : M A :=
  fun w =>
    match m w with
    | (Return a, w') => (Return a, w')
    | (Throw e, w') => handler e w'
    end.

Notation "x <- m ;; k" := (bind m (fun x => k))
  (at level 100, m at next level, right associativity).
Notation "m ;; k" := (bind m (fun _ => k))
  (at level 100, right associativity).

Definition modify (f : World -> World) : M unit := fun w => (Return tt, f w).
Definition gets {A} (f : World -> A) : M A := fun w => (Return (f w), w).

Definition effect (e : Effect) : M unit := modify (add_effect e).
Definition console_log (line : string) : M unit := modify (add_console line).

(** ** File system *)

(** One [fs.writeFile] on a file. *)
Definition write_attempt {A} (f : file A) (new : A) : option string * file A :=
  match write_faults f with
  | Some why :: later => (Some why, File (on_disk f) later)
  | None :: later => (None, File (Stored new) later)
  | [] => (None, File (Stored new) [])
  end.

Definition read_db : M table :=
  fun w =>
    match on_disk (db w) with
    | Stored t => (Return t, w)
    | Unreadable why => (Throw (Error why), w)
    end.

Definition write_db (t : table) : M unit :=
  fun w =>
    match write_attempt (db w) t with
    | (None, f) => (Return tt, add_effect (WriteDb true) (set_db f w))
    | (Some why, f) => (Throw (Error why), add_effect (WriteDb false) (set_db f w))
    end.

Definition read_storage : M string :=
  fun w =>
    match on_disk (storage w) with
    | Stored s => (Return s, w)
    | Unreadable why => (Throw (Error why), w)
    end.

Definition write_storage (s : string) : M unit :=
  fun w =>
    match write_attempt (storage w) s with
    | (None, f) => (Return tt, add_effect (WriteStorage true) (set_storage f w))
    | (Some why, f) =>
        (Throw (Error why), add_effect (WriteStorage false) (set_storage f w))
    end.

(** ** [databaseHelper.ts]

    Each of the four functions begins with [const SQL = await
    initSqlJs()], which stands before its [try]: if the engine itself
    does not load, the call rejects with the engine's error whatever the
    [catch] of the function does.  The embedding starts where that call
    has resolved: a world in which sql.js does not load is not among the
    worlds described, and the properties below speak of the functions
    once the engine is there. *)

Module DatabaseHelper.

(** What [writeToDB] is handed and [readFromDB] hands back ([any]). *)
Inductive jsvalue : Type :=
| JsUndefined
| JsBuffer (bytes : list Byte.byte)
| JsUint8Array (bytes : list Byte.byte)
| JsData (j : json).

Definition js_null : jsvalue := JsData JNull.

Definition byte_num (b : Byte.byte) : json := JNum (Z.of_N (Byte.to_N b)).

(** [{ type: 'Buffer', data: Array.from(value) }] *)
Definition buffer_json (bytes : list Byte.byte) : json :=
  JObj [("type"%string, JStr "Buffer"); ("data"%string, JArr (map byte_num bytes))].

(** [String(value)] for a value that is not an object; a [JReal] is
    shown by the literal kept. *)
Definition String_ (v : jsvalue) : string :=
  match v with
  | JsUndefined => "undefined"
  | JsData (JStr s) => s
  | JsData (JNum z) => text (print_Z z)
  | JsData (JBool true) => "true"
  | JsData (JBool false) => "false"
  | JsData j => stringify j
  | JsBuffer bytes | JsUint8Array bytes => stringify (buffer_json bytes)
  end.

(** [typeof value === 'object'] *)
Definition typeof_object (v : jsvalue) : bool :=
  match v with
  | JsData JNull | JsData (JArr _) | JsData (JObj _) => true
  | JsBuffer _ | JsUint8Array _ => true
  | _ => false
  end.

(** [value === null || value === undefined] *)
Definition nullish (v : jsvalue) : bool :=
  match v with
  | JsUndefined | JsData JNull => true
  | _ => false
  end.

(** The text [writeToDB] stores for a value ([finalValue]). *)
Definition finalValue (value : jsvalue) : string :=
  match value with
  | JsBuffer bytes => stringify (buffer_json bytes)
  | JsUint8Array bytes => stringify (buffer_json bytes)
  | JsData j => if typeof_object value then stringify j else String_ value
  | JsUndefined => String_ value
  end.

(** What the driver returns for a cell, before any decoding: an integer
    comes back as a number, that is, as the nearest double. *)
Definition js_of_sql (c : sqlval) : jsvalue :=
  match c with
  | SqlNull => js_null
  | SqlInt z => JsData (if safe_integer z then JNum z else JReal (text (print_Z z)))
  | SqlText s => JsData (JStr s)
  | SqlBlob bs => JsUint8Array bs
  end.

Definition readFromDB (key : string) : M jsvalue :=
  try_catch
    (t <- read_db ;;
     match t !! key with
     | Some value =>
         match value with
         | SqlText s =>
             match JSON.parse s with
             | Some j => ret (JsData j)
             | None => ret (JsData (JStr s))
             end
         | _ => ret (js_of_sql value)
         end
     | None => ret js_null
     end)
    (fun error =>
       console_log ("[DatabaseHelper] 读取失败: " +:+ message error) ;;
       ret js_null).

Definition writeToDB (key : string) (value : jsvalue) : M bool :=
  try_catch
    ((if nullish value
      then throw (Error ("Cannot write null/undefined value to key: " +:+ key))
      else ret tt) ;;
     t <- read_db ;;
     write_db (<[key := SqlText (finalValue value)]> t) ;;
     console_log ("[DatabaseHelper] 已写入: " +:+ key) ;;
     ret true)
    (fun error =>
       console_log ("[DatabaseHelper] 写入失败: " +:+ message error) ;;
       throw error).

Definition deleteFromDB (key : string) : M bool :=
  try_catch
    (t <- read_db ;;
     write_db (delete key t) ;;
     console_log ("[DatabaseHelper] 已删除: " +:+ key) ;;
     ret true)
    (fun error =>
       console_log ("[DatabaseHelper] 删除失败: " +:+ message error) ;;
       ret false).

(** *** SQL [LIKE] as the engine evaluates it: [%] is any run of
    characters, [_] any one character, letters of ASCII compare without
    case. *)

Definition lower (c : ascii) : ascii :=
  if ((65 <=? code c) && (code c <=? 90))%N then ch (code c + 32) else c.

(** Bytes [10xxxxxx] continue a UTF-8 character. *)
Definition is_cont (c : ascii) : bool :=
  ((128 <=? code c) && (code c <? 192))%N.

Fixpoint skip_cont (s : chars) : chars :=
  match s with
  | c :: r => if is_cont c then skip_cont r else s
  | [] => []
  end.

Fixpoint like (p : chars) (s : chars) {struct p} : bool :=
  match p with
  | [] => match s with [] => true | _ :: _ => false end
  | c :: p' =>
      if Ascii.eqb c "%" then
        (fix star (s : chars) : bool :=
           match s with
           | [] => like p' []
           | d :: r => (negb (is_cont d) && like p' s) || star r
           end) s
      else if Ascii.eqb c "_" then
        match s with
        | [] => false
        | d :: r => like p' (if (192 <=? code d)%N then skip_cont r else r)
        end
      else
        match s with
        | [] => false
        | d :: r => Ascii.eqb (lower c) (lower d) && like p' r
        end
  end.

Definition LIKE (key pattern : string) : bool := like (str pattern) (str key).

(** [SELECT key FROM ItemTable WHERE key LIKE ?] *)
Definition select_like (pattern : string) (t : table) : list string :=
  filter (fun k => LIKE k pattern = true) (map_to_list t).*1.

(** The loop over the rows found: one [DELETE] and one count each. *)
Fixpoint delete_rows (rows : list string) (t : table) (deletedCount : Z) : table * Z :=
  match rows with
  | [] => (t, deletedCount)
  | row :: rest => delete_rows rest (delete row t) (deletedCount + 1)
  end.

Definition deleteByPattern (pattern : string) : M Z :=
  try_catch
    (t <- read_db ;;
     let '(t', deletedCount) := delete_rows (select_like pattern t) t 0 in
     write_db t' ;;
     console_log ("[DatabaseHelper] 删除了 " +:+ text (print_Z deletedCount) +:+
                  " 条记录 (pattern: " +:+ pattern +:+ ")") ;;
     ret deletedCount)
    (fun error =>
       console_log ("[DatabaseHelper] 批量删除失败: " +:+ message error) ;;
       ret 0).

End DatabaseHelper.


(** ** Pretty printing: [JSON.stringify(v, null, gap)] *)

Module Pretty.

Definition newline (indent : nat) : chars := c_lf :: repeat c_space indent.

Fixpoint join_items (sep : chars) (pr : json -> chars) (l : list json) : chars :=
  match l with
  | [] => []
  | [x] => pr x
  | x :: rest => pr x ++ sep ++ join_items sep pr rest
  end.

Fixpoint join_props (sep : chars) (pr : json -> chars) (l : list (string * json)) : chars :=
  match l with
  | [] => []
  | [(k, v)] => print_string (str k) ++ c_colon :: c_space :: pr v
  | (k, v) :: rest =>
      print_string (str k) ++ c_colon :: c_space :: pr v ++ sep ++ join_props sep pr rest
  end.

(** [indent] is the indentation the value is printed at; its members sit
    [gap] deeper, one per line. *)
Fixpoint pretty (gap indent : nat) (j : json) {struct j} : chars :=
  match j with
  | JArr [] => [c_lbracket; c_rbracket]
  | JArr l =>
      c_lbracket :: newline (indent + gap) ++
      join_items (c_comma :: newline (indent + gap)) (pretty gap (indent + gap)) l ++
      newline indent ++ [c_rbracket]
  | JObj [] => [c_lbrace; c_rbrace]
  | JObj l =>
      c_lbrace :: newline (indent + gap) ++
      join_props (c_comma :: newline (indent + gap)) (pretty gap (indent + gap)) l ++
      newline indent ++ [c_rbrace]
  | _ => print j
  end.

Definition stringify_indent (gap : nat) (j : json) : string := text (pretty gap 0 j).

End Pretty.

(** ** The digests of [crypto.createHash] (FIPS 180-4) *)

Module SHA2.

Record params := {
  wbits : Z;                  (* word size *)
  K : list Z;                 (* round constants *)
  H0 : list Z;                (* initial hash value *)
  S0 : Z * Z * Z;             (* rotations of the big sigma 0 *)
  S1 : Z * Z * Z;             (* rotations of the big sigma 1 *)
  s0 : Z * Z * Z;             (* small sigma 0: two rotations and a shift *)
  s1 : Z * Z * Z              (* small sigma 1: two rotations and a shift *)
}.

Section Rounds.
Variable p : params.

Definition wrap (x : Z) : Z := x mod 2 ^ wbits p.
Definition add (x y : Z) : Z := wrap (x + y).
Definition rotr (n x : Z) : Z :=
  Z.lor (Z.shiftr x n) (wrap (Z.shiftl x (wbits p - n))).
Definition Ch (x y z : Z) : Z := Z.lxor (Z.land x y) (Z.ldiff z x).
Definition Maj (x y z : Z) : Z :=
  Z.lxor (Z.lxor (Z.land x y) (Z.land x z)) (Z.land y z).
Definition bigsigma (r : Z * Z * Z) (x : Z) : Z :=
  let '(a, b, c) := r in Z.lxor (Z.lxor (rotr a x) (rotr b x)) (rotr c x).
Definition smallsigma (r : Z * Z * Z) (x : Z) : Z :=
  let '(a, b, c) := r in Z.lxor (Z.lxor (rotr a x) (rotr b x)) (Z.shiftr x c).

Definition state : Type := Z * Z * Z * Z * Z * Z * Z * Z.

Definition step (k w : Z) (st : state) : state :=
  let '(a, b, c, d, e, f, g, h) := st in
  let T1 := add (add (add h (bigsigma (S1 p) e)) (add (Ch e f g) k)) w in
  let T2 := add (bigsigma (S0 p) a) (Maj a b c) in
  (add T1 T2, a, b, c, add d T1, e, f, g).

(** [win] holds the sixteen schedule words from the current round on. *)
Fixpoint rounds (ks : list Z) (win : list Z) (st : state) : state :=
  match ks, win with
  | k :: ks', w0 :: rest =>
      let next :=
        add (add (smallsigma (s1 p) (nth 14 win 0)) (nth 9 win 0))
            (add (smallsigma (s0 p) (nth 1 win 0)) w0) in
      rounds ks' (rest ++ [next]) (step k w0 st)
  | _, _ => st
  end.

Definition compress (st : state) (block : list Z) : state :=
  let '(a, b, c, d, e, f, g, h) := st in
  let '(a', b', c', d', e', f', g', h') := rounds (K p) block st in
  (add a a', add b b', add c c', add d d', add e e', add f f', add g g', add h h').

Definition word_of_bytes (bs : list Z) : Z :=
  fold_left (fun acc b => acc * 256 + b) bs 0.

Definition bytes_of_word (n : nat) (x : Z) : list Z :=
  map (fun i => (x / 2 ^ (8 * Z.of_nat i)) mod 256) (rev (seq 0 n)).

Fixpoint chunks (fuel size : nat) (l : list Z) : list (list Z) :=
  match fuel with
  | O => []
  | S fuel' =>
      match l with
      | [] => []
      | _ => firstn size l :: chunks fuel' size (skipn size l)
      end
  end.

Definition wbytes : nat := Z.to_nat (wbits p / 8).
Definition block_bytes : nat := (16 * wbytes)%nat.

(** The message, a one bit, zeros, and the bit length on two words. *)
Definition pad (msg : list Z) : list Z :=
  let len := Z.of_nat (length msg) in
  let used := (len + 1 + 2 * Z.of_nat wbytes) mod Z.of_nat block_bytes in
  let zeros := Z.to_nat ((Z.of_nat block_bytes - used) mod Z.of_nat block_bytes) in
  msg ++ 128 :: repeat 0 zeros ++ bytes_of_word (2 * wbytes) (8 * len).

Definition init : state :=
  (nth 0 (H0 p) 0, nth 1 (H0 p) 0, nth 2 (H0 p) 0, nth 3 (H0 p) 0,
   nth 4 (H0 p) 0, nth 5 (H0 p) 0, nth 6 (H0 p) 0, nth 7 (H0 p) 0).

Definition digest (msg : list Z) : list Z :=
  let padded := pad msg in
  let blocks := chunks (length padded) block_bytes padded in
  let words (b : list Z) := map word_of_bytes (chunks 16 wbytes b) in
  let '(a, b, c, d, e, f, g, h) := fold_left (fun st b => compress st (words b)) blocks init in
  flat_map (bytes_of_word wbytes) [a; b; c; d; e; f; g; h].

End Rounds.

(** The constants are the leading fractional bits of the square roots
    (initial hash) and cube roots (rounds) of the first primes. *)
Fixpoint root_from (bit : nat) (k n r : Z) : Z :=
  let r' := r + 2 ^ Z.of_nat bit in
  let r1 := if r' ^ k <=? n then r' else r in
  match bit with
  | O => r1
  | S b => root_from b k n r1
  end.

Definition frac_root (k w prime : Z) : Z :=
  root_from (Z.to_nat w + 8) k (prime * 2 ^ (k * w)) 0 mod 2 ^ w.

Definition is_prime (n : nat) : bool :=
  forallb (fun d => negb (Nat.eqb (n mod d) 0)) (seq 2 (n - 2)).

Definition primes (count : nat) : list Z :=
  map Z.of_nat (firstn count (List.filter is_prime (seq 2 420))).

Definition K256 : list Z := Eval vm_compute in map (frac_root 3 32) (primes 64).
Definition H256 : list Z := Eval vm_compute in map (frac_root 2 32) (primes 8).
Definition K512 : list Z := Eval vm_compute in map (frac_root 3 64) (primes 80).
Definition H512 : list Z := Eval vm_compute in map (frac_root 2 64) (primes 8).

Definition sha256_params : params := {|
  wbits := 32; K := K256; H0 := H256;
  S0 := (2, 13, 22); S1 := (6, 11, 25); s0 := (7, 18, 3); s1 := (17, 19, 10)
|}.

Definition sha512_params : params := {|
  wbits := 64; K := K512; H0 := H512;
  S0 := (28, 34, 39); S1 := (14, 18, 41); s0 := (1, 8, 7); s1 := (19, 61, 6)
|}.

Definition byte_Z (b : Byte.byte) : Z := Z.of_N (Byte.to_N b).

Definition sha256 (msg : list Byte.byte) : list Z := digest sha256_params (map byte_Z msg).
Definition sha512 (msg : list Byte.byte) : list Z := digest sha512_params (map byte_Z msg).

(** [.digest('hex')]: two lower-case digits a byte. *)
Definition hex_byte (b : Z) : chars :=
  [hex_digit (Z.to_N (b / 16)); hex_digit (Z.to_N (b mod 16))].

Definition hex (bs : list Z) : string := text (flat_map hex_byte bs).

End SHA2.

(** ** Random identifiers *)

Definition randomBytes (n : nat) : M (list Byte.byte) :=
  fun w => (Return (map (entropy w) (seq (drawn w) n)), set_drawn (drawn w + n) w).

(** [uuidv4()]: sixteen random bytes, the version and variant bits set,
    written as 8-4-4-4-12 lower-case hexadecimal digits. *)
Definition version_bits (i : nat) (b : Z) : Z :=
  if Nat.eqb i 6 then Z.lor (Z.land b 15) 64
  else if Nat.eqb i 8 then Z.lor (Z.land b 63) 128
  else b.

Definition uuid_bytes (rnd : list Z) : list Z :=
  map (fun ib => version_bits (fst ib) (snd ib)) (combine (seq 0 (length rnd)) rnd).

Definition uuid_format (bs : list Z) : chars :=
  flat_map SHA2.hex_byte (firstn 4 bs) ++ c_minus ::
  flat_map SHA2.hex_byte (firstn 2 (skipn 4 bs)) ++ c_minus ::
  flat_map SHA2.hex_byte (firstn 2 (skipn 6 bs)) ++ c_minus ::
  flat_map SHA2.hex_byte (firstn 2 (skipn 8 bs)) ++ c_minus ::
  flat_map SHA2.hex_byte (firstn 6 (skipn 10 bs)).

Definition uuidv4 : M string :=
  rnd <- randomBytes 16 ;;
  ret (text (uuid_format (uuid_bytes (map SHA2.byte_Z rnd)))).

(** [s.toUpperCase()] on the letters of ASCII. *)
Definition upper (c : ascii) : ascii :=
  if ((97 <=? code c) && (code c <=? 122))%N then ch (code c - 32) else c.

Definition toUpperCase (s : string) : string := text (map upper (str s)).

(** [s.substring(0, n)] *)
Definition substring0 (n : nat) (s : string) : string := text (firstn n (str s)).

(** ** [machineIdReset.ts] *)

Module MachineIdResetter.

Record MachineIds := {
  machineId : string;
  macMachineId : string;
  sqmId : string;
  devDeviceId : string;
  serviceMachineId : string
}.

Definition generateMachineIds : M MachineIds :=
  r32 <- randomBytes 32 ;;
  r64 <- randomBytes 64 ;;
  u1 <- uuidv4 ;;
  u2 <- uuidv4 ;;
  u3 <- uuidv4 ;;
  ret {| machineId := SHA2.hex (SHA2.sha256 r32);
         macMachineId := SHA2.hex (SHA2.sha512 r64);
         sqmId := "{" +:+ toUpperCase u1 +:+ "}";
         devDeviceId := u2;
         serviceMachineId := u3 |}.

(** [typeof data] and [String(data)] for a value that is neither [null]
    nor an object. *)
Definition type_name (data : json) : string :=
  match data with
  | JBool _ => "boolean"
  | JStr _ => "string"
  | _ => "number"
  end.

Definition shown (data : json) : string :=
  match data with
  | JStr s => s
  | _ => stringify data
  end.

(** [storageData[key] = value] on whatever [JSON.parse] returned: an
    object takes the property; [null] and, in strict mode, a primitive
    raise a [TypeError] (the message is the engine's, and for a [JReal]
    its number is shown by the literal kept); an array takes it as a
    named property, which [JSON.stringify] does not print. *)
Definition set_property (data : json) (key : string) (value : json) : M json :=
  match data with
  | JObj props => ret (JObj (obj_set key value props))
  | JArr items => ret (JArr items)
  | JNull =>
      throw (Error ("Cannot set properties of null (setting '" +:+ key +:+ "')"))
  | _ =>
      throw (Error ("Cannot create property '" +:+ key +:+ "' on " +:+ type_name data +:+
                    " '" +:+ shown data +:+ "'"))
  end.

Definition maxRetries : nat := 3.

(** The [for] loop over the write attempts: [i] is the loop counter,
    [remaining] is [maxRetries - i]; the result is [lastError]. *)
Fixpoint write_attempts (remaining : nat) (i : Z) (content : string)
    (lastError : option JsError) : M (option JsError) :=
  match remaining with
  | O => ret lastError
  | S remaining' =>
      r <- try_catch
             ((if 0 <? i then effect (Sleep (500 * (i + 1))) else ret tt) ;;
              write_storage content ;;
              console_log "[MachineIdResetter] storage.json 已更新" ;;
              ret None)
             (fun error =>
                console_log ("[MachineIdResetter] 写入失败 (" +:+ text (print_Z (i + 1)) +:+
                             "/" +:+ text (print_Z (Z.of_nat maxRetries)) +:+ "): " +:+
                             message error) ;;
                ret (Some error)) ;;
      match r with
      | None => ret None
      | Some error => write_attempts remaining' (i + 1) content (Some error)
      end
  end.

Definition resetMachineId : M MachineIds :=
  ids <- generateMachineIds ;;
  try_catch
    (storageData <-
       try_catch
         (content <- read_storage ;;
          match JSON.parse content with
          | Some data => ret data
          | None => throw (Error "Unexpected token in JSON")
          end)
         (fun _ =>
            console_log "[MachineIdResetter] storage.json 不存在或格式错误，创建新文件" ;;
            ret (JObj [])) ;;
     d1 <- set_property storageData "telemetry.machineId" (JStr (machineId ids)) ;;
     d2 <- set_property d1 "telemetry.sqmId" (JStr (sqmId ids)) ;;
     d3 <- set_property d2 "telemetry.devDeviceId" (JStr (devDeviceId ids)) ;;
     platform <- gets platform ;;
     d4 <- (if String.eqb platform "darwin"
            then set_property d3 "telemetry.macMachineId" (JStr (macMachineId ids))
            else ret d3) ;;
     lastError <- write_attempts maxRetries 0 (Pretty.stringify_indent 2 d4) None ;;
     match lastError with
     | Some e => throw e
     | None => ret ids
     end)
    (fun error => throw (Error ("重置机器 ID 失败: " +:+ message error))).

End MachineIdResetter.

(** ** [accountManager.ts] *)

Module AccountManager.

Record Account := {
  id : string;
  email : string;
  name : string;
  apiKey : string;
  apiServerUrl : string;
  refreshToken : string;
  planName : string;
  createdAt : string;
  updatedAt : string
}.

(** The extension context: [globalState] under the two keys the manager
    uses, and the secret storage. *)
Record Context := {
  accounts : option (list Account);        (* windsurfSwitch.accounts *)
  currentAccountIndex : option Z;          (* windsurfSwitch.currentAccountIndex *)
  secrets : gmap string string
}.

Definition SECRETS_PREFIX : string := "windsurfSwitch.secret.".

(** An [Account | null] slot; reading an array out of range gives
    [undefined]. *)
Inductive slot : Type :=
| null
| undefined
| object (a : Account).

Definition getCurrentAccountIndex (ctx : Context) : Z :=
  match currentAccountIndex ctx with
  | Some i => i
  | None => 0
  end.

Definition setCurrentAccountIndex (index : Z) (ctx : Context) : Context :=
  {| accounts := accounts ctx; currentAccountIndex := Some index; secrets := secrets ctx |}.

(** A stored secret that is a non-empty string. *)
Definition secret (ctx : Context) (key : string) : option string :=
  match secrets ctx !! key with
  | Some v => if String.eqb v EmptyString then None else Some v
  | None => None
  end.

Definition restore (ctx : Context) (account : Account) : Account :=
  let a1 :=
    match secret ctx (SECRETS_PREFIX +:+ id account +:+ ".refreshToken") with
    | Some t =>
        {| id := id account; email := email account; name := name account;
           apiKey := apiKey account; apiServerUrl := apiServerUrl account;
           refreshToken := t; planName := planName account;
           createdAt := createdAt account; updatedAt := updatedAt account |}
    | None => account
    end in
  match secret ctx (SECRETS_PREFIX +:+ id a1 +:+ ".apiKey") with
  | Some k =>
      {| id := id a1; email := email a1; name := name a1;
         apiKey := k; apiServerUrl := apiServerUrl a1;
         refreshToken := refreshToken a1; planName := planName a1;
         createdAt := createdAt a1; updatedAt := updatedAt a1 |}
  | None => a1
  end.

(** [getAccounts] fills the secrets into the very objects [globalState]
    holds, so the stored list changes with the returned one. *)
Definition getAccounts (ctx : Context) : list Account * Context :=
  match accounts ctx with
  | Some stored =>
      let restored := map (restore ctx) stored in
      (restored,
       {| accounts := Some restored; currentAccountIndex := currentAccountIndex ctx;
          secrets := secrets ctx |})
  | None => ([], ctx)
  end.

(** [accounts[i]] *)
Definition at_index (l : list Account) (i : Z) : slot :=
  if i <? 0 then undefined
  else match nth_error l (Z.to_nat i) with
       | Some a => object a
       | None => undefined
       end.

Record NextAccount := { account : slot; index : Z }.

(** JavaScript's [%] truncates towards zero: [Z.rem]. *)
Definition getNextAccount (ctx : Context) : NextAccount * Context :=
  let '(accounts, ctx') := getAccounts ctx in
  if Nat.eqb (length accounts) 0 then ({| account := null; index := -1 |}, ctx')
  else
    let currentIndex := getCurrentAccountIndex ctx' in
    let nextIndex := Z.rem (currentIndex + 1) (Z.of_nat (length accounts)) in
    ({| account := at_index accounts nextIndex; index := nextIndex |}, ctx').

(** *** Adding, updating, removing, importing and exporting

    Besides the extension context, [addAccount] and [updateAccount] use
    the random source of [uuidv4] and read the clock: [Env] holds the
    three, the clock as the texts [new Date().toISOString()] returns,
    in the order it is read.  The secret storage and [globalState]
    themselves are taken to work (they hold what was last stored). *)
Record Env := {
  extension : Context;
  machine : World;
  clock : nat -> string;
  ticks : nat
}.

Definition set_extension (ctx : Context) (e : Env) : Env :=
  {| extension := ctx; machine := machine e; clock := clock e; ticks := ticks e |}.

Definition set_machine (w : World) (e : Env) : Env :=
  {| extension := extension e; machine := w; clock := clock e; ticks := ticks e |}.

Definition Mgr (A : Type) : Type := Env -> outcome A * Env.

Definition pure {A} (a : A) : Mgr A := fun e => (Return a, e).

Definition raise {A} (err : JsError) : Mgr A := fun e => (Throw err, e).

Definition and_then {A B} (m : Mgr A) (k : A -> Mgr B) : Mgr B :=
  fun e =>
    match m e with
    | (Return a, e') => k a e'
    | (Throw err, e') => (Throw err, e')
    end.

(** A computation of the host, run on the machine of the environment. *)
Definition on_machine {A} (m : M A) : Mgr A :=
  fun e => let '(r, w') := m (machine e) in (r, set_machine w' e).

(** A method that only uses the extension context. *)
Definition on_extension {A} (f : Context -> A * Context) : Mgr A :=
  fun e => let '(a, ctx') := f (extension e) in (Return a, set_extension ctx' e).

(** [new Date().toISOString()] *)
Definition toISOString : Mgr string :=
  fun e =>
    (Return (clock e (ticks e)),
     {| extension := extension e; machine := machine e; clock := clock e;
        ticks := S (ticks e) |}).

(** [if (s)] on a string. *)
Definition filled (s : string) : bool := negb (String.eqb s EmptyString).

(** [globalState.get(ACCOUNTS_KEY, [])] *)
Definition stored_accounts (ctx : Context) : list Account :=
  match accounts ctx with
  | Some stored => stored
  | None => []
  end.

(** [globalState.update(ACCOUNTS_KEY, updated)] *)
Definition update_accounts (updated : list Account) (ctx : Context) : Context :=
  {| accounts := Some updated; currentAccountIndex := currentAccountIndex ctx;
     secrets := secrets ctx |}.

(** [secrets.store(key, value)] and [secrets.delete(key)] *)
Definition secrets_store (key value : string) (ctx : Context) : Context :=
  {| accounts := accounts ctx; currentAccountIndex := currentAccountIndex ctx;
     secrets := <[key := value]> (secrets ctx) |}.

Definition secrets_delete (key : string) (ctx : Context) : Context :=
  {| accounts := accounts ctx; currentAccountIndex := currentAccountIndex ctx;
     secrets := delete key (secrets ctx) |}.

Definition refreshToken_key (ident : string) : string :=
  SECRETS_PREFIX +:+ ident +:+ ".refreshToken".

Definition apiKey_key (ident : string) : string :=
  SECRETS_PREFIX +:+ ident +:+ ".apiKey".

(** [if (value) await secrets.store(key, value)] *)
Definition store_filled (key value : string) (ctx : Context) : Context :=
  if filled value then secrets_store key value ctx else ctx.

(** The copy of an account that goes into the list: both credentials
    set to the empty string. *)
Definition blank (a : Account) : Account :=
  {| id := id a; email := email a; name := name a;
     apiKey := EmptyString; apiServerUrl := apiServerUrl a;
     refreshToken := EmptyString; planName := planName a;
     createdAt := createdAt a; updatedAt := updatedAt a |}.

(** [accounts.find(acc => acc.id === id)] on the accounts [getAccounts]
    returns. *)
Definition getAccount (ident : string) (ctx : Context) : option Account * Context :=
  let '(accounts, ctx') := getAccounts ctx in
  (snd <$> list_find (fun acc => id acc = ident) accounts, ctx').

(** [Omit<Account, 'id' | 'createdAt' | 'updatedAt'>] *)
Record AccountData := {
  data_email : string;
  data_name : string;
  data_apiKey : string;
  data_apiServerUrl : string;
  data_refreshToken : string;
  data_planName : string
}.

Definition addAccount (accountData : AccountData) : Mgr Account :=
  and_then toISOString (fun now =>
  and_then (on_machine uuidv4) (fun uuid =>
  let account :=
    {| id := uuid; email := data_email accountData; name := data_name accountData;
       apiKey := data_apiKey accountData;
       apiServerUrl := data_apiServerUrl accountData;
       refreshToken := data_refreshToken accountData;
       planName := data_planName accountData;
       createdAt := now; updatedAt := now |} in
  and_then
    (on_extension (fun ctx =>
       let ctx1 := store_filled (refreshToken_key (id account)) (refreshToken account) ctx in
       let ctx2 := store_filled (apiKey_key (id account)) (apiKey account) ctx1 in
       let accounts := stored_accounts ctx2 in
       let accountToStore := blank account in
       (tt, update_accounts (accounts ++ [accountToStore]) ctx2)))
    (fun _ => pure account))).

(** [Partial<Account>]: the properties an update carries. *)
Record AccountUpdates := {
  new_id : option string;
  new_email : option string;
  new_name : option string;
  new_apiKey : option string;
  new_apiServerUrl : option string;
  new_refreshToken : option string;
  new_planName : option string;
  new_createdAt : option string;
  new_updatedAt : option string
}.

Definition carried (old : string) (new : option string) : string :=
  match new with
  | Some v => v
  | None => old
  end.

(** [{ ...account, ...updates, updatedAt: now }] *)
Definition spread (a : Account) (updates : AccountUpdates) (now : string) : Account :=
  {| id := carried (id a) (new_id updates);
     email := carried (email a) (new_email updates);
     name := carried (name a) (new_name updates);
     apiKey := carried (apiKey a) (new_apiKey updates);
     apiServerUrl := carried (apiServerUrl a) (new_apiServerUrl updates);
     refreshToken := carried (refreshToken a) (new_refreshToken updates);
     planName := carried (planName a) (new_planName updates);
     createdAt := carried (createdAt a) (new_createdAt updates);
     updatedAt := now |}.

(** [if (updates.field) await secrets.store(key, updates.field)] *)
Definition store_update (key : string) (new : option string) (ctx : Context) : Context :=
  match new with
  | Some v => store_filled key v ctx
  | None => ctx
  end.

Definition updateAccount (ident : string) (updates : AccountUpdates) : Mgr (option Account) :=
  fun e =>
    let accounts := stored_accounts (extension e) in
    match list_find (fun acc => id acc = ident) accounts with
    | None => (Return None, e)
    | Some (index, found) =>
        and_then
          (on_extension (fun ctx =>
             let ctx1 := store_update (refreshToken_key ident) (new_refreshToken updates) ctx in
             (tt, store_update (apiKey_key ident) (new_apiKey updates) ctx1)))
          (fun _ =>
        and_then toISOString (fun now =>
        let updatedAccount := blank (spread found updates now) in
        and_then
          (on_extension (fun ctx =>
             (tt, update_accounts (<[index := updatedAccount]> accounts) ctx)))
          (fun _ => on_extension (getAccount ident)))) e
    end.

Definition removeAccount (ident : string) (ctx : Context) : bool * Context :=
  let accounts := stored_accounts ctx in
  match list_find (fun acc => id acc = ident) accounts with
  | None => (false, ctx)
  | Some (index, _) =>
      let ctx1 := secrets_delete (refreshToken_key ident) ctx in
      let ctx2 := secrets_delete (apiKey_key ident) ctx1 in
      (true, update_accounts (delete index accounts) ctx2)
  end.

(** **** Import

    The entries of an import are whatever [JSON.parse] returned. *)

(** [acc.prop] on a value that is not [null]: only an object parsed from
    JSON has one of the properties read here. *)
Definition member (prop : string) (acc : json) : option json :=
  match acc with
  | JObj props => obj_get prop props
  | _ => None
  end.

(** The digits of a number literal in front of its exponent. *)
Fixpoint mantissa (s : chars) : chars :=
  match s with
  | [] => []
  | c :: r => if Ascii.eqb c "e" || Ascii.eqb c "E" then [] else c :: mantissa r
  end.

(** A literal of zero: no digit of its mantissa is other than [0]. *)
Definition zero_literal (literal : string) : bool :=
  forallb (fun c => negb (is_digit c) || Ascii.eqb c "0") (mantissa (str literal)).

(** [if (v)] on a value or [undefined].  A [JReal] is taken for zero when
    its literal is one; a literal so small that its double is zero is not
    told apart here, and [read_entry] stops at a [JReal] before asking. *)
Definition is_truthy (v : option json) : bool :=
  match v with
  | None => false
  | Some JNull => false
  | Some (JBool b) => b
  | Some (JNum z) => negb (z =? 0)
  | Some (JReal literal) => negb (zero_literal literal)
  | Some (JStr s) => filled s
  | Some (JArr _) => true
  | Some (JObj _) => true
  end.

(** [v || fallback] where an [Account] holds a string: [None] when the
    value kept is not one. *)
Definition or_text (v : option json) (fallback : string) : option string :=
  if is_truthy v then
    match v with
    | Some (JStr s) => Some s
    | _ => None
    end
  else Some fallback.

(** [s.split('@')[0]] *)
Fixpoint before_at (s : chars) : chars :=
  match s with
  | [] => []
  | c :: rest => if Ascii.eqb c "@" then [] else c :: before_at rest
  end.

Definition DEFAULT_API_SERVER : string := "https://server.self-serve.windsurf.com".

(** The properties of an entry that the loop reads. *)
Definition consulted : list string :=
  ["email"; "apiKey"; "refreshToken"; "name"; "apiServerUrl"; "planName"]%string.

Definition is_real (v : option json) : bool :=
  match v with
  | Some (JReal _) => true
  | _ => false
  end.

(** What the body of the loop makes of one entry: it skips it, adds an
    account, throws a [TypeError] ([null] has no properties; only a
    string has [split]), or would hand [addAccount] a value that is not a
    string where [Account] declares one ([Untyped]: the embedding stops
    there, as it does at an entry with a [JReal] among the properties
    read). *)
Inductive entry : Type :=
| Skip
| Add (data : AccountData)
| Fails (err : JsError)
| Untyped.

Definition read_entry (acc : json) : entry :=
  match acc with
  | JNull => Fails (Error "Cannot read properties of null (reading 'email')")
  | _ =>
      if existsb (fun prop => is_real (member prop acc)) consulted then Untyped
      else
      if is_truthy (member "email" acc) &&
         (is_truthy (member "apiKey" acc) || is_truthy (member "refreshToken" acc))
      then
        match member "email" acc with
        | Some (JStr email) =>
            match or_text (member "name" acc) (text (before_at (str email))),
                  or_text (member "apiKey" acc) EmptyString,
                  or_text (member "apiServerUrl" acc) DEFAULT_API_SERVER,
                  or_text (member "refreshToken" acc) EmptyString,
                  or_text (member "planName" acc) "Pro" with
            | Some name, Some apiKey, Some apiServerUrl, Some refreshToken, Some planName =>
                Add {| data_email := email; data_name := name; data_apiKey := apiKey;
                       data_apiServerUrl := apiServerUrl;
                       data_refreshToken := refreshToken; data_planName := planName |}
            | _, _, _, _, _ => Untyped
            end
        | _ =>
            if is_truthy (member "name" acc) then Untyped
            else Fails (Error "acc.email.split is not a function")
        end
      else Skip
  end.

(** What [importAccounts] returns: the count; [Stopped] is the embedding
    giving up at an entry that is [Untyped]. *)
Inductive imported : Type :=
| Count (count : Z)
| Stopped.

(** The [for] loop over the entries. *)
Fixpoint import_entries (entries : list json) (count : Z) : Mgr imported :=
  match entries with
  | [] => pure (Count count)
  | acc :: rest =>
      match read_entry acc with
      | Skip => import_entries rest count
      | Add data => and_then (addAccount data) (fun _ => import_entries rest (count + 1))
      | Fails err => raise err
      | Untyped => pure Stopped
      end
  end.

Definition importAccounts (jsonData : string) : Mgr imported :=
  match JSON.parse jsonData with
  | None => raise (Error "无效的 JSON 格式")
  | Some (JArr importedAccounts) => import_entries importedAccounts 0
  | Some importedAccounts => import_entries [importedAccounts] 0
  end.

(** **** Export

    An account as [JSON.stringify] sees it: the properties in the order
    [addAccount] creates them ([...accountData], then [id], [createdAt],
    [updatedAt]), which updates and reloads keep. *)
Definition account_json (a : Account) : json :=
  JObj [("email"%string, JStr (email a));
        ("name"%string, JStr (name a));
        ("apiKey"%string, JStr (apiKey a));
        ("apiServerUrl"%string, JStr (apiServerUrl a));
        ("refreshToken"%string, JStr (refreshToken a));
        ("planName"%string, JStr (planName a));
        ("id"%string, JStr (id a));
        ("createdAt"%string, JStr (createdAt a));
        ("updatedAt"%string, JStr (updatedAt a))].

Definition exportAccounts (ctx : Context) : string * Context :=
  let '(accounts, ctx') := getAccounts ctx in
  (Pretty.stringify_indent 2 (JArr (map account_json accounts)), ctx').


End AccountManager.

(** ** [accountSwitcher.ts] *)

Module AccountSwitcher.

Import AccountManager.

Record SwitchOutcome := {
  success : bool;
  error : option string;
  needsRestart : option bool
}.

Definition log (message : string) : M unit :=
  modify (fun w => set_output (output w ++ [message]) w) ;;
  console_log message.

(** [vscode.commands.executeCommand] *)
Definition executeCommand (cmd : string) (arg : option json) : M unit :=
  effect (ExecuteCommand cmd arg) ;;
  fault <- gets (fun w => command_fault w cmd) ;;
  match fault with
  | Some why => throw (Error why)
  | None => ret tt
  end.

Definition checkAndApplyPatch : M WindsurfPatchService.PatchResult :=
  fun w =>
    match patch w with
    | inr r => (Return r, w)
    | inl e => (Throw e, w)
    end.

(** [if (s)] on an optional string: absent and empty are falsy. *)
Definition truthy (s : option string) : option string :=
  match s with
  | Some e => if String.eqb e EmptyString then None else Some e
  | None => None
  end.

(** [a || b] on strings: the empty string is falsy. *)
Definition or_default (a b : string) : string :=
  if String.eqb a EmptyString then b else a.

Definition DEFAULT_SERVER : string := "https://server.self-serve.windsurf.com".
Definition INJECT : string := "windsurf.provideAuthTokenToAuthProviderWithShit".
Definition RELOAD : string := "workbench.action.reloadWindow".

Definition authStatus (account : Account) (teamId : string) : json :=
  JObj [("name"%string, JStr (name account));
        ("apiKey"%string, JStr (apiKey account));
        ("email"%string, JStr (email account));
        ("teamId"%string, JStr teamId);
        ("planName"%string, JStr (or_default (planName account) "Pro"))].

Definition codeiumConfig (account : Account) (installationId : string) : json :=
  JObj [("codeium.installationId"%string, JStr installationId);
        ("codeium.apiKey"%string, JStr (apiKey account));
        ("apiServerUrl"%string, JStr (or_default (apiServerUrl account) DEFAULT_SERVER));
        ("codeium.hasOneTimeUpdatedUnspecifiedMode"%string, JBool true)].

Definition writeAuthData (account : Account) : M unit :=
  teamId <- uuidv4 ;;
  DatabaseHelper.writeToDB "windsurfAuthStatus"
    (DatabaseHelper.JsData (authStatus account teamId)) ;;
  log "已写入 windsurfAuthStatus" ;;
  installationId <- uuidv4 ;;
  DatabaseHelper.writeToDB "codeium.windsurf"
    (DatabaseHelper.JsData (codeiumConfig account installationId)) ;;
  log "已写入 codeium.windsurf" ;;
  DatabaseHelper.writeToDB "codeium.windsurf-windsurf_auth"
    (DatabaseHelper.JsData (JStr (name account))) ;;
  log "已写入用户名".

Definition injectArgs (account : Account) : json :=
  JObj [("apiKey"%string, JStr (apiKey account));
        ("name"%string, JStr (email account));
        ("apiServerUrl"%string, JStr (or_default (apiServerUrl account) DEFAULT_SERVER))].

(** Step 2: log out, best effort. *)
Definition logoutStep : M unit :=
  log "步骤 2: 登出现有会话..." ;;
  try_catch
    (executeCommand "windsurf.logout" None ;;
     log "登出成功")
    (fun _ => log "登出命令不可用（用户可能未登录）").

(** Step 3: reset the machine identity, best effort. *)
Definition identityResetStep : M unit :=
  log "步骤 3: 重置机器 ID..." ;;
  try_catch
    (ids <- MachineIdResetter.resetMachineId ;;
     log ("新机器 ID: " +:+ substring0 16 (MachineIdResetter.machineId ids) +:+ "..."))
    (fun _ => log "机器 ID 重置跳过").

(** Step 4, the [try] block: inject the session, then update the
    database as well. *)
Definition injectSession (account : Account) : M SwitchOutcome :=
  executeCommand INJECT (Some (injectArgs account)) ;;
  log "会话注入成功！" ;;
  writeAuthData account ;;
  log "========== 切换完成 ==========" ;;
  log ("账号: " +:+ email account) ;;
  effect (ShowInformationMessage ("账号已切换到: " +:+ email account)) ;;
  ret {| success := true; error := None; needsRestart := None |}.

(** Step 4, the [catch] block: write the database and reload. *)
Definition fallback (account : Account) (error : JsError) : M SwitchOutcome :=
  log ("会话注入失败: " +:+ message error) ;;
  log "尝试备用方案：写入数据库并重载窗口..." ;;
  writeAuthData account ;;
  effect (SetTimeoutCommand RELOAD 1500) ;;
  ret {| success := true; error := None; needsRestart := None |}.

Definition sessionStep (account : Account) : M SwitchOutcome :=
  log "步骤 4: 注入新会话..." ;;
  log ("用户: " +:+ email account) ;;
  log ("API Key: " +:+ substring0 20 (apiKey account) +:+ "...") ;;
  try_catch (injectSession account) (fallback account).

(** Steps 2 to 4, entered once the patch check has passed. *)
Definition switchSteps (account : Account) : M SwitchOutcome :=
  log "补丁检查通过" ;;
  logoutStep ;;
  identityResetStep ;;
  sessionStep account.

(** The outermost [catch]. *)
Definition switchFailed (error : JsError) : M SwitchOutcome :=
  let errorMessage := message error in
  log ("切换失败: " +:+ errorMessage) ;;
  ret {| success := false; error := Some errorMessage; needsRestart := None |}.

Definition switchAccount (account : Account) : M SwitchOutcome :=
  modify (set_output []) ;;
  try_catch
    (log "========== 开始切换账号 ==========" ;;
     log ("目标账号: " +:+ email account) ;;
     log "步骤 1: 检查 Windsurf 补丁..." ;;
     patchResult <- checkAndApplyPatch ;;
     if WindsurfPatchService.needsRestart patchResult then
       log "补丁已应用，需要重启 Windsurf..." ;;
       effect (ShowInformationMessage
                 "补丁已应用，Windsurf 正在重启。重启后请再次切换账号。") ;;
       effect (SetTimeoutCommand RELOAD 1500) ;;
       ret {| success := false; error := Some "补丁已应用，正在重启";
              needsRestart := Some true |}
     else
       match truthy (WindsurfPatchService.error patchResult) with
       | Some e =>
           log ("补丁检查失败: " +:+ e) ;;
           ret {| success := false; error := Some e; needsRestart := None |}
       | None => switchSteps account
       end)
    switchFailed.

(** [getCurrentAccount]: the auth status on record, [null] if reading
    it throws. *)
Definition getCurrentAccount : M DatabaseHelper.jsvalue :=
  try_catch (DatabaseHelper.readFromDB "windsurfAuthStatus")
            (fun _ => ret DatabaseHelper.js_null).

End AccountSwitcher.

(** ** [extension.ts] *)

Module Extension.

Import AccountManager AccountSwitcher.

(** What the command did: it ran a switch, or it showed the warning that
    there is no account to switch to. *)
Inductive SwitchNext : Type :=
| Switched (result : SwitchOutcome)
| Warned (warning : string).

(** The command [windsurf-wugan-huanhao.switchNext]. *)
Definition switchNext : Mgr SwitchNext :=
  and_then (on_extension getNextAccount) (fun next =>
  match account next with
  | object a =>
      and_then (on_extension (fun ctx => (tt, setCurrentAccountIndex (index next) ctx)))
        (fun _ =>
      and_then (on_machine (switchAccount a)) (fun result =>
      pure (Switched result)))
  | _ => pure (Warned "没有可切换的账号，请先添加账号")
  end).

End Extension.

(** ** Sample inputs *)

Module Sample.

Definition patched : WindsurfPatchService.PatchResult :=
  {| WindsurfPatchService.needsRestart := false; WindsurfPatchService.error := None |}.

(** A machine with an empty table, no [storage.json], a random source
    that counts up, and a host where every command succeeds. *)
Definition world : World :=
  {| platform := "linux";
     db := File (Stored ∅) [];
     storage := File (Unreadable "ENOENT: no such file or directory") [];
     entropy := fun i => default Byte.x00 (Byte.of_nat (i mod 256));
     drawn := 0;
     patch := inr patched;
     command_fault := fun _ => None;
     effects := [];
     output := [];
     console := [] |}.

Definition with_db (f : file table) (w : World) : World := set_db f w.

Definition with_storage (f : file string) (w : World) : World := set_storage f w.

Definition with_entropy (e : nat -> Byte.byte) (w : World) : World :=
  {| platform := platform w; db := db w; storage := storage w;
     entropy := e; drawn := drawn w; patch := patch w;
     command_fault := command_fault w; effects := effects w;
     output := output w; console := console w |}.

Definition with_patch (p : JsError + WindsurfPatchService.PatchResult) (w : World) : World :=
  {| platform := platform w; db := db w; storage := storage w;
     entropy := entropy w; drawn := drawn w; patch := p;
     command_fault := command_fault w; effects := effects w;
     output := output w; console := console w |}.

Definition with_fault (cmd why : string) (w : World) : World :=
  {| platform := platform w; db := db w; storage := storage w;
     entropy := entropy w; drawn := drawn w; patch := patch w;
     command_fault := fun c => if String.eqb c cmd then Some why else command_fault w c;
     effects := effects w; output := output w; console := console w |}.

Definition alice : AccountManager.Account :=
  {| AccountManager.id := "a1";
     AccountManager.email := "alice@example.com";
     AccountManager.name := "Alice";
     AccountManager.apiKey := "sk-alice-0123456789abcdef";
     AccountManager.apiServerUrl := EmptyString;
     AccountManager.refreshToken := "rt-alice";
     AccountManager.planName := EmptyString;
     AccountManager.createdAt := "2025-01-01T00:00:00.000Z";
     AccountManager.updatedAt := "2025-01-01T00:00:00.000Z" |}.

Definition bob : AccountManager.Account :=
  {| AccountManager.id := "b2";
     AccountManager.email := "bob@example.com";
     AccountManager.name := "Bob";
     AccountManager.apiKey := EmptyString;
     AccountManager.apiServerUrl := "https://example.org";
     AccountManager.refreshToken := EmptyString;
     AccountManager.planName := "Free";
     AccountManager.createdAt := "2025-02-02T00:00:00.000Z";
     AccountManager.updatedAt := "2025-02-02T00:00:00.000Z" |}.

(** Three rows: [foo.a], [foo.b], [bar.c]. *)
Definition three_rows : table :=
  <["foo.a"%string := SqlText "1"]>
    (<["foo.b"%string := SqlText "2"]>
       (<["bar.c"%string := SqlText "keep"]> ∅)).

(** An extension context with the two accounts on the list, the
    credentials of the first one in the secret storage, and the second
    account current. *)
Definition two_accounts : AccountManager.Context :=
  {| AccountManager.accounts := Some [AccountManager.blank alice; AccountManager.blank bob];
     AccountManager.currentAccountIndex := Some 1;
     AccountManager.secrets :=
       <[AccountManager.apiKey_key "a1" := "sk-alice-0123456789abcdef"%string]>
         (<[AccountManager.refreshToken_key "a1" := "rt-alice"%string]> ∅) |}.

(** A fresh installation: nothing stored yet. *)
Definition no_accounts : AccountManager.Context :=
  {| AccountManager.accounts := None;
     AccountManager.currentAccountIndex := None;
     AccountManager.secrets := ∅ |}.

(** An environment around a context: the sample machine and a clock
    that moves on by a second at every reading. *)
Definition env (ctx : AccountManager.Context) : AccountManager.Env :=
  {| AccountManager.extension := ctx;
     AccountManager.machine := world;
     AccountManager.clock :=
       fun i => "2025-03-03T00:00:" +:+ text (print_Z (10 + Z.of_nat i)) +:+ ".000Z";
     AccountManager.ticks := 0 |}.

(** What [addAccount] is given for a new account. *)
Definition carol : AccountManager.AccountData :=
  {| AccountManager.data_email := "carol@example.com";
     AccountManager.data_name := "Carol";
     AccountManager.data_apiKey := "sk-carol";
     AccountManager.data_apiServerUrl := "https://server.self-serve.windsurf.com";
     AccountManager.data_refreshToken := EmptyString;
     AccountManager.data_planName := "Pro" |}.

End Sample.

(** ** Vocabulary of the properties *)

(** Why loading the database image fails, if it does. *)
Definition load_error (w : World) : option string :=
  match on_disk (db w) with
  | Unreadable why => Some why
  | Stored _ => None
  end.

(** Why the [n]-th coming write of a file fails, if it does. *)
Definition fault_at {A} (n : nat) (f : file A) : option string :=
  match nth_error (write_faults f) n with
  | Some (Some why) => Some why
  | _ => None
  end.

Definition write_error (w : World) : option string := fault_at 0 (db w).

(** The table on disk; an unreadable file has no rows. *)
Definition rows (w : World) : table :=
  match on_disk (db w) with
  | Stored t => t
  | Unreadable _ => ∅
  end.

(** The values a caller hands [writeToDB] that are followed here to the
    letter: data that is exact, and, when the value is a text, one
    without the character NUL (where the driver stops reading a cell)
    that, if it is itself JSON, spells exact data. *)
Definition exact_value (v : DatabaseHelper.jsvalue) : bool :=
  match v with
  | DatabaseHelper.JsData (JStr s) =>
      utf8 (str s) && forallb (fun c => negb (code c =? 0)%N) (str s) &&
      match JSON.parse s with
      | Some j => exact j
      | None => true
      end
  | DatabaseHelper.JsData j => exact j
  | _ => true
  end.

(** What a value reads back as once written: bytes come back as their
    tagged listing, a text that is itself JSON as the value it spells,
    anything else as it was. *)
Definition read_back (v : DatabaseHelper.jsvalue) : DatabaseHelper.jsvalue :=
  match v with
  | DatabaseHelper.JsBuffer bytes | DatabaseHelper.JsUint8Array bytes =>
      DatabaseHelper.JsData (DatabaseHelper.buffer_json bytes)
  | DatabaseHelper.JsData (JStr s) =>
      match JSON.parse s with
      | Some j => DatabaseHelper.JsData j
      | None => v
      end
  | _ => v
  end.

(** What the steps before the session injection leave alone: the
    database file, the patch service and the host commands. *)
Definition host (w : World) :
  file table * (JsError + WindsurfPatchService.PatchResult) * (string -> option string) :=
  (db w, patch w, command_fault w).

(** The first error among loading the image and the three writes of the
    durable fallback, if any. *)
Definition fallback_fault (f : file table) : option string :=
  match on_disk f with
  | Unreadable why => Some why
  | Stored _ =>
      match fault_at 0 f, fault_at 1 f, fault_at 2 f with
      | Some why, _, _ => Some why
      | None, Some why, _ => Some why
      | None, None, Some why => Some why
      | None, None, None => None
      end
  end.

(** A computation that leaves the host alone, and one that never throws. *)
Definition keeps {A} (m : M A) : Prop := forall w, host (snd (m w)) = host w.

Definition safe {A} (m : M A) : Prop := forall w, exists a, fst (m w) = Return a.

(** The line [log] adds to both channels. *)
Definition logged (line : string) (w : World) : World :=
  add_console line (set_output (output w ++ [line]) w).

(** The identifier [uuidv4] draws in a world. *)
Definition uuid_at (w : World) : string :=
  text (uuid_format (uuid_bytes (map SHA2.byte_Z (map (entropy w) (seq (drawn w) 16))))).

(** The outcome of one [writeToDB] of a value that is not null, and the
    database file after it. *)
Definition write_outcome (w : World) : outcome bool :=
  match load_error w, write_error w with
  | Some why, _ => Throw (Error why)
  | None, Some why => Throw (Error why)
  | None, None => Return true
  end.

Definition db_after (key : string) (value : DatabaseHelper.jsvalue) (w : World) : file table :=
  match on_disk (db w) with
  | Stored t =>
      snd (write_attempt (db w) (<[key := SqlText (DatabaseHelper.finalValue value)]> t))
  | Unreadable _ => db w
  end.

(** *** Identity reset *)

(** The identifiers [generateMachineIds] makes of the random bytes from
    position [d] on. *)
Definition ids_from (e : nat -> Byte.byte) (d : nat) : MachineIdResetter.MachineIds :=
  let uuid (at_ : nat) :=
    text (uuid_format (uuid_bytes (map SHA2.byte_Z (map e (seq at_ 16))))) in
  {| MachineIdResetter.machineId := SHA2.hex (SHA2.sha256 (map e (seq d 32)));
     MachineIdResetter.macMachineId := SHA2.hex (SHA2.sha512 (map e (seq (d + 32) 64)));
     MachineIdResetter.sqmId := "{" +:+ toUpperCase (uuid (d + 32 + 64)%nat) +:+ "}";
     MachineIdResetter.devDeviceId := uuid (d + 32 + 64 + 16)%nat;
     MachineIdResetter.serviceMachineId := uuid (d + 32 + 64 + 16 + 16)%nat |}.

Definition ids_at (w : World) : MachineIdResetter.MachineIds :=
  ids_from (entropy w) (drawn w).

(** The document [resetMachineId] starts from: what [storage.json]
    holds, or the empty object when the file is absent or is not JSON. *)
Definition document (w : World) : json :=
  match on_disk (storage w) with
  | Stored content =>
      match JSON.parse content with
      | Some data => data
      | None => JObj []
      end
  | Unreadable _ => JObj []
  end.

(** The properties of the document once the identifiers are set. *)
Definition identity_props (platform : string) (ids : MachineIdResetter.MachineIds)
    (props : list (string * json)) : list (string * json) :=
  let p1 := obj_set "telemetry.machineId" (JStr (MachineIdResetter.machineId ids)) props in
  let p2 := obj_set "telemetry.sqmId" (JStr (MachineIdResetter.sqmId ids)) p1 in
  let p3 := obj_set "telemetry.devDeviceId" (JStr (MachineIdResetter.devDeviceId ids)) p2 in
  if String.eqb platform "darwin"
  then obj_set "telemetry.macMachineId" (JStr (MachineIdResetter.macMachineId ids)) p3
  else p3.

(** The error that uses up the three write attempts, if all three fail,
    and what the attempts do meanwhile. *)
Definition retry_error (f : file string) : option string :=
  match fault_at 0 f, fault_at 1 f, fault_at 2 f with
  | Some _, Some _, Some e3 => Some e3
  | _, _, _ => None
  end.

Definition retry_trace (f : file string) : list Effect :=
  match fault_at 0 f, fault_at 1 f, fault_at 2 f with
  | None, _, _ => [WriteStorage true]
  | Some _, None, _ => [WriteStorage false; Sleep (500 * 2); WriteStorage true]
  | Some _, Some _, None =>
      [WriteStorage false; Sleep (500 * 2); WriteStorage false; Sleep (500 * 3);
       WriteStorage true]
  | Some _, Some _, Some _ =>
      [WriteStorage false; Sleep (500 * 2); WriteStorage false; Sleep (500 * 3);
       WriteStorage false]
  end.

(** What a computation returned, if it did. *)
Definition returned {A} (r : outcome A * World) : option A :=
  match fst r with
  | Return a => Some a
  | Throw _ => None
  end.

(** How [resetMachineId] comes by the properties it starts from. *)
Inductive starts_from (w : World) : list (string * json) -> Prop :=
| from_absent why :
    on_disk (storage w) = Unreadable why -> starts_from w []
| from_unparsable content :
    on_disk (storage w) = Stored content -> JSON.parse content = None ->
    starts_from w []
| from_object content props :
    on_disk (storage w) = Stored content -> JSON.parse content = Some (JObj props) ->
    starts_from w props.

(** *** Shapes of the identifiers *)


Definition is_HEX (c : ascii) : bool :=
  is_digit c || ((65 <=? code c) && (code c <=? 70))%N.


(** Groups of digits of the given sizes with a dash between them. *)
Fixpoint groups (digit : ascii -> bool) (sizes : list nat) (cs : chars) : bool :=
  match sizes with
  | [] => match cs with [] => true | _ :: _ => false end
  | [n] => Nat.eqb (length cs) n && forallb digit cs
  | n :: rest =>
      Nat.eqb (length (firstn n cs)) n && forallb digit (firstn n cs) &&
      match skipn n cs with
      | c :: cs' => Ascii.eqb c c_minus && groups digit rest cs'
      | [] => false
      end
  end.

Definition uuid_groups : list nat := [8; 4; 4; 4; 12]%nat.

Definition is_UUID (s : string) : bool := groups is_HEX uuid_groups (str s).





(** *** Switch outcomes *)

(** The three records of [writeAuthData] for an account, as rows of the
    table. *)
Definition on_record (account : AccountManager.Account) (teamId installationId : string)
    (t : table) : Prop :=
  t !! "windsurfAuthStatus"%string =
    Some (SqlText (stringify (AccountSwitcher.authStatus account teamId))) /\
  t !! "codeium.windsurf"%string =
    Some (SqlText (stringify (AccountSwitcher.codeiumConfig account installationId))) /\
  t !! "codeium.windsurf-windsurf_auth"%string =
    Some (SqlText (AccountManager.name account)).
(** A value that is neither an object nor an array. *)
Definition primitive (j : json) : bool :=
  match j with
  | JArr _ | JObj _ => false
  | _ => true
  end.

(** The names of the properties of an object, in order. *)
Definition keys (props : list (string * json)) : list string := map fst props.
(** *** The account list *)

(** The account [addAccount] makes of the data in an environment: its
    identifier is the next UUID, its two dates the next reading of the
    clock. *)
Definition added (data : AccountManager.AccountData) (e : AccountManager.Env)
    : AccountManager.Account :=
  {| AccountManager.id := uuid_at (AccountManager.machine e);
     AccountManager.email := AccountManager.data_email data;
     AccountManager.name := AccountManager.data_name data;
     AccountManager.apiKey := AccountManager.data_apiKey data;
     AccountManager.apiServerUrl := AccountManager.data_apiServerUrl data;
     AccountManager.refreshToken := AccountManager.data_refreshToken data;
     AccountManager.planName := AccountManager.data_planName data;
     AccountManager.createdAt := AccountManager.clock e (AccountManager.ticks e);
     AccountManager.updatedAt := AccountManager.clock e (AccountManager.ticks e) |}.

(** The identifiers on the list. *)
Definition listed_ids (ctx : AccountManager.Context) : list string :=
  map AccountManager.id (AccountManager.stored_accounts ctx).

(** An identifier neither on the list nor in the secret storage. *)
Definition unused_id (ident : string) (ctx : AccountManager.Context) : Prop :=
  (ident ∉ listed_ids ctx) /\
  AccountManager.secrets ctx !! AccountManager.refreshToken_key ident = None /\
  AccountManager.secrets ctx !! AccountManager.apiKey_key ident = None.

(** The credential an account has after an update: the one the update
    carries if that is not empty, else the one in the secret storage. *)
Definition credential (ctx : AccountManager.Context) (key : string) (new : option string)
    : string :=
  let kept := match AccountManager.secret ctx key with
              | Some v => v
              | None => EmptyString
              end in
  match new with
  | Some v => if AccountManager.filled v then v else kept
  | None => kept
  end.

(** [s || fallback] on strings. *)
Definition or_else (s fallback : string) : string :=
  if AccountManager.filled s then s else fallback.

(** An exported account that an import takes up, and the data it is
    added with. *)
Definition importable (a : AccountManager.Account) : bool :=
  AccountManager.filled (AccountManager.email a) &&
  (AccountManager.filled (AccountManager.apiKey a) ||
   AccountManager.filled (AccountManager.refreshToken a)).

Definition reimported (a : AccountManager.Account) : AccountManager.AccountData :=
  {| AccountManager.data_email := AccountManager.email a;
     AccountManager.data_name :=
       or_else (AccountManager.name a)
               (text (AccountManager.before_at (str (AccountManager.email a))));
     AccountManager.data_apiKey := or_else (AccountManager.apiKey a) EmptyString;
     AccountManager.data_apiServerUrl :=
       or_else (AccountManager.apiServerUrl a) AccountManager.DEFAULT_API_SERVER;
     AccountManager.data_refreshToken := or_else (AccountManager.refreshToken a) EmptyString;
     AccountManager.data_planName := or_else (AccountManager.planName a) "Pro" |}.

(** The entries of an import that the loop passes without throwing, and
    the accounts it adds for them. *)
Definition passes (acc : json) : bool :=
  match AccountManager.read_entry acc with
  | AccountManager.Skip | AccountManager.Add _ => true
  | _ => false
  end.

Definition additions (entries : list json) : list AccountManager.AccountData :=
  omap (fun acc => match AccountManager.read_entry acc with
                   | AccountManager.Add data => Some data
                   | _ => None
                   end) entries.

(** One [addAccount] after the other. *)
Definition add_all (datas : list AccountManager.AccountData) (e : AccountManager.Env)
    : AccountManager.Env :=
  fold_left (fun e data => snd (AccountManager.addAccount data e)) datas e.

(** The command [switchNext], run [k] times. *)
Definition switchNext_times (k : nat) (e : AccountManager.Env) : AccountManager.Env :=
  Nat.iter k (fun e => snd (Extension.switchNext e)) e.

(** *** Host commands *)

(** An effect that is not a host command run on the spot. *)
Definition quiet (e : Effect) : Prop :=
  match e with
  | ExecuteCommand _ _ => False
  | _ => True
  end.

(** A computation that runs no host command: it only adds quiet effects. *)
Definition runs_no_command {A} (m : M A) : Prop :=
  forall w, exists more,
    effects (snd (m w)) = effects w ++ more /\ Forall quiet more.

(* ===================================================================== *)
(** * Part II: properties                                                 *)
(* ===================================================================== *)

(** ** JSON: reading back what was written *)

Section JsonRoundTrip.

Ltac bits c := destruct c as [[|] [|] [|] [|] [|] [|] [|] [|]].

Lemma str_text cs : str (text cs) = cs.
Proof. apply list_ascii_of_string_of_list_ascii. Qed.

Lemma text_str s : text (str s) = s.
Proof. apply string_of_list_ascii_of_string. Qed.

Lemma str_append a b : str (a +:+ b) = str a ++ str b.
Proof.
  unfold str. induction a as [|c a IH]; [reflexivity|].
  change (c :: list_ascii_of_string (a +:+ b) =
          c :: (list_ascii_of_string a ++ list_ascii_of_string b)).
  now rewrite IH.
Qed.

Lemma digit_class c :
  is_digit c = true ->
  is_ws c = false /\ Ascii.eqb c c_quote = false /\
  Ascii.eqb c c_lbracket = false /\ Ascii.eqb c c_lbrace = false /\
  Ascii.eqb c c_rbracket = false /\ Ascii.eqb c c_rbrace = false.
Proof. bits c; vm_compute; intros; repeat split; congruence. Qed.

Lemma take_digits_uint_chars d rest :
  match rest with [] => True | c :: _ => is_digit c = false end ->
  take_digits (uint_chars d ++ rest) = (d, rest).
Proof.
  intros Hrest. induction d; cbn [uint_chars app take_digits];
    try (change (is_digit _) with true; cbv iota; rewrite IHd; reflexivity).
  destruct rest as [|c r]; [reflexivity|]. cbn. now rewrite Hrest.
Qed.

Lemma to_uint_literal n : int_literal (N.to_uint n) = true.
Proof.
  pose proof (Unsigned.to_of (N.to_uint n)) as H.
  rewrite Unsigned.of_to in H. revert H.
  generalize (N.to_uint n) as d. intros d H.
  unfold unorm in H.
  destruct (nzhead d) eqn:E; subst d; try reflexivity.
  exfalso. eapply nzhead_nonzero. exact E.
Qed.

Lemma num_follow_no_digit rest :
  num_follow rest = true ->
  match rest with [] => True | c :: _ => is_digit c = false end.
Proof.
  destruct rest as [|c r]; [trivial|]. cbn.
  destruct (is_digit c); [discriminate | reflexivity].
Qed.

Lemma uint_chars_no_minus d rest :
  int_literal d = true ->
  exists c tl, uint_chars d ++ rest = c :: tl /\ is_digit c = true.
Proof.
  destruct d; cbn; try discriminate; intros _; eexists _, _; split; reflexivity.
Qed.

Lemma take_fraction_follow rest :
  num_follow rest = true -> take_fraction rest = Some ([], rest).
Proof.
  destruct rest as [|c r]; [reflexivity|]. cbn [num_follow take_fraction].
  intros H. apply negb_true_iff in H.
  destruct (Ascii.eqb c c_dot); [|reflexivity].
  now rewrite !orb_true_r in H.
Qed.

Lemma take_exponent_follow rest :
  num_follow rest = true -> take_exponent rest = Some ([], rest).
Proof.
  destruct rest as [|c r]; [reflexivity|]. cbn [num_follow take_exponent].
  intros H. apply negb_true_iff in H.
  destruct (Ascii.eqb c "e"), (Ascii.eqb c "E"); cbn [orb]; try reflexivity;
    now rewrite ?orb_true_r in H.
Qed.

Lemma unsigned_number_whole neg d rest :
  int_literal d = true -> num_follow rest = true ->
  safe_integer (Z.of_N (N.of_uint d)) = true ->
  unsigned_number neg (uint_chars d ++ rest) =
    Some (JNum (if neg then - Z.of_N (N.of_uint d) else Z.of_N (N.of_uint d)), rest).
Proof.
  intros Hd Hf Hs. unfold unsigned_number.
  rewrite take_digits_uint_chars by now apply num_follow_no_digit.
  rewrite Hd, take_fraction_follow, take_exponent_follow by exact Hf.
  now rewrite Hs.
Qed.

Lemma parse_number_print z rest :
  num_follow rest = true -> safe_integer z = true ->
  parse_number (print_Z z ++ rest) = Some (JNum z, rest).
Proof.
  intros Hf Hz. unfold safe_integer in Hz. apply Z.leb_le in Hz.
  unfold print_Z, parse_number. destruct (Z.ltb_spec z 0) as [Hneg|Hpos].
  - cbn [app]. change (Ascii.eqb c_minus c_minus) with true. cbv iota.
    rewrite unsigned_number_whole; rewrite ?Unsigned.of_to; try assumption.
    + do 3 f_equal. lia.
    + apply to_uint_literal.
    + apply Z.leb_le. rewrite N2Z.inj_abs_N. lia.
  - destruct (uint_chars_no_minus (N.to_uint (Z.to_N z)) rest (to_uint_literal _))
      as (c & tl & E & Hc).
    assert (Hm : Ascii.eqb c c_minus = false).
    { clear -Hc. bits c; vm_compute in *; congruence. }
    rewrite E, Hm, <- E.
    rewrite unsigned_number_whole; rewrite ?Unsigned.of_to; try assumption.
    + do 3 f_equal. lia.
    + apply to_uint_literal.
    + apply Z.leb_le. rewrite Z2N.id by lia. lia.
Qed.

Lemma push_digit_chars c d :
  is_digit c = true -> uint_chars (push_digit c d) = c :: uint_chars d.
Proof. bits c; vm_compute; intros H; first [discriminate H | reflexivity]. Qed.

Lemma take_digits_chars s : forall d r,
  take_digits s = (d, r) -> s = uint_chars d ++ r.
Proof.
  induction s as [|c s IH]; intros d r; cbn [take_digits].
  - intros [= <- <-]. reflexivity.
  - destruct (is_digit c) eqn:Hc.
    + destruct (take_digits s) as [d' r'] eqn:E. intros [= <- <-].
      rewrite (push_digit_chars _ _ Hc). cbn [app]. f_equal. now apply IH.
    + intros [= <- <-]. reflexivity.
Qed.

Lemma int_literal_head d :
  int_literal d = true -> exists c tl, uint_chars d = c :: tl /\ is_digit c = true.
Proof.
  destruct d; cbn; try discriminate; intros _; eexists _, _; split; reflexivity.
Qed.

(** What [canonical] says of a literal: a sign, a whole part, a dot and
    a fraction. *)
Lemma canonical_parts literal :
  canonical literal = true ->
  exists sign w f,
    str literal = sign ++ uint_chars w ++ c_dot :: uint_chars f /\
    (sign = [] \/ sign = [c_minus]) /\ int_literal w = true /\ f <> Nil.
Proof.
  unfold canonical.
  set (s1 := match str literal with
             | c :: r => if Ascii.eqb c c_minus then r else str literal
             | [] => str literal
             end).
  assert (Hs : exists sign, str literal = sign ++ s1 /\ (sign = [] \/ sign = [c_minus])).
  { subst s1. destruct (str literal) as [|c r]; [exists []; auto|].
    destruct (Ascii.eqb_spec c c_minus) as [->|_]; [exists [c_minus] | exists []]; auto. }
  destruct Hs as (sign & Hs & Hsign).
  destruct (take_digits s1) as [w r] eqn:Ew. apply take_digits_chars in Ew.
  destruct r as [|c r1]; [discriminate|].
  destruct (take_digits r1) as [f r2] eqn:Ef. apply take_digits_chars in Ef.
  intros H. repeat (apply andb_true_iff in H as [H ?]).
  destruct r2; [|discriminate].
  destruct (Ascii.eqb_spec c c_dot) as [->|]; [|discriminate].
  exists sign, w, f. rewrite Hs, Ew, Ef, app_nil_r.
  repeat split; try assumption.
  intros ->. discriminate.
Qed.

Lemma canonical_head literal rest :
  canonical literal = true ->
  exists c tl, str literal ++ rest = c :: tl /\ (c = c_minus \/ is_digit c = true).
Proof.
  intros (sign & w & f & -> & [->| ->] & Hw & _)%canonical_parts.
  - destruct (int_literal_head w Hw) as (c & tl & -> & Hc).
    eexists _, _. split; [reflexivity | now right].
  - eexists _, _. split; [reflexivity | now left].
Qed.

Lemma unsigned_number_decimal neg w f rest :
  int_literal w = true -> f <> Nil -> num_follow rest = true ->
  unsigned_number neg (uint_chars w ++ c_dot :: uint_chars f ++ rest) =
    Some (JReal (text ((if neg then [c_minus] else []) ++ uint_chars w ++
                       c_dot :: uint_chars f)), rest).
Proof.
  intros Hw Hnil Hf. unfold unsigned_number.
  rewrite take_digits_uint_chars by reflexivity. rewrite Hw.
  cbn [take_fraction]. change (Ascii.eqb c_dot c_dot) with true. cbv iota.
  rewrite take_digits_uint_chars by now apply num_follow_no_digit.
  destruct f; try congruence; rewrite take_exponent_follow by exact Hf;
    now rewrite app_nil_r.
Qed.

Lemma parse_number_unsigned d tail :
  int_literal d = true ->
  parse_number (uint_chars d ++ tail) = unsigned_number false (uint_chars d ++ tail).
Proof.
  intros Hd. destruct (int_literal_head d Hd) as (c & tl & Ec & Hdig).
  assert (Hm : Ascii.eqb c c_minus = false).
  { clear -Hdig. bits c; vm_compute in *; congruence. }
  rewrite Ec. cbn [app]. unfold parse_number. now rewrite Hm.
Qed.

Lemma parse_number_canonical literal rest :
  canonical literal = true -> num_follow rest = true ->
  parse_number (str literal ++ rest) = Some (JReal literal, rest).
Proof.
  intros Hc Hf.
  destruct (canonical_parts _ Hc) as (sign & w & f & E & Hsign & Hw & Hnil).
  rewrite <- (text_str literal) at 2. rewrite E.
  destruct Hsign as [-> | ->]; cbn [app]; rewrite <- app_assoc; cbn [app].
  - rewrite parse_number_unsigned by exact Hw.
    now apply (unsigned_number_decimal false).
  - unfold parse_number. change (Ascii.eqb c_minus c_minus) with true. cbv iota.
    now apply (unsigned_number_decimal true).
Qed.

Lemma parse_escape_char c tail :
  parse_string_body (escape_char c ++ tail) =
  match parse_string_body tail with
  | Some (cs, r) => Some (c :: cs, r)
  | None => None
  end.
Proof.
  bits c; cbn -[parse_string_body]; cbn; reflexivity.
Qed.

Lemma parse_string_body_print s rest :
  parse_string_body (flat_map escape_char s ++ c_quote :: rest) = Some (s, rest).
Proof.
  induction s as [|c s IH]; [reflexivity|].
  cbn [flat_map]. rewrite <- app_assoc, parse_escape_char, IH. reflexivity.
Qed.

Lemma json_induction (P : json -> Prop) :
  P JNull -> (forall b, P (JBool b)) -> (forall z, P (JNum z)) ->
  (forall literal, P (JReal literal)) -> (forall s, P (JStr s)) ->
  (forall l, Forall P l -> P (JArr l)) ->
  (forall l, Forall (fun kv => P (snd kv)) l -> P (JObj l)) ->
  forall j, P j.
Proof.
  intros Hn Hb Hz Hr Hs Ha Ho.
  fix IH 1. intros [ | b | z | literal | s | l | l ].
  - exact Hn.
  - apply Hb.
  - apply Hz.
  - apply Hr.
  - apply Hs.
  - apply Ha. induction l as [|x l IHl]; constructor; [apply IH | exact IHl].
  - apply Ho. induction l as [|[k v] l IHl]; constructor; [apply IH | exact IHl].
Qed.

Lemma print_Z_head z rest :
  exists c tl, print_Z z ++ rest = c :: tl /\ (c = c_minus \/ is_digit c = true).
Proof.
  unfold print_Z. destruct (z <? 0).
  - eexists _, _. split; [reflexivity | now left].
  - destruct (uint_chars_no_minus (N.to_uint (Z.to_N z)) rest (to_uint_literal _))
      as (c & tl & E & Hc). eexists _, _. split; [exact E | now right].
Qed.

Lemma print_opens j rest : plain j = true -> opens (print j ++ rest).
Proof.
  destruct j as [ | [|] | z | literal | s | l | l ]; intros Hp;
    try (eexists _, _; split; [reflexivity | repeat split; reflexivity]).
  2:{ destruct (canonical_head literal rest Hp) as (c & tl & E & [->|Hc]).
      - eexists _, _. split; [exact E | repeat split; reflexivity].
      - destruct (digit_class c Hc) as (? & ? & ? & ? & ? & ?).
        eexists _, _. split; [exact E | repeat split; assumption]. }
  destruct (print_Z_head z rest) as (c & tl & E & [->|Hc]).
  - eexists _, _. split; [exact E | repeat split; reflexivity].
  - destruct (digit_class c Hc) as (? & ? & ? & ? & ? & ?).
    eexists _, _. split; [exact E | repeat split; assumption].
Qed.

Lemma parse_value_number f c tl :
  c = c_minus \/ is_digit c = true ->
  parse_value (S f) (c :: tl) = parse_number (c :: tl).
Proof.
  intros [-> | Hc]; [reflexivity|].
  destruct (digit_class c Hc) as (Hws & Hq & Hlb & Hlc & _).
  cbn [parse_value skip_ws]. rewrite Hws, Hq, Hlb, Hlc, Hc, orb_true_r.
  reflexivity.
Qed.

Lemma parse_value_string f r :
  parse_value (S f) (c_quote :: r) =
  match parse_string_body r with
  | Some (cs, r') => Some (JStr (text cs), r')
  | None => None
  end.
Proof. reflexivity. Qed.

Lemma parse_value_array f r c tl :
  r = c :: tl -> is_ws c = false -> Ascii.eqb c c_rbracket = false ->
  parse_value (S f) (c_lbracket :: r) =
  match parse_items f r with
  | Some (l, r'') => Some (JArr l, r'')
  | None => None
  end.
Proof.
  intros -> Hws Hc. cbn [parse_value skip_ws].
  change (is_ws c_lbracket) with false. cbv iota.
  change (Ascii.eqb c_lbracket c_quote) with false.
  change (Ascii.eqb c_lbracket c_lbracket) with true. cbv iota.
  cbn [skip_ws]. rewrite Hws, Hc. reflexivity.
Qed.

Lemma parse_value_object f r c tl :
  r = c :: tl -> is_ws c = false -> Ascii.eqb c c_rbrace = false ->
  parse_value (S f) (c_lbrace :: r) =
  match parse_props f r with
  | Some (l, r'') => Some (JObj (obj_of_pairs l), r'')
  | None => None
  end.
Proof.
  intros -> Hws Hc. cbn [parse_value skip_ws].
  change (is_ws c_lbrace) with false. cbv iota.
  change (Ascii.eqb c_lbrace c_quote) with false.
  change (Ascii.eqb c_lbrace c_lbracket) with false.
  change (Ascii.eqb c_lbrace c_lbrace) with true. cbv iota.
  cbn [skip_ws]. rewrite Hws, Hc. reflexivity.
Qed.

Lemma parse_items_S f s :
  parse_items (S f) s =
  match parse_value f s with
  | Some (v, r) =>
      match skip_ws r with
      | c :: r' =>
          if Ascii.eqb c c_comma then
            match parse_items f r' with
            | Some (l, r'') => Some (v :: l, r'')
            | None => None
            end
          else if Ascii.eqb c c_rbracket then Some ([v], r')
          else None
      | [] => None
      end
  | None => None
  end.
Proof. reflexivity. Qed.

Lemma parse_props_key f k tail :
  parse_props (S f) (print_string k ++ c_colon :: tail) =
  match parse_value f tail with
  | Some (v, r3) =>
      match skip_ws r3 with
      | c :: r' =>
          if Ascii.eqb c c_comma then
            match parse_props f r' with
            | Some (l, r'') => Some ((text k, v) :: l, r'')
            | None => None
            end
          else if Ascii.eqb c c_rbrace then Some ([(text k, v)], r')
          else None
      | [] => None
      end
  | None => None
  end.
Proof.
  unfold print_string. cbn [app parse_props skip_ws].
  change (is_ws c_quote) with false. cbv iota.
  change (Ascii.eqb c_quote c_quote) with true. cbv iota.
  rewrite <- app_assoc. cbn [app]. rewrite parse_string_body_print.
  cbn [skip_ws]. change (is_ws c_colon) with false. cbv iota.
  change (Ascii.eqb c_colon c_colon) with true. cbv iota.
  reflexivity.
Qed.

Lemma parse_items_print l :
  Forall reads_back l -> forallb plain l = true -> l <> [] ->
  forall fuel rest,
    (list_sum (map (fun x => S (json_fuel x)) l) <= fuel)%nat ->
    parse_items fuel (print_items print l ++ c_rbracket :: rest) = Some (l, rest).
Proof.
  induction l as [|x l IH]; [congruence|]. intros HF Hp _ fuel rest Hfuel.
  inversion HF as [|? ? Hx HF']; subst.
  cbn [forallb] in Hp. apply andb_true_iff in Hp as [Hpx Hpl].
  cbn [map list_sum fold_right] in Hfuel.
  destruct fuel as [|fuel]; [lia|]. rewrite parse_items_S.
  destruct l as [|y l'].
  - cbn [print_items]. rewrite (Hx Hpx) by (reflexivity || (cbn in Hfuel; lia)).
    reflexivity.
  - change (print_items print (x :: y :: l'))
      with (print x ++ c_comma :: print_items print (y :: l')).
    rewrite <- app_assoc. cbn [app].
    rewrite (Hx Hpx) by (reflexivity || (cbn [map list_sum fold_right snd] in *; lia)).
    cbn [skip_ws]. change (is_ws c_comma) with false. cbv iota.
    change (Ascii.eqb c_comma c_comma) with true. cbv iota.
    rewrite (IH HF' Hpl) by (congruence || (cbn [map list_sum fold_right snd] in *; lia)). reflexivity.
Qed.

Lemma parse_props_print l :
  Forall (fun kv => reads_back (snd kv)) l ->
  forallb (fun kv => plain (snd kv)) l = true -> l <> [] ->
  forall fuel rest,
    (list_sum (map (fun kv => S (json_fuel (snd kv))) l) <= fuel)%nat ->
    parse_props fuel (print_props print l ++ c_rbrace :: rest) = Some (l, rest).
Proof.
  induction l as [|[k v] l IH]; [congruence|]. intros HF Hp _ fuel rest Hfuel.
  inversion HF as [|? ? Hx HF']; subst. cbn [snd] in Hx.
  cbn [forallb snd] in Hp. apply andb_true_iff in Hp as [Hpx Hpl].
  cbn [map list_sum fold_right snd] in Hfuel.
  destruct fuel as [|fuel]; [lia|].
  destruct l as [|[k' v'] l'].
  - cbn [print_props]. rewrite <- app_assoc. cbn [app].
    rewrite parse_props_key.
    rewrite (Hx Hpx) by (reflexivity || (cbn in Hfuel; lia)).
    rewrite text_str. reflexivity.
  - change (print_props print ((k, v) :: (k', v') :: l'))
      with (print_string (str k) ++ c_colon :: print v ++
            c_comma :: print_props print ((k', v') :: l')).
    rewrite <- app_assoc. cbn [app]. rewrite <- app_assoc. cbn [app].
    rewrite parse_props_key.
    rewrite (Hx Hpx) by (reflexivity || (cbn [map list_sum fold_right snd] in *; lia)).
    cbn [skip_ws]. change (is_ws c_comma) with false. cbv iota.
    change (Ascii.eqb c_comma c_comma) with true. cbv iota.
    rewrite (IH HF' Hpl) by (congruence || (cbn [map list_sum fold_right snd] in *; lia)).
    rewrite text_str. reflexivity.
Qed.

Lemma distinct_fresh k a b :
  distinct (a ++ k :: b) = true -> existsb (String.eqb k) a = false.
Proof.
  induction a as [|k' a IH]; [reflexivity|]. cbn [app distinct existsb].
  intros H. apply andb_true_iff in H as [H1 H2].
  rewrite (IH H2), orb_false_r.
  apply negb_true_iff in H1. rewrite existsb_app in H1.
  apply orb_false_iff in H1 as [_ H1]. cbn [existsb] in H1.
  apply orb_false_iff in H1 as [H1 _]. now rewrite String.eqb_sym.
Qed.

Lemma obj_set_fresh k v o :
  existsb (String.eqb k) (map fst o) = false -> obj_set k v o = o ++ [(k, v)].
Proof.
  induction o as [|[k' v'] o IH]; [reflexivity|]. cbn [map fst existsb obj_set app].
  intros H. apply orb_false_iff in H as [H1 H2]. rewrite H1, (IH H2). reflexivity.
Qed.

Lemma fold_obj_set l : forall acc,
  distinct (map fst (acc ++ l)) = true ->
  fold_left (fun o kv => obj_set (fst kv) (snd kv) o) l acc = acc ++ l.
Proof.
  induction l as [|[k v] l IH]; intros acc H; cbn [fold_left fst snd].
  - now rewrite app_nil_r.
  - rewrite obj_set_fresh.
    + rewrite IH; rewrite <- app_assoc; [reflexivity | exact H].
    + rewrite map_app in H. cbn [map fst] in H. eapply distinct_fresh, H.
Qed.

Lemma obj_of_pairs_distinct l :
  distinct (map fst l) = true -> obj_of_pairs l = l.
Proof. intros H. unfold obj_of_pairs. now rewrite fold_obj_set. Qed.

Lemma parse_value_print j : reads_back j.
Proof.
  induction j as [ | b | z | literal | s | l IH | l IH ] using json_induction;
    intros Hp fuel rest Hfuel Hrest;
    (destruct fuel as [|fuel]; [cbn in Hfuel; lia|]).
  - reflexivity.
  - destruct b; reflexivity.
  - cbn [print].
    destruct (print_Z_head z rest) as (c & tl & E & Hc).
    rewrite E, (parse_value_number _ _ _ Hc), <- E.
    apply parse_number_print; assumption.
  - cbn [print].
    destruct (canonical_head literal rest Hp) as (c & tl & E & Hc).
    rewrite E, (parse_value_number _ _ _ Hc), <- E.
    apply parse_number_canonical; assumption.
  - cbn [print]. unfold print_string. cbn [app]. rewrite <- app_assoc. cbn [app].
    rewrite parse_value_string, parse_string_body_print, text_str. reflexivity.
  - cbn [print app]. rewrite <- app_assoc. cbn [app].
    cbn [plain] in Hp. cbn [json_fuel] in Hfuel.
    destruct l as [|x l]; [reflexivity|].
    assert (Ho : opens (print_items print (x :: l) ++ c_rbracket :: rest)).
    { cbn [forallb] in Hp. apply andb_true_iff in Hp as [Hx _].
      destruct l; cbn [print_items]; [|rewrite <- app_assoc]; now apply print_opens. }
    destruct Ho as (c & tl & E & Hws & Hc & _).
    rewrite (parse_value_array _ _ _ _ E Hws Hc).
    rewrite (parse_items_print _ IH Hp) by (congruence || (cbn [map list_sum fold_right snd] in *; lia)). reflexivity.
  - cbn [print app]. rewrite <- app_assoc. cbn [app].
    cbn [plain] in Hp. apply andb_true_iff in Hp as [Hd Hp].
    cbn [json_fuel] in Hfuel.
    destruct l as [|[k v] l]; [reflexivity|].
    assert (Ho : opens (print_props print ((k, v) :: l) ++ c_rbrace :: rest)).
    { destruct l as [|[? ?] ?]; cbn [print_props]; unfold print_string; cbn [app];
        (eexists _, _; split; [reflexivity | repeat split; reflexivity]). }
    destruct Ho as (c & tl & E & Hws & _ & Hc).
    rewrite (parse_value_object _ _ _ _ E Hws Hc).
    rewrite (parse_props_print _ IH Hp) by (congruence || (cbn [map list_sum fold_right snd] in *; lia)).
    rewrite (obj_of_pairs_distinct _ Hd). reflexivity.
Qed.

Lemma print_nonempty j : plain j = true -> (1 <= length (print j))%nat.
Proof.
  intros Hp. destruct (print_opens j [] Hp) as (c & tl & E & _).
  rewrite app_nil_r in E. rewrite E. cbn. lia.
Qed.

Lemma json_fuel_length j : plain j = true -> (json_fuel j <= length (print j))%nat.
Proof.
  induction j as [ | b | z | literal | s | l IH | l IH ] using json_induction;
    intros Hp; try (now apply print_nonempty).
  - cbn [plain] in Hp. cbn [json_fuel print length]. rewrite length_app. cbn [length].
    enough (list_sum (map (fun x => S (json_fuel x)) l)
            <= S (length (print_items print l)))%nat by lia.
    induction IH as [|x l Hx HF IHl]; [cbn; lia|].
    cbn [forallb] in Hp. apply andb_true_iff in Hp as [Hpx Hpl].
    specialize (Hx Hpx). specialize (IHl Hpl).
    destruct l as [|y l'].
    + cbn [map list_sum fold_right print_items]. lia.
    + change (print_items print (x :: y :: l'))
        with (print x ++ c_comma :: print_items print (y :: l')).
      rewrite length_app. cbn [length map list_sum fold_right] in *. lia.
  - cbn [plain] in Hp. apply andb_true_iff in Hp as [_ Hp].
    cbn [json_fuel print length]. rewrite length_app. cbn [length].
    enough (list_sum (map (fun kv => S (json_fuel (snd kv))) l)
            <= S (length (print_props print l)))%nat by lia.
    induction IH as [|[k v] l Hx HF IHl]; [cbn; lia|]. cbn [snd] in Hx.
    cbn [forallb snd] in Hp. apply andb_true_iff in Hp as [Hpx Hpl].
    specialize (Hx Hpx). specialize (IHl Hpl).
    destruct l as [|[k' v'] l'].
    + cbn [map list_sum fold_right print_props snd]. rewrite length_app. cbn [length]. lia.
    + change (print_props print ((k, v) :: (k', v') :: l'))
        with (print_string (str k) ++ c_colon :: print v ++
              c_comma :: print_props print ((k', v') :: l')).
      rewrite length_app. cbn [length]. rewrite length_app.
      cbn [length map list_sum fold_right snd] in *. lia.
Qed.

(** [JSON.parse(JSON.stringify(v))] is [v]. *)
Lemma parse_stringify j : plain j = true -> parse (stringify j) = Some j.
Proof.
  intros Hp. unfold parse, stringify. rewrite str_text.
  pose proof (parse_value_print j Hp (S (length (print j))) []) as H.
  rewrite app_nil_r in H. rewrite H; [reflexivity | | reflexivity].
  pose proof (json_fuel_length j Hp). lia.
Qed.

Lemma parse_stringify_witness :
  let j := JObj [("name"%string, JStr "Alice");
                 ("tags"%string, JArr [JNum 1; JNum (-20); JBool true; JNull]);
                 ("nested"%string, JObj [("k"%string, JArr [])])] in
  plain j = true /\ parse (stringify j) = Some j.
Proof.
  cbv zeta. split; [reflexivity|].
  apply (parse_stringify
           (JObj [("name"%string, JStr "Alice");
                  ("tags"%string, JArr [JNum 1; JNum (-20); JBool true; JNull]);
                  ("nested"%string, JObj [("k"%string, JArr [])])])).
  reflexivity.
Defined.

(** *** The indented form reads back too *)

Lemma skip_ws_blank W s : forallb is_ws W = true -> skip_ws (W ++ s) = skip_ws s.
Proof.
  induction W as [|c W IH]; [reflexivity|]. cbn [forallb app skip_ws].
  intros [Hc HW]%andb_true_iff. rewrite Hc. now apply IH.
Qed.

Lemma newline_blank n : forallb is_ws (Pretty.newline n) = true.
Proof.
  unfold Pretty.newline. cbn [forallb]. change (is_ws c_lf) with true. cbn [andb].
  induction n as [|n IH]; [reflexivity | exact IH].
Qed.

Lemma parse_value_skip f W s :
  forallb is_ws W = true -> parse_value f (W ++ s) = parse_value f s.
Proof.
  intros HW. destruct f as [|f]; [reflexivity|].
  cbn [parse_value]. now rewrite skip_ws_blank.
Qed.

Lemma parse_value_skip1 f c s :
  is_ws c = true -> parse_value f (c :: s) = parse_value f s.
Proof. intros Hc. apply (parse_value_skip f [c]). cbn. now rewrite Hc. Qed.

Lemma parse_items_skip f W s :
  forallb is_ws W = true -> parse_items f (W ++ s) = parse_items f s.
Proof.
  intros HW. destruct f as [|f]; [reflexivity|].
  rewrite !parse_items_S. now rewrite parse_value_skip.
Qed.

Lemma parse_props_skip f W s :
  forallb is_ws W = true -> parse_props f (W ++ s) = parse_props f s.
Proof.
  intros HW. destruct f as [|f]; [reflexivity|].
  cbn [parse_props]. now rewrite skip_ws_blank.
Qed.

Lemma ws_follow c tl : is_ws c = true -> num_follow (c :: tl) = true.
Proof. bits c; vm_compute; congruence. Qed.

Lemma blank_follow W c rest :
  forallb is_ws W = true -> num_follow (c :: rest) = true ->
  num_follow (W ++ c :: rest) = true.
Proof.
  destruct W as [|d W]; [trivial|]. cbn [forallb app].
  intros [Hd _]%andb_true_iff _. now apply ws_follow.
Qed.

Lemma parse_value_array_blank f r c tl :
  skip_ws r = c :: tl -> Ascii.eqb c c_rbracket = false ->
  parse_value (S f) (c_lbracket :: r) =
  match parse_items f r with
  | Some (l, r'') => Some (JArr l, r'')
  | None => None
  end.
Proof.
  intros Hr Hc. cbn [parse_value skip_ws].
  change (is_ws c_lbracket) with false. cbv iota.
  change (Ascii.eqb c_lbracket c_quote) with false.
  change (Ascii.eqb c_lbracket c_lbracket) with true. cbv iota.
  rewrite Hr, Hc. reflexivity.
Qed.

Lemma parse_value_object_blank f r c tl :
  skip_ws r = c :: tl -> Ascii.eqb c c_rbrace = false ->
  parse_value (S f) (c_lbrace :: r) =
  match parse_props f r with
  | Some (l, r'') => Some (JObj (obj_of_pairs l), r'')
  | None => None
  end.
Proof.
  intros Hr Hc. cbn [parse_value skip_ws].
  change (is_ws c_lbrace) with false. cbv iota.
  change (Ascii.eqb c_lbrace c_quote) with false.
  change (Ascii.eqb c_lbrace c_lbracket) with false.
  change (Ascii.eqb c_lbrace c_lbrace) with true. cbv iota.
  rewrite Hr, Hc. reflexivity.
Qed.

Lemma opens_skip_ws cs :
  opens cs -> exists c tl, skip_ws cs = c :: tl /\
    Ascii.eqb c c_rbracket = false /\ Ascii.eqb c c_rbrace = false.
Proof.
  intros (c & tl & -> & Hws & H1 & H2). exists c, tl. cbn [skip_ws]. rewrite Hws. auto.
Qed.

Lemma pretty_opens gap indent j rest :
  plain j = true -> opens (Pretty.pretty gap indent j ++ rest).
Proof.
  destruct j as [ | b | z | literal | s | [|x l] | [|[k v] l] ]; intros Hp;
    try apply (print_opens _ rest Hp);
    (eexists _, _; split; [reflexivity | repeat split; reflexivity]).
Qed.

Lemma parse_items_pretty pr W W' l :
  forallb is_ws W = true -> forallb is_ws W' = true ->
  Forall (reads_back_as pr) l -> forallb plain l = true -> l <> [] ->
  forall fuel rest,
    (list_sum (map (fun x => S (json_fuel x)) l) <= fuel)%nat ->
    parse_items fuel
      (W ++ Pretty.join_items (c_comma :: W) pr l ++ W' ++ c_rbracket :: rest)
    = Some (l, rest).
Proof.
  intros HW HW'. induction l as [|x l IH]; [congruence|].
  intros HF Hp _ fuel rest Hfuel.
  inversion HF as [|? ? Hx HF']; subst.
  cbn [forallb] in Hp. apply andb_true_iff in Hp as [Hpx Hpl].
  cbn [map list_sum fold_right] in Hfuel.
  destruct fuel as [|fuel]; [lia|].
  rewrite parse_items_skip by exact HW. rewrite parse_items_S.
  destruct l as [|y l'].
  - cbn [Pretty.join_items].
    rewrite (Hx Hpx) by
      (first [ apply blank_follow; [exact HW' | reflexivity]
             | cbn [map list_sum fold_right] in *; lia ]).
    rewrite skip_ws_blank by exact HW'. reflexivity.
  - change (Pretty.join_items (c_comma :: W) pr (x :: y :: l'))
      with (pr x ++ (c_comma :: W) ++ Pretty.join_items (c_comma :: W) pr (y :: l')).
    rewrite <- !app_assoc. cbn [app].
    rewrite (Hx Hpx) by (reflexivity || (cbn [map list_sum fold_right] in *; lia)).
    cbn [skip_ws]. change (is_ws c_comma) with false. cbv iota.
    change (Ascii.eqb c_comma c_comma) with true. cbv iota.
    rewrite (IH HF' Hpl) by (congruence || (cbn [map list_sum fold_right] in *; lia)).
    reflexivity.
Qed.

Lemma parse_props_key_blank f W k tail :
  forallb is_ws W = true ->
  parse_props (S f) (W ++ print_string k ++ c_colon :: tail) =
  match parse_value f tail with
  | Some (v, r3) =>
      match skip_ws r3 with
      | c :: r' =>
          if Ascii.eqb c c_comma then
            match parse_props f r' with
            | Some (l, r'') => Some ((text k, v) :: l, r'')
            | None => None
            end
          else if Ascii.eqb c c_rbrace then Some ([(text k, v)], r')
          else None
      | [] => None
      end
  | None => None
  end.
Proof.
  intros HW. rewrite parse_props_skip by exact HW. apply parse_props_key.
Qed.

Lemma parse_props_pretty pr W W' l :
  forallb is_ws W = true -> forallb is_ws W' = true ->
  Forall (fun kv => reads_back_as pr (snd kv)) l ->
  forallb (fun kv => plain (snd kv)) l = true -> l <> [] ->
  forall fuel rest,
    (list_sum (map (fun kv => S (json_fuel (snd kv))) l) <= fuel)%nat ->
    parse_props fuel
      (W ++ Pretty.join_props (c_comma :: W) pr l ++ W' ++ c_rbrace :: rest)
    = Some (l, rest).
Proof.
  intros HW HW'. induction l as [|[k v] l IH]; [congruence|].
  intros HF Hp _ fuel rest Hfuel.
  inversion HF as [|? ? Hx HF']; subst. cbn [snd] in Hx.
  cbn [forallb snd] in Hp. apply andb_true_iff in Hp as [Hpx Hpl].
  cbn [map list_sum fold_right snd] in Hfuel.
  destruct fuel as [|fuel]; [lia|].
  destruct l as [|[k' v'] l'].
  - cbn [Pretty.join_props]. rewrite <- !app_assoc. cbn [app].
    rewrite parse_props_key_blank by exact HW.
    rewrite (parse_value_skip1 _ c_space) by reflexivity.
    rewrite (Hx Hpx) by
      (first [ apply blank_follow; [exact HW' | reflexivity]
             | cbn [map list_sum fold_right snd] in *; lia ]).
    rewrite skip_ws_blank by exact HW'. rewrite text_str. reflexivity.
  - change (Pretty.join_props (c_comma :: W) pr ((k, v) :: (k', v') :: l'))
      with (print_string (str k) ++ c_colon :: c_space :: pr v ++
            (c_comma :: W) ++ Pretty.join_props (c_comma :: W) pr ((k', v') :: l')).
    rewrite <- !app_assoc. cbn [app]. rewrite <- !app_assoc. cbn [app].
    rewrite parse_props_key_blank by exact HW.
    rewrite (parse_value_skip1 _ c_space) by reflexivity.
    rewrite (Hx Hpx) by (reflexivity || (cbn [map list_sum fold_right snd] in *; lia)).
    cbn [skip_ws]. change (is_ws c_comma) with false. cbv iota.
    change (Ascii.eqb c_comma c_comma) with true. cbv iota.
    rewrite <- ?app_assoc.
    rewrite (IH HF' Hpl) by (congruence || (cbn [map list_sum fold_right snd] in *; lia)).
    rewrite text_str. reflexivity.
Qed.

Lemma parse_value_pretty gap j : forall indent, reads_back_as (Pretty.pretty gap indent) j.
Proof.
  induction j as [ | b | z | literal | s | l IH | l IH ] using json_induction;
    intros indent; try exact (parse_value_print _).
  - intros Hp fuel rest Hfuel Hrest. destruct fuel as [|fuel]; [cbn in Hfuel; lia|].
    cbn [plain] in Hp. cbn [json_fuel] in Hfuel.
    destruct l as [|x l]; [reflexivity|].
    change (Pretty.pretty gap indent (JArr (x :: l)))
      with (c_lbracket :: Pretty.newline (indent + gap) ++
            Pretty.join_items (c_comma :: Pretty.newline (indent + gap))
              (Pretty.pretty gap (indent + gap)) (x :: l) ++
            Pretty.newline indent ++ [c_rbracket]).
    cbn [app]. rewrite <- !app_assoc. cbn [app].
    assert (Hr : exists c tl,
      skip_ws (Pretty.newline (indent + gap) ++
               Pretty.join_items (c_comma :: Pretty.newline (indent + gap))
                 (Pretty.pretty gap (indent + gap)) (x :: l) ++
               Pretty.newline indent ++ c_rbracket :: rest) = c :: tl /\
      Ascii.eqb c c_rbracket = false).
    { rewrite skip_ws_blank by apply newline_blank.
      edestruct opens_skip_ws as (c & tl & E & H1 & _);
        [|exists c, tl; split; [exact E | exact H1]].
      cbn [forallb] in Hp. apply andb_true_iff in Hp as [Hx _].
      destruct l; cbn [Pretty.join_items]; [|rewrite <- app_assoc];
        now apply pretty_opens. }
    destruct Hr as (c & tl & Hr & Hc).
    rewrite (parse_value_array_blank _ _ _ _ Hr Hc).
    rewrite (parse_items_pretty _ _ _ _ (newline_blank _) (newline_blank _))
      by first [ congruence | assumption
               | eapply List.Forall_impl; [|exact IH]; intros ? H; apply H
               | cbn [map list_sum fold_right] in *; lia ].
    reflexivity.
  - intros Hp fuel rest Hfuel Hrest. destruct fuel as [|fuel]; [cbn in Hfuel; lia|].
    cbn [plain] in Hp. apply andb_true_iff in Hp as [Hd Hp].
    cbn [json_fuel] in Hfuel.
    destruct l as [|[k v] l]; [reflexivity|].
    change (Pretty.pretty gap indent (JObj ((k, v) :: l)))
      with (c_lbrace :: Pretty.newline (indent + gap) ++
            Pretty.join_props (c_comma :: Pretty.newline (indent + gap))
              (Pretty.pretty gap (indent + gap)) ((k, v) :: l) ++
            Pretty.newline indent ++ [c_rbrace]).
    cbn [app]. rewrite <- !app_assoc. cbn [app].
    assert (Hr : exists c tl,
      skip_ws (Pretty.newline (indent + gap) ++
               Pretty.join_props (c_comma :: Pretty.newline (indent + gap))
                 (Pretty.pretty gap (indent + gap)) ((k, v) :: l) ++
               Pretty.newline indent ++ c_rbrace :: rest) = c :: tl /\
      Ascii.eqb c c_rbrace = false).
    { rewrite skip_ws_blank by apply newline_blank.
      destruct l as [|[? ?] ?]; cbn [Pretty.join_props]; unfold print_string; cbn [app];
        (eexists _, _; split; [reflexivity | reflexivity]). }
    destruct Hr as (c & tl & Hr & Hc).
    rewrite (parse_value_object_blank _ _ _ _ Hr Hc).
    rewrite (parse_props_pretty _ _ _ _ (newline_blank _) (newline_blank _))
      by first [ congruence | assumption
               | eapply List.Forall_impl; [|exact IH]; intros ? H; apply H
               | cbn [map list_sum fold_right snd] in *; lia ].
    rewrite (obj_of_pairs_distinct _ Hd). reflexivity.
Qed.

Lemma json_fuel_pretty gap j : forall indent,
  plain j = true -> (json_fuel j <= length (Pretty.pretty gap indent j))%nat.
Proof.
  induction j as [ | b | z | literal | s | l IH | l IH ] using json_induction;
    intros indent Hp; try (now apply (json_fuel_length _)).
  - cbn [plain] in Hp. destruct l as [|x0 l0]; [cbn; lia|].
    change (Pretty.pretty gap indent (JArr (x0 :: l0)))
      with (c_lbracket :: Pretty.newline (indent + gap) ++
            Pretty.join_items (c_comma :: Pretty.newline (indent + gap))
              (Pretty.pretty gap (indent + gap)) (x0 :: l0) ++
            Pretty.newline indent ++ [c_rbracket]).
    cbn [json_fuel length]. rewrite !length_app.
    enough (list_sum (map (fun x => S (json_fuel x)) (x0 :: l0))
            <= S (length (Pretty.join_items (c_comma :: Pretty.newline (indent + gap))
                            (Pretty.pretty gap (indent + gap)) (x0 :: l0))))%nat
      by (cbn [length] in *; lia).
    generalize (x0 :: l0) IH Hp. clear. intros l IH Hp.
    induction IH as [|x l Hx HF IHl]; [cbn; lia|].
    cbn [forallb] in Hp. apply andb_true_iff in Hp as [Hpx Hpl].
    specialize (fun i => Hx i Hpx). specialize (IHl Hpl).
    destruct l as [|y l'].
    + cbn [map list_sum fold_right Pretty.join_items]. specialize (Hx (indent + gap)%nat). lia.
    + change (Pretty.join_items (c_comma :: Pretty.newline (indent + gap))
                (Pretty.pretty gap (indent + gap)) (x :: y :: l'))
        with (Pretty.pretty gap (indent + gap) x ++
              (c_comma :: Pretty.newline (indent + gap)) ++
              Pretty.join_items (c_comma :: Pretty.newline (indent + gap))
                (Pretty.pretty gap (indent + gap)) (y :: l')).
      rewrite !length_app. specialize (Hx (indent + gap)%nat).
      cbn [length map list_sum fold_right] in *. lia.
  - cbn [plain] in Hp. apply andb_true_iff in Hp as [_ Hp].
    destruct l as [|kv0 l0]; [cbn; lia|].
    change (Pretty.pretty gap indent (JObj (kv0 :: l0)))
      with (c_lbrace :: Pretty.newline (indent + gap) ++
            Pretty.join_props (c_comma :: Pretty.newline (indent + gap))
              (Pretty.pretty gap (indent + gap)) (kv0 :: l0) ++
            Pretty.newline indent ++ [c_rbrace]).
    cbn [json_fuel length]. rewrite !length_app.
    enough (list_sum (map (fun kv => S (json_fuel (snd kv))) (kv0 :: l0))
            <= S (length (Pretty.join_props (c_comma :: Pretty.newline (indent + gap))
                            (Pretty.pretty gap (indent + gap)) (kv0 :: l0))))%nat
      by (cbn [length] in *; lia).
    generalize (kv0 :: l0) IH Hp. clear. intros l IH Hp.
    induction IH as [|[k v] l Hx HF IHl]; [cbn; lia|]. cbn [snd] in Hx.
    cbn [forallb snd] in Hp. apply andb_true_iff in Hp as [Hpx Hpl].
    specialize (fun i => Hx i Hpx). specialize (IHl Hpl).
    destruct l as [|[k' v'] l'].
    + cbn [map list_sum fold_right Pretty.join_props snd]. rewrite length_app.
      cbn [length]. specialize (Hx (indent + gap)%nat). lia.
    + change (Pretty.join_props (c_comma :: Pretty.newline (indent + gap))
                (Pretty.pretty gap (indent + gap)) ((k, v) :: (k', v') :: l'))
        with (print_string (str k) ++ c_colon :: c_space ::
              Pretty.pretty gap (indent + gap) v ++
              (c_comma :: Pretty.newline (indent + gap)) ++
              Pretty.join_props (c_comma :: Pretty.newline (indent + gap))
                (Pretty.pretty gap (indent + gap)) ((k', v') :: l')).
      rewrite length_app. cbn [length]. rewrite !length_app.
      specialize (Hx (indent + gap)%nat).
      cbn [length map list_sum fold_right snd] in *. lia.
Qed.

(** [JSON.parse(JSON.stringify(v, null, gap))] is [v]. *)
Lemma parse_stringify_indent gap j :
  plain j = true -> parse (Pretty.stringify_indent gap j) = Some j.
Proof.
  intros Hp. unfold parse, Pretty.stringify_indent. rewrite str_text.
  pose proof (parse_value_pretty gap j 0%nat Hp
                (S (length (Pretty.pretty gap 0 j))) []) as H.
  rewrite app_nil_r in H. rewrite H; [reflexivity | | reflexivity].
  pose proof (json_fuel_pretty gap j 0%nat Hp). lia.
Qed.

Lemma parse_stringify_indent_witness :
  let j := JObj [("telemetry.machineId"%string, JStr "abc");
                 ("window"%string, JObj [("size"%string, JArr [JNum 800; JNum 600])])] in
  plain j = true /\ parse (Pretty.stringify_indent 2 j) = Some j.
Proof.
  cbv zeta. split; [reflexivity|].
  apply (parse_stringify_indent 2
           (JObj [("telemetry.machineId"%string, JStr "abc");
                  ("window"%string, JObj [("size"%string, JArr [JNum 800; JNum 600])])])).
  reflexivity.
Defined.

(** *** Setting a property keeps a document plain *)

Lemma existsb_obj_set a k v o :
  existsb (String.eqb a) (map fst (obj_set k v o)) = true ->
  existsb (String.eqb a) (map fst o) = true \/ a = k.
Proof.
  induction o as [|[k' v'] o IH]; cbn [obj_set map fst existsb].
  - rewrite orb_false_r. intros H%String.eqb_eq. now right.
  - destruct (String.eqb k k'); cbn [map fst existsb].
    + intros H. now left.
    + intros [H|H]%orb_true_iff; [left; now rewrite H|].
      destruct (IH H) as [H'|H']; [left; rewrite H'; apply orb_true_r | now right].
Qed.

Lemma obj_set_distinct k v o :
  distinct (map fst o) = true -> distinct (map fst (obj_set k v o)) = true.
Proof.
  induction o as [|[k' v'] o IH]; [reflexivity|]. cbn [obj_set map fst distinct].
  intros [Hk Ho]%andb_true_iff.
  destruct (String.eqb_spec k k') as [->|Hne]; cbn [map fst distinct].
  - now rewrite Hk, Ho.
  - rewrite (IH Ho), andb_true_r. apply negb_true_iff.
    destruct (existsb (String.eqb k') (map fst (obj_set k v o))) eqn:E; [|reflexivity].
    apply existsb_obj_set in E as [E|E]; [|congruence].
    apply negb_true_iff in Hk. congruence.
Qed.

Lemma obj_set_plain k v o :
  plain v = true -> forallb (fun kv => plain (snd kv)) o = true ->
  forallb (fun kv => plain (snd kv)) (obj_set k v o) = true.
Proof.
  intros Hv. induction o as [|[k' v'] o IH]; cbn [obj_set forallb snd].
  - now rewrite Hv.
  - intros [H1 H2]%andb_true_iff. destruct (String.eqb k k'); cbn [forallb snd].
    + now rewrite Hv, H2.
    + now rewrite H1, IH.
Qed.

(** *** Exact values are plain *)

Lemma exact_plain j : exact j = true -> plain j = true.
Proof.
  induction j as [ | b | z | literal | s | l IH | l IH ] using json_induction;
    cbn [exact plain]; intros H; try reflexivity; try exact H.
  - induction IH as [|x l Hx _ IHl]; [reflexivity|].
    cbn [forallb] in *. apply andb_true_iff in H as [H1 H2].
    now rewrite Hx, IHl.
  - apply andb_true_iff in H as [Hd H]. rewrite Hd. cbn [andb].
    induction IH as [|[k v] l Hx _ IHl]; [reflexivity|].
    cbn [forallb fst snd] in *. apply andb_true_iff in H as [H1 H2].
    apply andb_true_iff in H1 as [_ H1].
    rewrite Hx, IHl; try assumption; try reflexivity.
    cbn [map fst distinct] in Hd. now apply andb_true_iff in Hd as [_ Hd].
Qed.

End JsonRoundTrip.

(** ** The key-value store engine *)

Section Store.

Import DatabaseHelper.

#[local] Arguments JSON.parse : simpl never.
#[local] Arguments stringify : simpl never.
#[local] Arguments String.append : simpl never.
#[local] Arguments text : simpl never.
#[local] Arguments print_Z : simpl never.

Lemma byte_num_plain b : plain (byte_num b) = true.
Proof. destruct b; reflexivity. Qed.

Lemma buffer_json_plain bytes : plain (buffer_json bytes) = true.
Proof.
  unfold buffer_json. cbn [plain map fst snd distinct existsb forallb].
  rewrite andb_true_r. cbn [andb negb orb String.eqb Ascii.eqb Bool.eqb].
  induction bytes as [|b bytes IH]; [reflexivity|].
  cbn [map forallb]. now rewrite byte_num_plain.
Qed.

Lemma finalValue_parse value :
  nullish value = false -> exact_value value = true ->
  match JSON.parse (finalValue value) with
  | Some j => JsData j
  | None => JsData (JStr (finalValue value))
  end = read_back value.
Proof.
  intros Hn Hp. destruct value as [ | bytes | bytes | j ]; try discriminate.
  - cbn. now rewrite parse_stringify by apply buffer_json_plain.
  - cbn. now rewrite parse_stringify by apply buffer_json_plain.
  - destruct j as [ | b | z | literal | s | l | l ]; try discriminate.
    + destruct b; reflexivity.
    + change (finalValue (JsData (JNum z))) with (stringify (JNum z)).
      now rewrite parse_stringify.
    + change (finalValue (JsData (JReal literal))) with (stringify (JReal literal)).
      now rewrite parse_stringify.
    + cbn. destruct (JSON.parse s); reflexivity.
    + cbn [finalValue typeof_object]. now rewrite parse_stringify by now apply exact_plain.
    + cbn [finalValue typeof_object]. now rewrite parse_stringify by now apply exact_plain.
Qed.

Lemma writeToDB_run key value w t :
  nullish value = false -> on_disk (db w) = Stored t -> write_error w = None ->
  exists w',
    writeToDB key value w = (Return true, w') /\
    on_disk (db w') = Stored (<[key := SqlText (finalValue value)]> t) /\
    write_faults (db w') = tail (write_faults (db w)) /\
    storage w' = storage w /\ entropy w' = entropy w /\ drawn w' = drawn w /\
    patch w' = patch w /\ command_fault w' = command_fault w /\
    platform w' = platform w /\
    effects w' = effects w ++ [WriteDb true] /\ output w' = output w.
Proof.
  intros Hn Ht Hw.
  destruct w as [pl [d faults] st en dr pa cf ef out con].
  cbn in Ht. subst d. unfold write_error, fault_at in Hw. cbn in Hw.
  unfold writeToDB, try_catch, bind. rewrite Hn.
  destruct faults as [|[why|] later]; try discriminate; cbn;
    (eexists; split; [reflexivity | cbn; repeat split; reflexivity]).
Qed.

Lemma readFromDB_run key w t :
  on_disk (db w) = Stored t ->
  fst (readFromDB key w) =
  Return match t !! key with
         | Some (SqlText s) =>
             match JSON.parse s with
             | Some j => JsData j
             | None => JsData (JStr s)
             end
         | Some c => js_of_sql c
         | None => js_null
         end.
Proof.
  intros Ht. unfold readFromDB, try_catch, bind, read_db. rewrite Ht.
  destruct (t !! key) as [[ | z | s | bs ]|]; try reflexivity.
  cbn. destruct (JSON.parse s); reflexivity.
Qed.

(** C1 (amended): once [writeToDB key value] has succeeded, [readFromDB
    key] returns [read_back value]: the value itself for an object, an
    array, a number, a boolean and a text that is not JSON; the value a
    JSON text spells ("123" reads back as the number 123, "1.5" as the
    number 1.5); and for a [Buffer] or [Uint8Array] the object
    [{type: 'Buffer', data: [...]}] whose [data] lists exactly the bytes
    written.  Stated for the values that are followed to the letter
    ([exact_value]): the numbers are the whole numbers below 2^53 in
    size and the decimals that are printed as they are written, and no
    object has a whole number for a property name. *)
Theorem read_after_write key value w :
  nullish value = false -> exact_value value = true ->
  load_error w = None -> write_error w = None ->
  fst (writeToDB key value w) = Return true /\
  fst (readFromDB key (snd (writeToDB key value w))) = Return (read_back value).
Proof.
  intros Hn Hp Hl Hw.
  assert (exists t, on_disk (db w) = Stored t) as [t Ht].
  { unfold load_error in Hl. destruct (on_disk (db w)); [discriminate | eauto]. }
  destruct (writeToDB_run key value w t Hn Ht Hw) as (w' & -> & Hd & _).
  split; [reflexivity|]. cbn [snd].
  rewrite (readFromDB_run key w' _ Hd), lookup_insert_eq.
  f_equal. now apply finalValue_parse.
Qed.

Lemma read_after_write_witness :
  let value := JsData (JObj [("name"%string, JStr "Alice");
                             ("zoomLevel"%string, JReal "1.5");
                             ("sizes"%string, JArr [JNum 800; JNum (-1)])]) in
  (nullish value = false /\ exact_value value = true /\
   load_error Sample.world = None /\ write_error Sample.world = None) /\
  fst (readFromDB "settings" (snd (writeToDB "settings" value Sample.world))) =
    Return value.
Proof.
  split; [repeat split; reflexivity |].
  apply (read_after_write "settings"
           (JsData (JObj [("name"%string, JStr "Alice");
                          ("zoomLevel"%string, JReal "1.5");
                          ("sizes"%string, JArr [JNum 800; JNum (-1)])]))
           Sample.world);
    reflexivity.
Defined.

(** A text that spells a number with a fraction is JSON as well: it
    reads back as that number. *)
Example read_after_write_decimal :
  exact_value (JsData (JStr "1.5")) = true /\
  fst (readFromDB "k" (snd (writeToDB "k" (JsData (JStr "1.5")) Sample.world)))
    = Return (JsData (JReal "1.5")).
Proof. split; vm_compute; reflexivity. Qed.

(** C1, as stated, fails: the text "123" reads back as the number 123,
    and a [Buffer] reads back as a tagged object, not as bytes. *)
Lemma read_after_write_counterexample :
  fst (readFromDB "k" (snd (writeToDB "k" (JsData (JStr "123")) Sample.world)))
    = Return (JsData (JNum 123)) /\
  fst (readFromDB "k" (snd (writeToDB "k" (JsBuffer [Byte.x01; Byte.xff]) Sample.world)))
    = Return (JsData (JObj [("type"%string, JStr "Buffer");
                            ("data"%string, JArr [JNum 1; JNum 255])])).
Proof. split; vm_compute; reflexivity. Qed.

(** C7: [writeToDB] throws exactly for a [null]/[undefined] value, for a
    database image that does not load and for a final write that fails;
    the caller gets that very error, and [true] in every other case. *)
Theorem writeToDB_failures key value w :
  fst (writeToDB key value w) =
  if nullish value
  then Throw (Error ("Cannot write null/undefined value to key: " +:+ key))
  else match load_error w, write_error w with
       | Some why, _ => Throw (Error why)
       | None, Some why => Throw (Error why)
       | None, None => Return true
       end.
Proof.
  destruct w as [pl [d faults] st en dr pa cf ef out con].
  unfold writeToDB, try_catch, bind, load_error, write_error, fault_at.
  destruct (nullish value); [reflexivity|].
  destruct d as [why|t]; [reflexivity|].
  destruct faults as [|[why|] later]; reflexivity.
Qed.

(** *** Deleting by pattern *)

Lemma delete_rows_spec rows : forall (t : table) c,
  NoDup rows -> (forall k, k ∈ rows -> is_Some (t !! k)) ->
  (forall k, (delete_rows rows t c).1 !! k = if decide (k ∈ rows) then None else t !! k) /\
  (delete_rows rows t c).2 = c + Z.of_nat (length rows) /\
  (size (delete_rows rows t c).1 + length rows = size t)%nat.
Proof.
  induction rows as [|row rows IH]; intros t c Hnd Hin; cbn [delete_rows].
  - split; [|split; cbn; lia].
    intros k. cbn [fst]. now rewrite decide_False by apply not_elem_of_nil.
  - inversion Hnd as [|? ? Hfresh Hnd']; subst.
    destruct (IH (delete row t) (c + 1) Hnd') as (Hl & Hc & Hs).
    { intros k Hk. rewrite lookup_delete_ne; [apply Hin; now right|].
      intros ->. contradiction. }
    split; [|split].
    + intros k. rewrite Hl. destruct (decide (k = row)) as [->|Hne].
      * rewrite (decide_False (P := row ∈ rows)) by assumption.
        rewrite decide_True by left. apply lookup_delete_eq.
      * rewrite lookup_delete_ne by congruence.
        destruct (decide (k ∈ rows)) as [Hk|Hk].
        -- now rewrite decide_True by now right.
        -- rewrite decide_False; [reflexivity|]. intros [?|?]%elem_of_cons; contradiction.
    + rewrite Hc. cbn [length]. lia.
    + destruct (Hin row) as [x Hx]; [left|].
      pose proof (map_size_delete_Some row t (mk_is_Some _ _ Hx)) as Hd.
      cbn [length]. pose proof (map_size_ne_0_lookup_2 t row (mk_is_Some _ _ Hx)). lia.
Qed.

Lemma select_like_elem pattern (t : table) k :
  k ∈ select_like pattern t <-> LIKE k pattern = true /\ is_Some (t !! k).
Proof.
  unfold select_like. rewrite list_elem_of_filter, list_elem_of_fmap.
  split.
  - intros [Hm ([k' x] & -> & Hx)]. split; [exact Hm|].
    apply elem_of_map_to_list in Hx. eauto.
  - intros [Hm [x Hx]]. split; [exact Hm|]. exists (k, x).
    split; [reflexivity|]. now apply elem_of_map_to_list.
Qed.

(** C9: when the image loads and the rewrite goes through,
    [deleteByPattern] removes every row whose key matches the pattern,
    leaves every other key with its value (and readable as before), and
    returns the number of rows it removed. *)
Theorem deleteByPattern_exact pattern w t :
  on_disk (db w) = Stored t -> write_error w = None ->
  exists w',
    deleteByPattern pattern w =
      (Return (Z.of_nat (size t) - Z.of_nat (size (rows w'))), w') /\
    (size (rows w') <= size t)%nat /\
    (forall k, LIKE k pattern = true -> rows w' !! k = None) /\
    (forall k, LIKE k pattern = false ->
       rows w' !! k = t !! k /\ fst (readFromDB k w') = fst (readFromDB k w)).
Proof.
  intros Ht Hw.
  destruct (delete_rows_spec (select_like pattern t) t 0) as (Hl & Hc & Hs).
  { unfold select_like. apply NoDup_filter, NoDup_fst_map_to_list. }
  { intros k Hk. now apply select_like_elem in Hk. }
  destruct w as [pl [d faults] st en dr pa cf ef out con].
  cbn in Ht. subst d. unfold write_error, fault_at in Hw. cbn in Hw.
  unfold deleteByPattern, try_catch, bind, read_db. cbn [on_disk db].
  destruct (delete_rows (select_like pattern t) t 0) as [t' count] eqn:E.
  cbn [fst snd] in *.
  set (w' := fun later => add_console
            ("[DatabaseHelper] 删除了 " +:+ text (print_Z count) +:+
             " 条记录 (pattern: " +:+ pattern +:+ ")")
            (add_effect (WriteDb true)
               (set_db (File (Stored t') later)
                  {| platform := pl; db := File (Stored t) faults; storage := st;
                     entropy := en; drawn := dr; patch := pa; command_fault := cf;
                     effects := ef; output := out; console := con |}))).
  assert (Hrows : forall later, rows (w' later) = t') by reflexivity.
  assert (Hres : forall later,
    (size (rows (w' later)) <= size t)%nat /\
    (forall k, LIKE k pattern = true -> rows (w' later) !! k = None) /\
    (forall k, LIKE k pattern = false ->
       rows (w' later) !! k = t !! k /\
       fst (readFromDB k (w' later)) =
       fst (readFromDB k {| platform := pl; db := File (Stored t) faults; storage := st;
                     entropy := en; drawn := dr; patch := pa; command_fault := cf;
                     effects := ef; output := out; console := con |}))).
  { intros later. rewrite Hrows. split; [lia|]. split.
    - intros k Hk. rewrite Hl. destruct (t !! k) as [x|] eqn:Hx.
      + rewrite decide_True; [reflexivity|]. apply select_like_elem. eauto.
      + destruct (decide _); reflexivity.
    - intros k Hk.
      assert (Hk' : t' !! k = t !! k).
      { rewrite Hl, decide_False; [reflexivity|].
        intros [Hm _]%select_like_elem. congruence. }
      split; [exact Hk'|].
      rewrite (readFromDB_run k (w' later) t' eq_refl).
      rewrite (readFromDB_run k
                 (Build_World pl (File (Stored t) faults) st en dr pa cf ef out con)
                 t eq_refl).
      now rewrite Hk'. }
  assert (Hcount : count = Z.of_nat (size t) - Z.of_nat (size t')) by lia.
  destruct faults as [|[why|] later]; try discriminate; cbn.
  - exists (w' []). split; [rewrite Hrows, <- Hcount; reflexivity | apply Hres].
  - exists (w' later). split; [rewrite Hrows, <- Hcount; reflexivity | apply Hres].
Qed.

Lemma deleteByPattern_exact_witness :
  let w := Sample.with_db (File (Stored Sample.three_rows) []) Sample.world in
  (on_disk (db w) = Stored Sample.three_rows /\ write_error w = None) /\
  exists w',
    deleteByPattern "foo.%" w =
      (Return (Z.of_nat (size Sample.three_rows) - Z.of_nat (size (rows w'))), w') /\
    (size (rows w') <= size Sample.three_rows)%nat /\
    (forall k, LIKE k "foo.%" = true -> rows w' !! k = None) /\
    (forall k, LIKE k "foo.%" = false ->
       rows w' !! k = Sample.three_rows !! k /\ fst (readFromDB k w') = fst (readFromDB k w)).
Proof.
  split; [split; reflexivity |].
  apply (deleteByPattern_exact "foo.%"
           (Sample.with_db (File (Stored Sample.three_rows) []) Sample.world)
           Sample.three_rows); reflexivity.
Defined.

(** The example of the specification: of [foo.a], [foo.b] and [bar.c],
    the pattern [foo.%] removes two rows and [bar.c] keeps its value. *)
Example deleteByPattern_three_rows :
  let w := Sample.with_db (File (Stored Sample.three_rows) []) Sample.world in
  fst (deleteByPattern "foo.%" w) = Return 2 /\
  fst (readFromDB "bar.c" (snd (deleteByPattern "foo.%" w))) = Return (JsData (JStr "keep")) /\
  fst (readFromDB "foo.a" (snd (deleteByPattern "foo.%" w))) = Return js_null /\
  fst (readFromDB "foo.b" (snd (deleteByPattern "foo.%" w))) = Return js_null.
Proof. repeat split; vm_compute; reflexivity. Qed.

(** After [deleteFromDB key] has gone through, [key] reads as absent and
    every other key reads as before. *)
Theorem deleteFromDB_removes key w t :
  on_disk (db w) = Stored t -> write_error w = None ->
  fst (deleteFromDB key w) = Return true /\
  fst (readFromDB key (snd (deleteFromDB key w))) = Return js_null /\
  (forall k, k <> key ->
     fst (readFromDB k (snd (deleteFromDB key w))) = fst (readFromDB k w)).
Proof.
  intros Ht Hw.
  assert (exists w', deleteFromDB key w = (Return true, w') /\
                     on_disk (db w') = Stored (delete key t)) as (w' & -> & Hd).
  { destruct w as [pl [d faults] st en dr pa cf ef out con].
    cbn in Ht. subst d. unfold write_error, fault_at in Hw. cbn in Hw.
    unfold deleteFromDB, try_catch, bind.
    destruct faults as [|[why|] later]; try discriminate;
      (eexists; split; [reflexivity | reflexivity]). }
  cbn [fst snd]. split; [reflexivity|]. split.
  - rewrite (readFromDB_run key w' _ Hd), lookup_delete_eq. reflexivity.
  - intros k Hk. rewrite (readFromDB_run k w' _ Hd), (readFromDB_run k w _ Ht).
    now rewrite lookup_delete_ne by congruence.
Qed.

Lemma deleteFromDB_removes_witness :
  let w := Sample.with_db (File (Stored Sample.three_rows) []) Sample.world in
  (on_disk (db w) = Stored Sample.three_rows /\ write_error w = None) /\
  fst (deleteFromDB "foo.a" w) = Return true /\
  fst (readFromDB "foo.a" (snd (deleteFromDB "foo.a" w))) = Return js_null.
Proof.
  cbv zeta. split; [split; reflexivity|].
  pose proof (deleteFromDB_removes "foo.a"
                (Sample.with_db (File (Stored Sample.three_rows) []) Sample.world)
                Sample.three_rows eq_refl eq_refl) as (H1 & H2 & _).
  split; [exact H1 | exact H2].
Defined.

(** [LIKE] on a few keys: [%] spans any run, [_] one character, and
    letters match in either case. *)
Example LIKE_samples :
  LIKE "foo.a" "foo.%" = true /\ LIKE "bar.c" "foo.%" = false /\
  LIKE "FOO.b" "foo.%" = true /\ LIKE "foo" "foo.%" = false /\
  LIKE "foo.a" "foo._" = true /\ LIKE "foo.ab" "foo._" = false /\
  LIKE "codeium.windsurf" "%wind%" = true /\ LIKE EmptyString "%" = true.
Proof. repeat split; reflexivity. Qed.

End Store.

(** ** The account list *)

Section Accounts.

Import AccountManager.

Lemma getAccounts_index ctx :
  currentAccountIndex (snd (getAccounts ctx)) = currentAccountIndex ctx.
Proof. unfold getAccounts. destruct (accounts ctx); reflexivity. Qed.

(** C10: on a non-empty list of [n] accounts with current index [i],
    [getNextAccount] returns the account at [(i + 1) mod n] and that
    index; on an empty list it returns [null] and [-1]; either way the
    stored current index stays as it was. *)
Theorem getNextAccount_cycles ctx :
  let listed := fst (getAccounts ctx) in
  let n := Z.of_nat (length listed) in
  let i := getCurrentAccountIndex ctx in
  let next := fst (getNextAccount ctx) in
  currentAccountIndex (snd (getNextAccount ctx)) = currentAccountIndex ctx /\
  (listed = [] -> next = {| account := null; index := -1 |}) /\
  (listed <> [] -> 0 <= i ->
     index next = (i + 1) mod n /\
     exists a, nth_error listed (Z.to_nat ((i + 1) mod n)) = Some a /\
               account next = object a).
Proof.
  cbv zeta. unfold getNextAccount.
  destruct (getAccounts ctx) as [listed ctx'] eqn:E. cbn [fst snd].
  assert (Hi : currentAccountIndex ctx' = currentAccountIndex ctx).
  { rewrite <- (getAccounts_index ctx), E. reflexivity. }
  assert (Hg : getCurrentAccountIndex ctx' = getCurrentAccountIndex ctx).
  { unfold getCurrentAccountIndex. now rewrite Hi. }
  destruct listed as [|a0 rest].
  - cbn. split; [exact Hi|]. split; [reflexivity | congruence].
  - change (Nat.eqb (length (a0 :: rest)) 0) with false. cbv iota. cbn [fst snd].
    split; [exact Hi|]. split; [discriminate|]. intros _ Hpos.
    rewrite Hg. set (n := Z.of_nat (length (a0 :: rest))).
    assert (Hn : 0 < n) by (unfold n; cbn [length]; lia).
    rewrite Z.rem_mod_nonneg by lia.
    pose proof (Z.mod_pos_bound (getCurrentAccountIndex ctx + 1) n Hn) as Hb.
    split; [reflexivity|]. unfold at_index.
    destruct (Z.ltb_spec ((getCurrentAccountIndex ctx + 1) mod n) 0); [lia|].
    destruct (nth_error (a0 :: rest) (Z.to_nat ((getCurrentAccountIndex ctx + 1) mod n)))
      as [a|] eqn:Ha.
    + exists a. split; reflexivity.
    + apply nth_error_None in Ha. unfold n in *. lia.
Qed.

Lemma getNextAccount_cycles_witness :
  let ctx := {| accounts := Some [Sample.alice; Sample.bob];
                currentAccountIndex := Some 1;
                secrets := {[ "windsurfSwitch.secret.a1.apiKey"%string := "sk-live"%string ]} |} in
  currentAccountIndex (snd (getNextAccount ctx)) = Some 1 /\
  index (fst (getNextAccount ctx)) = 0 /\
  exists a, nth_error (fst (getAccounts ctx)) 0 = Some a /\
            account (fst (getNextAccount ctx)) = object a.
Proof.
  cbv zeta.
  pose proof (getNextAccount_cycles
    {| accounts := Some [Sample.alice; Sample.bob];
       currentAccountIndex := Some 1;
       secrets := {[ "windsurfSwitch.secret.a1.apiKey"%string := "sk-live"%string ]} |})
    as (H1 & _ & H3).
  split; [exact H1|]. apply H3; [discriminate | vm_compute; discriminate].
Defined.

End Accounts.

(** ** The switch orchestrator *)

Section Switch.

Import AccountManager AccountSwitcher.

#[local] Arguments String.append : simpl never.
#[local] Arguments text : simpl never.
#[local] Arguments print_Z : simpl never.
#[local] Arguments stringify : simpl never.
#[local] Arguments JSON.parse : simpl never.
#[local] Arguments substring0 : simpl never.

(** C4: when the patch check asks for a restart, [switchAccount] only
    logs, shows the notice and schedules the reload: it runs no host
    command (no logout, no injection), draws no identifiers, writes
    neither file, and returns [success: false] with [needsRestart: true]. *)
Theorem switchAccount_needs_restart account w r :
  patch w = inr r -> WindsurfPatchService.needsRestart r = true ->
  exists w',
    switchAccount account w =
      (Return {| success := false; error := Some "补丁已应用，正在重启";
                 needsRestart := Some true |}, w') /\
    effects w' = effects w ++
      [ShowInformationMessage "补丁已应用，Windsurf 正在重启。重启后请再次切换账号。";
       SetTimeoutCommand RELOAD 1500] /\
    db w' = db w /\ storage w' = storage w /\ drawn w' = drawn w.
Proof.
  intros Hp Hr. destruct w as [pl d st en dr pa cf ef out con].
  cbn in Hp. subst pa.
  unfold switchAccount, try_catch, bind, checkAndApplyPatch. cbn.
  rewrite Hr. cbn. eexists. split; [reflexivity|]. cbn.
  rewrite <- app_assoc. repeat split; reflexivity.
Qed.

Lemma switchAccount_needs_restart_witness :
  let r := {| WindsurfPatchService.needsRestart := true;
              WindsurfPatchService.error := None |} in
  let w := Sample.with_patch (inr r) Sample.world in
  (patch w = inr r /\ WindsurfPatchService.needsRestart r = true) /\
  exists w',
    switchAccount Sample.alice w =
      (Return {| success := false; error := Some "补丁已应用，正在重启";
                 needsRestart := Some true |}, w') /\
    effects w' = effects w ++
      [ShowInformationMessage "补丁已应用，Windsurf 正在重启。重启后请再次切换账号。";
       SetTimeoutCommand RELOAD 1500] /\
    db w' = db w /\ storage w' = storage w /\ drawn w' = drawn w.
Proof.
  cbv zeta. split; [split; reflexivity|].
  apply (switchAccount_needs_restart Sample.alice
           (Sample.with_patch
              (inr {| WindsurfPatchService.needsRestart := true;
                      WindsurfPatchService.error := None |}) Sample.world)
           {| WindsurfPatchService.needsRestart := true;
              WindsurfPatchService.error := None |}); reflexivity.
Defined.

(** *** What the early steps leave alone *)

Lemma keeps_ret {A} (a : A) : keeps (ret a).
Proof. intros w. reflexivity. Qed.

Lemma keeps_throw {A} e : keeps (@throw A e).
Proof. intros w. reflexivity. Qed.

Lemma keeps_bind {A B} (m : M A) (k : A -> M B) :
  keeps m -> (forall a, keeps (k a)) -> keeps (bind m k).
Proof.
  intros Hm Hk w. unfold bind. specialize (Hm w).
  destruct (m w) as [[a|e] w1]; cbn [snd] in *; [|exact Hm].
  now rewrite Hk.
Qed.

Lemma keeps_try_catch {A} (m : M A) h :
  keeps m -> (forall e, keeps (h e)) -> keeps (try_catch m h).
Proof.
  intros Hm Hh w. unfold try_catch. specialize (Hm w).
  destruct (m w) as [[a|e] w1]; cbn [snd] in *; [exact Hm|].
  now rewrite Hh.
Qed.

Lemma keeps_modify f : (forall w, host (f w) = host w) -> keeps (modify f).
Proof. intros Hf w. apply Hf. Qed.

Lemma keeps_gets {A} (f : World -> A) : keeps (gets f).
Proof. intros w. reflexivity. Qed.

Lemma keeps_effect e : keeps (effect e).
Proof. intros w. reflexivity. Qed.

Lemma keeps_console_log line : keeps (console_log line).
Proof. intros w. reflexivity. Qed.

Lemma keeps_log line : keeps (log line).
Proof. intros w. reflexivity. Qed.

Lemma keeps_randomBytes n : keeps (randomBytes n).
Proof. intros w. reflexivity. Qed.

Lemma keeps_read_storage : keeps read_storage.
Proof. intros w. unfold read_storage. destruct (on_disk (storage w)); reflexivity. Qed.

Lemma keeps_write_storage s : keeps (write_storage s).
Proof.
  intros w. unfold write_storage. destruct (write_attempt (storage w) s) as [[why|] f];
    reflexivity.
Qed.

Lemma keeps_executeCommand cmd arg : keeps (executeCommand cmd arg).
Proof.
  intros w. unfold executeCommand, bind, effect, modify, gets. cbn.
  destruct (command_fault w cmd); reflexivity.
Qed.

Lemma keeps_set_property data key value :
  keeps (MachineIdResetter.set_property data key value).
Proof. intros w. destruct data; reflexivity. Qed.

Ltac keeps_step :=
  lazymatch goal with
  | |- keeps (ret _) => apply keeps_ret
  | |- keeps (throw _) => apply keeps_throw
  | |- keeps (gets _) => apply keeps_gets
  | |- keeps (effect _) => apply keeps_effect
  | |- keeps (console_log _) => apply keeps_console_log
  | |- keeps (log _) => apply keeps_log
  | |- keeps (randomBytes _) => apply keeps_randomBytes
  | |- keeps read_storage => apply keeps_read_storage
  | |- keeps (write_storage _) => apply keeps_write_storage
  | |- keeps (executeCommand _ _) => apply keeps_executeCommand
  | |- keeps (MachineIdResetter.set_property _ _ _) => apply keeps_set_property
  | |- keeps (try_catch _ _) => apply keeps_try_catch; [|intros ?]
  | |- keeps (bind _ _) => apply keeps_bind; [|intros ?]
  | |- keeps (match ?x with _ => _ end) => destruct x
  end.

Lemma keeps_uuidv4 : keeps uuidv4.
Proof. unfold uuidv4. repeat keeps_step. Qed.

Lemma keeps_write_attempts remaining : forall i content lastError,
  keeps (MachineIdResetter.write_attempts remaining i content lastError).
Proof.
  induction remaining as [|n IH]; intros i content lastError;
    cbn [MachineIdResetter.write_attempts]; [apply keeps_ret|].
  apply keeps_bind; [|intros [e|]; [apply IH | apply keeps_ret]].
  apply keeps_try_catch; [|intros e; repeat keeps_step].
  apply keeps_bind; [destruct (0 <? i); keeps_step | intros _; repeat keeps_step].
Qed.

Lemma keeps_resetMachineId : keeps MachineIdResetter.resetMachineId.
Proof.
  unfold MachineIdResetter.resetMachineId, MachineIdResetter.generateMachineIds.
  repeat first
    [ keeps_step
    | lazymatch goal with
      | |- keeps uuidv4 => apply keeps_uuidv4
      | |- keeps (MachineIdResetter.write_attempts _ _ _ _) => apply keeps_write_attempts
      end ].
Qed.

Lemma safe_log line : safe (log line).
Proof. intros w. exists tt. reflexivity. Qed.

Lemma safe_try_catch {A} (m : M A) h :
  (forall e, safe (h e)) -> safe (try_catch m h).
Proof.
  intros Hh w. unfold try_catch. destruct (m w) as [[a|e] w1]; [exists a; reflexivity|].
  apply Hh.
Qed.

Lemma safe_bind {A B} (m : M A) (k : A -> M B) :
  safe m -> (forall a, safe (k a)) -> safe (bind m k).
Proof.
  intros Hm Hk w. unfold bind. specialize (Hm w) as [a Ha].
  destruct (m w) as [[a'|e] w1]; cbn [fst] in Ha; [|discriminate].
  apply Hk.
Qed.

(** A step that neither throws nor touches the host hands over to the
    next one. *)
Lemma step_over {B} (m : M unit) (k : unit -> M B) w :
  safe m -> keeps m ->
  exists w1, host w1 = host w /\ bind m k w = k tt w1.
Proof.
  intros Hs Hk. unfold bind. specialize (Hs w) as [[] Ha]. specialize (Hk w).
  destruct (m w) as [[[]|e] w1]; cbn [fst snd] in *; [|discriminate].
  exists w1. split; [exact Hk | reflexivity].
Qed.

Lemma logoutStep_over {B} (k : unit -> M B) w :
  exists w1, host w1 = host w /\ bind logoutStep k w = k tt w1.
Proof.
  apply step_over.
  - unfold logoutStep. apply safe_bind; [apply safe_log | intros _].
    apply safe_try_catch. intros e. apply safe_log.
  - unfold logoutStep. repeat keeps_step.
Qed.

Lemma identityResetStep_over {B} (k : unit -> M B) w :
  exists w1, host w1 = host w /\ bind identityResetStep k w = k tt w1.
Proof.
  apply step_over.
  - unfold identityResetStep. apply safe_bind; [apply safe_log | intros _].
    apply safe_try_catch. intros e. apply safe_log.
  - unfold identityResetStep.
    repeat first
      [ keeps_step
      | lazymatch goal with
        | |- keeps MachineIdResetter.resetMachineId => apply keeps_resetMachineId
        end ].
Qed.

Lemma log_over {B} line (k : unit -> M B) w :
  exists w1, host w1 = host w /\ bind (log line) k w = k tt w1.
Proof. apply step_over; [apply safe_log | apply keeps_log]. Qed.

(** Once the patch check has passed, the switch comes down to the
    session step, run on the same host. *)
Lemma switchSteps_over account w :
  exists w1, host w1 = host w /\
    switchSteps account w = try_catch (injectSession account) (fallback account) w1.
Proof.
  unfold switchSteps, sessionStep.
  destruct (log_over "补丁检查通过"
              (fun _ => logoutStep ;; identityResetStep ;;
                 log "步骤 4: 注入新会话..." ;;
                 log ("用户: " +:+ email account) ;;
                 log ("API Key: " +:+ substring0 20 (apiKey account) +:+ "...") ;;
                 try_catch (injectSession account) (fallback account)) w)
    as (w1 & H1 & ->).
  destruct (logoutStep_over
              (fun _ => identityResetStep ;;
                 log "步骤 4: 注入新会话..." ;;
                 log ("用户: " +:+ email account) ;;
                 log ("API Key: " +:+ substring0 20 (apiKey account) +:+ "...") ;;
                 try_catch (injectSession account) (fallback account)) w1)
    as (w2 & H2 & ->).
  destruct (identityResetStep_over
              (fun _ => log "步骤 4: 注入新会话..." ;;
                 log ("用户: " +:+ email account) ;;
                 log ("API Key: " +:+ substring0 20 (apiKey account) +:+ "...") ;;
                 try_catch (injectSession account) (fallback account)) w2)
    as (w3 & H3 & ->).
  destruct (log_over "步骤 4: 注入新会话..."
              (fun _ => log ("用户: " +:+ email account) ;;
                 log ("API Key: " +:+ substring0 20 (apiKey account) +:+ "...") ;;
                 try_catch (injectSession account) (fallback account)) w3)
    as (w4 & H4 & ->).
  destruct (log_over ("用户: " +:+ email account)
              (fun _ => log ("API Key: " +:+ substring0 20 (apiKey account) +:+ "...") ;;
                 try_catch (injectSession account) (fallback account)) w4)
    as (w5 & H5 & ->).
  destruct (log_over ("API Key: " +:+ substring0 20 (apiKey account) +:+ "...")
              (fun _ => try_catch (injectSession account) (fallback account)) w5)
    as (w6 & H6 & ->).
  exists w6. split; [congruence | reflexivity].
Qed.

Lemma step_over_caught {B} (m : M unit) (k : unit -> M B) h w :
  safe m -> keeps m ->
  exists w1, host w1 = host w /\ try_catch (bind m k) h w = try_catch (k tt) h w1.
Proof.
  intros Hs Hk. destruct (step_over m k w Hs Hk) as (w1 & H1 & E).
  exists w1. split; [exact H1|]. unfold try_catch. now rewrite E.
Qed.

(** With a patch that is in place, [switchAccount] is the session step
    under the outermost [catch]. *)
Lemma switchAccount_patched account w r :
  patch w = inr r -> WindsurfPatchService.needsRestart r = false ->
  truthy (WindsurfPatchService.error r) = None ->
  exists w1, host w1 = host w /\
    switchAccount account w =
      try_catch (try_catch (injectSession account) (fallback account)) switchFailed w1.
Proof.
  intros Hp Hr He. unfold switchAccount.
  unfold bind at 1. cbn [modify].
  assert (H0 : host (set_output [] w) = host w) by reflexivity.
  revert H0. generalize (set_output [] w). intros w0 H0.
  do 3 lazymatch goal with
  | |- context [try_catch (bind (log ?l) ?k) ?h ?w1] =>
      let w2 := fresh "w" in
      let H := fresh "H" in
      destruct (step_over_caught (log l) k h w1 (safe_log l) (keeps_log l))
        as (w2 & H & ->);
      assert (host w2 = host w) by congruence;
      clear H
  end.
  assert (Hp3 : patch w3 = inr r).
  { unfold host in H3. injection H3 as _ -> _. exact Hp. }
  destruct (switchSteps_over account w3) as (w4 & H4 & E).
  exists w4. split; [congruence|].
  unfold try_catch at 1, bind at 1, checkAndApplyPatch. rewrite Hp3, Hr, He, E.
  reflexivity.
Qed.

(** *** The durable write *)

Lemma bind_ret_run {A B} (m : M A) (k : A -> M B) w a w' :
  m w = (Return a, w') -> bind m k w = k a w'.
Proof. intros E. unfold bind. now rewrite E. Qed.

Lemma bind_throw_run {A B} (m : M A) (k : A -> M B) w e w' :
  m w = (Throw e, w') -> bind m k w = (Throw e, w').
Proof. intros E. unfold bind. now rewrite E. Qed.

Lemma log_run line w : log line w = (Return tt, logged line w).
Proof. reflexivity. Qed.

Lemma uuidv4_run w : uuidv4 w = (Return (uuid_at w), set_drawn (drawn w + 16) w).
Proof. reflexivity. Qed.

Lemma writeToDB_step key value w :
  DatabaseHelper.nullish value = false ->
  exists w',
    DatabaseHelper.writeToDB key value w = (write_outcome w, w') /\
    db w' = db_after key value w.
Proof.
  intros Hn. destruct w as [pl [d faults] st en dr pa cf ef out con].
  unfold DatabaseHelper.writeToDB, try_catch, bind, write_outcome, load_error,
    write_error, fault_at, db_after. rewrite Hn.
  destruct d as [why|t]; [eexists; split; reflexivity|].
  destruct faults as [|[why|] later]; eexists; split; reflexivity.
Qed.

Lemma fault_at_after {A} n (f : file A) x :
  fault_at n (snd (write_attempt f x)) = fault_at (S n) f.
Proof.
  unfold fault_at, write_attempt. destruct f as [d [|[why|] later]]; cbn;
    try reflexivity. now destruct n.
Qed.

Lemma on_disk_after {A} (f : file A) x :
  fault_at 0 f = None -> on_disk (snd (write_attempt f x)) = Stored x.
Proof.
  unfold fault_at, write_attempt. destruct f as [d [|[why|] later]]; cbn;
    [reflexivity | discriminate | reflexivity].
Qed.

(** The three writes of [writeAuthData] stop at the first error, which
    is the one thrown; without one the three records are in the table. *)
Lemma writeAuthData_run account w :
  exists w',
    writeAuthData account w =
      (match fallback_fault (db w) with
       | Some why => Throw (Error why)
       | None => Return tt
       end, w') /\
    (fallback_fault (db w) = None ->
     exists teamId installationId,
       rows w' !! "windsurfAuthStatus"%string =
         Some (SqlText (stringify (authStatus account teamId))) /\
       rows w' !! "codeium.windsurf"%string =
         Some (SqlText (stringify (codeiumConfig account installationId))) /\
       rows w' !! "codeium.windsurf-windsurf_auth"%string =
         Some (SqlText (name account))) /\
    (load_error w <> None -> db w' = db w).
Proof.
  unfold writeAuthData.
  rewrite (bind_ret_run _ _ _ _ _ (uuidv4_run w)).
  set (w0 := set_drawn (drawn w + 16) w). set (teamId := uuid_at w).
  assert (Hdb0 : db w0 = db w) by reflexivity.
  destruct (writeToDB_step "windsurfAuthStatus"
              (DatabaseHelper.JsData (authStatus account teamId)) w0 eq_refl)
    as (w1 & E1 & Hdb1).
  unfold fallback_fault, write_outcome, load_error, write_error, db_after in *.
  rewrite Hdb0 in *.
  destruct (on_disk (db w)) as [why|t] eqn:Hd.
  { rewrite (bind_throw_run _ _ _ _ _ E1). eexists.
    split; [reflexivity | split; [discriminate | intros _; exact Hdb1]]. }
  destruct (fault_at 0 (db w)) as [why|] eqn:F0.
  { rewrite (bind_throw_run _ _ _ _ _ E1). eexists.
    split; [reflexivity | split; [discriminate | congruence]]. }
  rewrite (bind_ret_run _ _ _ _ _ E1).
  rewrite (bind_ret_run _ _ _ _ _ (log_run _ w1)).
  rewrite (bind_ret_run _ _ _ _ _ (uuidv4_run _)).
  set (installationId := uuid_at (logged "已写入 windsurfAuthStatus" w1)).
  set (w2 := set_drawn _ _).
  assert (Hdb2 : db w2 = db w1) by reflexivity.
  destruct (writeToDB_step "codeium.windsurf"
              (DatabaseHelper.JsData (codeiumConfig account installationId)) w2 eq_refl)
    as (w3 & E3 & Hdb3).
  unfold write_outcome, load_error, write_error, db_after in *.
  rewrite Hdb2, Hdb1 in *.
  rewrite on_disk_after in * by exact F0. rewrite fault_at_after in *.
  destruct (fault_at 1 (db w)) as [why|] eqn:F1.
  { rewrite (bind_throw_run _ _ _ _ _ E3). eexists.
    split; [reflexivity | split; [discriminate | congruence]]. }
  rewrite (bind_ret_run _ _ _ _ _ E3).
  rewrite (bind_ret_run _ _ _ _ _ (log_run _ w3)).
  set (w4 := logged _ w3).
  assert (Hdb4 : db w4 = db w3) by reflexivity.
  destruct (writeToDB_step "codeium.windsurf-windsurf_auth"
              (DatabaseHelper.JsData (JStr (name account))) w4 eq_refl)
    as (w5 & E5 & Hdb5).
  unfold write_outcome, load_error, write_error, db_after in *.
  rewrite Hdb4, Hdb3 in *.
  rewrite on_disk_after in * by (rewrite fault_at_after; exact F1).
  rewrite !fault_at_after in *.
  destruct (fault_at 2 (db w)) as [why|] eqn:F2.
  { rewrite (bind_throw_run _ _ _ _ _ E5). eexists.
    split; [reflexivity | split; [discriminate | congruence]]. }
  rewrite (bind_ret_run _ _ _ _ _ E5).
  eexists. split; [apply log_run|]. split; [|congruence]. intros _.
  exists teamId, installationId.
  unfold rows. change (db (logged _ w5)) with (db w5). rewrite Hdb5.
  rewrite on_disk_after by (rewrite !fault_at_after; exact F2).
  change (DatabaseHelper.finalValue (DatabaseHelper.JsData (JStr (name account))))
    with (name account).
  change (DatabaseHelper.finalValue (DatabaseHelper.JsData (codeiumConfig account installationId)))
    with (stringify (codeiumConfig account installationId)).
  change (DatabaseHelper.finalValue (DatabaseHelper.JsData (authStatus account teamId)))
    with (stringify (authStatus account teamId)).
  split; [|split].
  - rewrite lookup_insert_ne by discriminate. rewrite lookup_insert_ne by discriminate.
    apply lookup_insert_eq.
  - rewrite lookup_insert_ne by discriminate. apply lookup_insert_eq.
  - apply lookup_insert_eq.
Qed.

Lemma host_fields w1 w :
  host w1 = host w ->
  db w1 = db w /\ patch w1 = patch w /\ command_fault w1 = command_fault w.
Proof. unfold host. intros H. injection H as -> -> ->. repeat split. Qed.

(** The fallback branch on a host whose database answers as [w]'s. *)
Lemma fallback_run account e w1 :
  exists w',
    fallback account e w1 =
      (match fallback_fault (db w1) with
       | Some why => Throw (Error why)
       | None => Return {| success := true; error := None; needsRestart := None |}
       end, w') /\
    (fallback_fault (db w1) = None ->
     last (effects w') = Some (SetTimeoutCommand RELOAD 1500) /\
     exists teamId installationId,
       rows w' !! "windsurfAuthStatus"%string =
         Some (SqlText (stringify (authStatus account teamId))) /\
       rows w' !! "codeium.windsurf"%string =
         Some (SqlText (stringify (codeiumConfig account installationId))) /\
       rows w' !! "codeium.windsurf-windsurf_auth"%string =
         Some (SqlText (name account))).
Proof.
  unfold fallback. unfold bind at 1. cbn [log bind modify console_log fst snd].
  unfold bind at 1. cbn [log bind modify console_log fst snd].
  unfold bind at 1.
  lazymatch goal with
  | |- context [writeAuthData account ?W] =>
      destruct (writeAuthData_run account W) as (w2 & E & Hrec & _);
      change (db W) with (db w1) in *; rewrite E
  end.
  destruct (fallback_fault (db w1)) as [msg|].
  - eexists. split; [reflexivity | discriminate].
  - eexists. split; [reflexivity|]. intros _. split.
    + cbn. apply last_snoc.
    + destruct (Hrec eq_refl) as (teamId & installationId & H1 & H2 & H3).
      exists teamId, installationId. repeat split; assumption.
Qed.

(** C3: when the live-injection command throws, [switchAccount] writes
    the three records; if the image loads and the three writes succeed
    it schedules the reload and returns [success: true], with the
    records in the table; otherwise it returns [success: false] with the
    text of the first error. *)
Theorem switchAccount_fallback account w r why :
  patch w = inr r -> WindsurfPatchService.needsRestart r = false ->
  truthy (WindsurfPatchService.error r) = None ->
  command_fault w INJECT = Some why ->
  exists w',
    switchAccount account w =
      (Return match fallback_fault (db w) with
              | None => {| success := true; error := None; needsRestart := None |}
              | Some msg => {| success := false; error := Some msg; needsRestart := None |}
              end, w') /\
    (fallback_fault (db w) = None ->
     last (effects w') = Some (SetTimeoutCommand RELOAD 1500) /\
     exists teamId installationId,
       rows w' !! "windsurfAuthStatus"%string =
         Some (SqlText (stringify (authStatus account teamId))) /\
       rows w' !! "codeium.windsurf"%string =
         Some (SqlText (stringify (codeiumConfig account installationId))) /\
       rows w' !! "codeium.windsurf-windsurf_auth"%string =
         Some (SqlText (name account))).
Proof.
  intros Hp Hr He Hf.
  destruct (switchAccount_patched account w r Hp Hr He) as (w1 & H1 & ->).
  apply host_fields in H1 as (Hdb & _ & Hcf).
  unfold try_catch at 1 2, injectSession, bind at 1, executeCommand, bind at 1.
  cbn [effect modify fst snd]. unfold bind at 1, gets.
  change (command_fault (add_effect _ w1) INJECT) with (command_fault w1 INJECT).
  rewrite Hcf, Hf. cbn [throw].
  lazymatch goal with
  | |- context [fallback account ?e ?W] =>
      destruct (fallback_run account e W) as (w2 & E & Hok);
      change (db W) with (db w1) in *; rewrite E
  end.
  rewrite Hdb in *.
  destruct (fallback_fault (db w)) as [msg|].
  - eexists. split; [reflexivity | discriminate].
  - exists w2. split; [reflexivity | exact Hok].
Qed.

Lemma switchAccount_fallback_witness :
  let w := Sample.with_fault INJECT "command 'windsurf.provideAuthTokenToAuthProviderWithShit' not found"
             Sample.world in
  (patch w = inr Sample.patched /\
   WindsurfPatchService.needsRestart Sample.patched = false /\
   truthy (WindsurfPatchService.error Sample.patched) = None /\
   command_fault w INJECT =
     Some "command 'windsurf.provideAuthTokenToAuthProviderWithShit' not found"%string) /\
  exists w',
    switchAccount Sample.alice w =
      (Return {| success := true; error := None; needsRestart := None |}, w') /\
    (fallback_fault (db w) = None ->
     last (effects w') = Some (SetTimeoutCommand RELOAD 1500) /\
     exists teamId installationId,
       rows w' !! "windsurfAuthStatus"%string =
         Some (SqlText (stringify (authStatus Sample.alice teamId))) /\
       rows w' !! "codeium.windsurf"%string =
         Some (SqlText (stringify (codeiumConfig Sample.alice installationId))) /\
       rows w' !! "codeium.windsurf-windsurf_auth"%string =
         Some (SqlText (name Sample.alice))).
Proof.
  cbv zeta. split; [repeat split; reflexivity|].
  apply (switchAccount_fallback Sample.alice
           (Sample.with_fault INJECT
              "command 'windsurf.provideAuthTokenToAuthProviderWithShit' not found"
              Sample.world)
           Sample.patched
           "command 'windsurf.provideAuthTokenToAuthProviderWithShit' not found");
    reflexivity.
Defined.

(** The live path: the patch is in place, the injection goes through
    and so do the three writes; [switchAccount] ends on the notice of the
    switch and returns [success: true], whatever the logout command and
    the identity reset did before. *)
Theorem switchAccount_live account w r :
  patch w = inr r -> WindsurfPatchService.needsRestart r = false ->
  truthy (WindsurfPatchService.error r) = None ->
  command_fault w INJECT = None -> fallback_fault (db w) = None ->
  exists w',
    switchAccount account w =
      (Return {| success := true; error := None; needsRestart := None |}, w') /\
    last (effects w') =
      Some (ShowInformationMessage ("账号已切换到: " +:+ email account)) /\
    exists teamId,
      rows w' !! "windsurfAuthStatus"%string =
        Some (SqlText (stringify (authStatus account teamId))).
Proof.
  intros Hp Hr He Hf Hok.
  destruct (switchAccount_patched account w r Hp Hr He) as (w1 & H1 & ->).
  apply host_fields in H1 as (Hdb & _ & Hcf).
  unfold try_catch at 1 2, injectSession, bind at 1, executeCommand, bind at 1.
  cbn [effect modify fst snd]. unfold bind at 1, gets.
  change (command_fault (add_effect _ w1) INJECT) with (command_fault w1 INJECT).
  rewrite Hcf, Hf. cbn [ret]. unfold bind at 1. cbn [log bind modify console_log fst snd].
  unfold bind at 1.
  lazymatch goal with
  | |- context [writeAuthData account ?W] =>
      destruct (writeAuthData_run account W) as (w2 & E & Hrec & _);
      change (db W) with (db w1) in *; rewrite Hdb, Hok in *; rewrite E
  end.
  destruct (Hrec eq_refl) as (teamId & _ & Hrow & _).
  eexists. split; [reflexivity|]. split.
  - cbn. apply last_snoc.
  - exists teamId. exact Hrow.
Qed.

Lemma switchAccount_live_witness :
  (patch Sample.world = inr Sample.patched /\
   WindsurfPatchService.needsRestart Sample.patched = false /\
   truthy (WindsurfPatchService.error Sample.patched) = None /\
   command_fault Sample.world INJECT = None /\
   fallback_fault (db Sample.world) = None) /\
  exists w',
    switchAccount Sample.alice Sample.world =
      (Return {| success := true; error := None; needsRestart := None |}, w') /\
    last (effects w') =
      Some (ShowInformationMessage ("账号已切换到: " +:+ email Sample.alice)) /\
    exists teamId,
      rows w' !! "windsurfAuthStatus"%string =
        Some (SqlText (stringify (authStatus Sample.alice teamId))).
Proof.
  split; [repeat split; reflexivity|].
  apply (switchAccount_live Sample.alice Sample.world Sample.patched); reflexivity.
Defined.

(** A patch check that reports an error ends the switch with it. *)
Theorem switchAccount_patch_error account w r e :
  patch w = inr r -> WindsurfPatchService.needsRestart r = false ->
  truthy (WindsurfPatchService.error r) = Some e ->
  exists w',
    switchAccount account w =
      (Return {| success := false; error := Some e; needsRestart := None |}, w') /\
    effects w' = effects w /\ db w' = db w /\ storage w' = storage w.
Proof.
  intros Hp Hr He. destruct w as [pl d st en dr pa cf ef out con].
  cbn in Hp. subst pa.
  unfold switchAccount, try_catch, bind, checkAndApplyPatch. cbn.
  rewrite Hr, He. cbn. eexists. split; [reflexivity|]. repeat split.
Qed.

Lemma switchAccount_patch_error_witness :
  let r := {| WindsurfPatchService.needsRestart := false;
              WindsurfPatchService.error := Some "extension.js not found"%string |} in
  let w := Sample.with_patch (inr r) Sample.world in
  (patch w = inr r /\ WindsurfPatchService.needsRestart r = false /\
   truthy (WindsurfPatchService.error r) = Some "extension.js not found"%string) /\
  exists w',
    switchAccount Sample.alice w =
      (Return {| success := false; error := Some "extension.js not found"%string;
                 needsRestart := None |}, w') /\
    effects w' = effects w /\ db w' = db w /\ storage w' = storage w.
Proof.
  cbv zeta. split; [repeat split; reflexivity|].
  apply (switchAccount_patch_error Sample.alice
           (Sample.with_patch
              (inr {| WindsurfPatchService.needsRestart := false;
                      WindsurfPatchService.error := Some "extension.js not found"%string |})
              Sample.world)
           {| WindsurfPatchService.needsRestart := false;
              WindsurfPatchService.error := Some "extension.js not found"%string |});
    reflexivity.
Defined.

(** C2, where the code departs from it: the injection succeeds, the
    database image does not load, and [switchAccount] reports failure.
    The write after the injection stands inside the [try] whose [catch]
    is the fallback, so its error is retried there and, failing again,
    reaches the outermost [catch]. *)
Theorem switchAccount_injected_but_failed account w r why :
  patch w = inr r -> WindsurfPatchService.needsRestart r = false ->
  truthy (WindsurfPatchService.error r) = None ->
  command_fault w INJECT = None ->
  load_error w = Some why ->
  fst (switchAccount account w) =
    Return {| success := false; error := Some why; needsRestart := None |}.
Proof.
  intros Hp Hr He Hf Hl.
  destruct (switchAccount_patched account w r Hp Hr He) as (w1 & H1 & ->).
  apply host_fields in H1 as (Hdb & _ & Hcf).
  assert (Hff : forall W, db W = db w -> fallback_fault (db W) = Some why).
  { intros W ->. unfold fallback_fault. unfold load_error in Hl.
    destruct (on_disk (db w)); congruence. }
  unfold try_catch at 1 2, injectSession, bind at 1, executeCommand, bind at 1.
  cbn [effect modify fst snd]. unfold bind at 1, gets.
  change (command_fault (add_effect _ w1) INJECT) with (command_fault w1 INJECT).
  rewrite Hcf, Hf. cbn [ret]. unfold bind at 1. cbn [log bind modify console_log fst snd].
  unfold bind at 1.
  lazymatch goal with
  | |- context [writeAuthData account ?W] =>
      destruct (writeAuthData_run account W) as (w2 & E & _ & Hkeep);
      assert (Hdb2 : db w2 = db w)
        by (rewrite Hkeep;
            [exact Hdb
            | unfold load_error in *; change (db W) with (db w1);
              rewrite Hdb; congruence]);
      rewrite (Hff W Hdb) in E; rewrite E
  end.
  destruct (fallback_run account (Error why) w2) as (w3 & E3 & _).
  rewrite (Hff w2 Hdb2) in E3. rewrite E3. reflexivity.
Qed.

(** The same on a sample host: no [state.vscdb], every command works. *)
Lemma switchAccount_injected_but_failed_witness :
  let w := Sample.with_db (File (Unreadable "ENOENT: no such file or directory") [])
             Sample.world in
  (patch w = inr Sample.patched /\
   WindsurfPatchService.needsRestart Sample.patched = false /\
   truthy (WindsurfPatchService.error Sample.patched) = None /\
   command_fault w INJECT = None /\
   load_error w = Some "ENOENT: no such file or directory"%string) /\
  fst (switchAccount Sample.alice w) =
  Return {| success := false; error := Some "ENOENT: no such file or directory";
            needsRestart := None |}.
Proof.
  cbv zeta. split; [repeat split; reflexivity|].
  apply (switchAccount_injected_but_failed Sample.alice
           (Sample.with_db (File (Unreadable "ENOENT: no such file or directory") [])
              Sample.world)
           Sample.patched); reflexivity.
Defined.

End Switch.

(** ** Identity reset *)

Section Identity.

Import MachineIdResetter.

#[local] Arguments String.append : simpl never.
#[local] Arguments text : simpl never.
#[local] Arguments print_Z : simpl never.
#[local] Arguments stringify : simpl never.
#[local] Arguments Pretty.stringify_indent : simpl never.
#[local] Arguments JSON.parse : simpl never.
#[local] Arguments SHA2.hex : simpl never.
#[local] Arguments SHA2.sha256 : simpl never.
#[local] Arguments SHA2.sha512 : simpl never.
#[local] Arguments uuid_format : simpl never.
#[local] Arguments uuid_bytes : simpl never.
#[local] Arguments toUpperCase : simpl never.

Lemma generateMachineIds_run w :
  generateMachineIds w =
  (Return (ids_at w), set_drawn (drawn w + 32 + 64 + 16 + 16 + 16) w).
Proof. reflexivity. Qed.

(** Reading the document never throws and writes nothing. *)
Lemma read_document_run w :
  exists w1,
    try_catch
      (content <- read_storage ;;
       match JSON.parse content with
       | Some data => ret data
       | None => throw (Error "Unexpected token in JSON")
       end)
      (fun _ =>
         console_log "[MachineIdResetter] storage.json 不存在或格式错误，创建新文件" ;;
         ret (JObj [])) w = (Return (document w), w1) /\
    storage w1 = storage w /\ effects w1 = effects w /\ platform w1 = platform w /\
    db w1 = db w /\ drawn w1 = drawn w.
Proof.
  unfold try_catch, bind, read_storage, document.
  destruct (on_disk (storage w)) as [why|content].
  - eexists. split; [reflexivity|]. repeat split.
  - destruct (JSON.parse content) as [data|].
    + eexists. split; [reflexivity|]. repeat split.
    + eexists. split; [reflexivity|]. repeat split.
Qed.

(** One turn of the retry loop. *)
Lemma write_attempts_step n i content last w :
  exists w1,
    write_attempts (S n) i content last w =
      match fault_at 0 (storage w) with
      | None => (Return None, w1)
      | Some e => write_attempts n (i + 1) content (Some (Error e)) w1
      end /\
    effects w1 = effects w ++ (if 0 <? i then [Sleep (500 * (i + 1))] else []) ++
                 [WriteStorage match fault_at 0 (storage w) with
                               | None => true
                               | Some _ => false
                               end] /\
    storage w1 = snd (write_attempt (storage w) content) /\
    db w1 = db w /\ drawn w1 = drawn w /\ platform w1 = platform w.
Proof.
  destruct w as [pl d [sd faults] en dr pa cf ef out con].
  unfold fault_at. cbn [storage write_faults nth_error].
  cbn [write_attempts]. unfold bind at 1, try_catch, bind at 1.
  destruct (0 <? i); cbn [effect modify ret fst snd];
    unfold bind, write_storage, write_attempt;
    cbn [storage write_faults on_disk add_effect];
    destruct faults as [|[e|] later]; cbn;
    (eexists; split; [reflexivity|]); cbn; rewrite <- ?app_assoc;
    repeat split; reflexivity.
Qed.

(** The retry loop, by the fate of the first three writes. *)
Lemma write_attempts_run content w :
  exists w',
    write_attempts maxRetries 0 content None w =
      (Return (Error <$> retry_error (storage w)), w') /\
    effects w' = effects w ++ retry_trace (storage w) /\
    on_disk (storage w') =
      match retry_error (storage w) with
      | Some _ => on_disk (storage w)
      | None => Stored content
      end /\
    db w' = db w /\ drawn w' = drawn w /\ platform w' = platform w.
Proof.
  unfold maxRetries, retry_error, retry_trace.
  destruct (write_attempts_step 2 0 content None w)
    as (w1 & -> & Hef1 & Hst1 & Hdb1 & Hdr1 & Hpl1).
  change (0 <? 0) with false in Hef1. cbn [app] in Hef1.
  destruct (fault_at 0 (storage w)) as [e1|] eqn:F0.
  2:{ exists w1. split; [reflexivity|]. rewrite Hst1, on_disk_after by exact F0.
      repeat split; assumption. }
  destruct (write_attempts_step 1 (0 + 1) content (Some (Error e1)) w1)
    as (w2 & -> & Hef2 & Hst2 & Hdb2 & Hdr2 & Hpl2).
  change (0 <? 0 + 1) with true in Hef2. cbn [app] in Hef2.
  rewrite Hst1, fault_at_after in *.
  destruct (fault_at 1 (storage w)) as [e2|] eqn:F1.
  2:{ exists w2. split; [reflexivity|]. rewrite Hst2, on_disk_after
        by (rewrite fault_at_after; exact F1).
      rewrite Hef2, Hef1, <- app_assoc. repeat split; congruence. }
  destruct (write_attempts_step 0 (0 + 1 + 1) content (Some (Error e2)) w2)
    as (w3 & -> & Hef3 & Hst3 & Hdb3 & Hdr3 & Hpl3).
  change (0 <? 0 + 1 + 1) with true in Hef3. cbn [app] in Hef3.
  rewrite Hst2, !fault_at_after in *.
  destruct (fault_at 2 (storage w)) as [e3|] eqn:F2.
  - exists w3. split; [reflexivity|].
    rewrite Hef3, Hef2, Hef1, <- !app_assoc. rewrite Hst3.
    split; [reflexivity|]. split; [|repeat split; congruence].
    unfold write_attempt. destruct (storage w) as [sd faults].
    unfold fault_at in F0, F1, F2. cbn in *.
    destruct faults as [|[?|] [|[?|] [|[?|] ?]]]; try discriminate; reflexivity.
  - exists w3. split; [reflexivity|].
    rewrite Hef3, Hef2, Hef1, <- !app_assoc. rewrite Hst3.
    split; [reflexivity|]. split; [|repeat split; congruence].
    apply on_disk_after. rewrite !fault_at_after. exact F2.
Qed.

Lemma set_property_run props key value w :
  set_property (JObj props) key value w = (Return (JObj (obj_set key value props)), w).
Proof. reflexivity. Qed.

Lemma gets_run {A} (f : World -> A) w : gets f w = (Return (f w), w).
Proof. reflexivity. Qed.

Lemma set_if_run (b : bool) props key value w :
  (if b then set_property (JObj props) key value else ret (JObj props)) w =
  (Return (JObj (if b then obj_set key value props else props)), w).
Proof. destruct b; reflexivity. Qed.

(** [resetMachineId] on a document that is an object. *)
Lemma resetMachineId_run w props :
  document w = JObj props ->
  exists w',
    resetMachineId w =
      (match retry_error (storage w) with
       | Some e => Throw (Error ("重置机器 ID 失败: " +:+ e))
       | None => Return (ids_at w)
       end, w') /\
    effects w' = effects w ++ retry_trace (storage w) /\
    on_disk (storage w') =
      match retry_error (storage w) with
      | Some _ => on_disk (storage w)
      | None =>
          Stored (Pretty.stringify_indent 2
                    (JObj (identity_props (platform w) (ids_at w) props)))
      end /\
    db w' = db w.
Proof.
  intros Hdoc. unfold resetMachineId.
  rewrite (bind_ret_run _ _ _ _ _ (generateMachineIds_run w)).
  set (w0 := set_drawn _ w). set (ids := ids_at w).
  assert (Hdoc0 : document w0 = JObj props) by exact Hdoc.
  destruct (read_document_run w0) as (w1 & E1 & Hst1 & Hef1 & Hpl1 & Hdb1 & _).
  unfold try_catch at 1.
  rewrite (bind_ret_run _ _ _ _ _ E1). rewrite Hdoc0.
  rewrite (bind_ret_run _ _ _ _ _ (set_property_run _ _ _ _)).
  rewrite (bind_ret_run _ _ _ _ _ (set_property_run _ _ _ _)).
  rewrite (bind_ret_run _ _ _ _ _ (set_property_run _ _ _ _)).
  rewrite (bind_ret_run _ _ _ _ _ (gets_run _ _)).
  rewrite (bind_ret_run _ _ _ _ _ (set_if_run _ _ _ _ _)).
  cbv beta. rewrite Hpl1. change (platform w0) with (platform w).
  lazymatch goal with
  | |- context [write_attempts maxRetries 0 ?content None] =>
      destruct (write_attempts_run content w1) as (w2 & E2 & Hef2 & Hst2 & Hdb2 & _)
  end.
  rewrite (bind_ret_run _ _ _ _ _ E2).
  rewrite Hst1 in *. change (storage w0) with (storage w) in *.
  exists w2. split; [|split; [|split]].
  - destruct (retry_error (storage w)); reflexivity.
  - rewrite Hef2, Hef1. reflexivity.
  - rewrite Hst2. destruct (retry_error (storage w)); reflexivity.
  - rewrite Hdb2, Hdb1. reflexivity.
Qed.

Lemma starts_from_document w props : starts_from w props -> document w = JObj props.
Proof.
  unfold document. intros [why H | content H Hp | content props' H Hp]; rewrite H;
    [reflexivity | now rewrite Hp | now rewrite Hp].
Qed.

Lemma obj_get_set_eq k v props : obj_get k (obj_set k v props) = Some v.
Proof.
  induction props as [|[k' v'] props IH]; cbn [obj_set obj_get].
  - now rewrite String.eqb_refl.
  - destruct (String.eqb k k') eqn:E; cbn [obj_get]; rewrite E; [reflexivity | exact IH].
Qed.

Lemma obj_get_set_ne k k' v props :
  k <> k' -> obj_get k' (obj_set k v props) = obj_get k' props.
Proof.
  intros Hne. induction props as [|[k0 v0] props IH]; cbn [obj_set obj_get].
  - destruct (String.eqb_spec k' k); [congruence | reflexivity].
  - destruct (String.eqb_spec k k0) as [->|Hk]; cbn [obj_get].
    + destruct (String.eqb_spec k' k0); [congruence | reflexivity].
    + destruct (String.eqb k' k0); [reflexivity | exact IH].
Qed.

Lemma set_property_array items key value w :
  set_property (JArr items) key value w = (Return (JArr items), w).
Proof. reflexivity. Qed.

Lemma set_if_array (b : bool) items key value w :
  (if b then set_property (JArr items) key value else ret (JArr items)) w =
  (Return (JArr items), w).
Proof. destruct b; reflexivity. Qed.

(** [resetMachineId] on a document that is an array: the assignments
    leave nothing that [JSON.stringify] prints. *)
Lemma resetMachineId_run_array w items :
  document w = JArr items ->
  exists w',
    resetMachineId w =
      (match retry_error (storage w) with
       | Some e => Throw (Error ("重置机器 ID 失败: " +:+ e))
       | None => Return (ids_at w)
       end, w') /\
    effects w' = effects w ++ retry_trace (storage w) /\
    on_disk (storage w') =
      match retry_error (storage w) with
      | Some _ => on_disk (storage w)
      | None => Stored (Pretty.stringify_indent 2 (JArr items))
      end.
Proof.
  intros Hdoc. unfold resetMachineId.
  rewrite (bind_ret_run _ _ _ _ _ (generateMachineIds_run w)).
  set (w0 := set_drawn _ w). set (ids := ids_at w).
  assert (Hdoc0 : document w0 = JArr items) by exact Hdoc.
  destruct (read_document_run w0) as (w1 & E1 & Hst1 & Hef1 & Hpl1 & Hdb1 & _).
  unfold try_catch at 1.
  rewrite (bind_ret_run _ _ _ _ _ E1). rewrite Hdoc0.
  rewrite (bind_ret_run _ _ _ _ _ (set_property_array _ _ _ _)).
  rewrite (bind_ret_run _ _ _ _ _ (set_property_array _ _ _ _)).
  rewrite (bind_ret_run _ _ _ _ _ (set_property_array _ _ _ _)).
  rewrite (bind_ret_run _ _ _ _ _ (gets_run _ _)).
  rewrite (bind_ret_run _ _ _ _ _ (set_if_array _ _ _ _ _)).
  cbv beta.
  lazymatch goal with
  | |- context [write_attempts maxRetries 0 ?content None] =>
      destruct (write_attempts_run content w1) as (w2 & E2 & Hef2 & Hst2 & Hdb2 & _)
  end.
  rewrite (bind_ret_run _ _ _ _ _ E2).
  rewrite Hst1 in *. change (storage w0) with (storage w) in *.
  exists w2. split; [|split].
  - destruct (retry_error (storage w)); reflexivity.
  - rewrite Hef2, Hef1. reflexivity.
  - rewrite Hst2. destruct (retry_error (storage w)); reflexivity.
Qed.

(** [resetMachineId] on a document that is neither an object nor an
    array: the first assignment throws. *)
Lemma resetMachineId_run_primitive w d :
  document w = d -> primitive d = true ->
  exists msg w',
    resetMachineId w = (Throw (Error ("重置机器 ID 失败: " +:+ msg)), w') /\
    storage w' = storage w /\ effects w' = effects w.
Proof.
  intros Hdoc Hprim. unfold resetMachineId.
  rewrite (bind_ret_run _ _ _ _ _ (generateMachineIds_run w)).
  set (w0 := set_drawn _ w).
  assert (Hdoc0 : document w0 = d) by exact Hdoc.
  destruct (read_document_run w0) as (w1 & E1 & Hst1 & Hef1 & _).
  unfold try_catch at 1.
  rewrite (bind_ret_run _ _ _ _ _ E1). rewrite Hdoc0.
  destruct d as [ | b | z | literal | s | l | l ]; try discriminate;
    (eexists; exists w1; split; [reflexivity | split; assumption]).
Qed.

(** C5 (amended): the document write is tried at most three times, with
    a pause of 500 ms times the attempt number before the second and the
    third try; [resetMachineId] returns the identifiers as soon as one
    try succeeds, and when all three fail it throws a new error whose
    message is the last try's message behind the prefix of the module.
    This is so whenever the document is an object or an array (an absent
    file and one that is not JSON give the empty object); any other
    document takes no property, and the reset throws before the first
    try. *)
Theorem resetMachineId_retries w :
  (primitive (document w) = false ->
   fst (resetMachineId w) =
     match retry_error (storage w) with
     | Some e3 => Throw (Error ("重置机器 ID 失败: " +:+ e3))
     | None => Return (ids_at w)
     end /\
   effects (snd (resetMachineId w)) = effects w ++
     match fault_at 0 (storage w), fault_at 1 (storage w), fault_at 2 (storage w) with
     | None, _, _ => [WriteStorage true]
     | Some _, None, _ => [WriteStorage false; Sleep (500 * 2); WriteStorage true]
     | Some _, Some _, None =>
         [WriteStorage false; Sleep (500 * 2); WriteStorage false; Sleep (500 * 3);
          WriteStorage true]
     | Some _, Some _, Some _ =>
         [WriteStorage false; Sleep (500 * 2); WriteStorage false; Sleep (500 * 3);
          WriteStorage false]
     end) /\
  (primitive (document w) = true ->
   (exists msg, fst (resetMachineId w) = Throw (Error ("重置机器 ID 失败: " +:+ msg))) /\
   effects (snd (resetMachineId w)) = effects w).
Proof.
  split; intros Hkind.
  - destruct (document w) as [ | b | z | literal | s | items | props ] eqn:Hdoc;
      try discriminate.
    + destruct (resetMachineId_run_array w items Hdoc) as (w' & -> & Hef & _).
      split; [reflexivity | exact Hef].
    + destruct (resetMachineId_run w props Hdoc) as (w' & -> & Hef & _).
      split; [reflexivity | exact Hef].
  - destruct (resetMachineId_run_primitive w _ eq_refl Hkind) as (msg & w' & -> & _ & Hef).
    split; [exists msg; reflexivity | exact Hef].
Qed.

Lemma resetMachineId_retries_witness :
  let w := Sample.with_storage
             (File (Stored "{}") [Some "EBUSY: resource busy or locked"%string;
                                  Some "EBUSY: resource busy or locked"%string])
             Sample.world in
  primitive (document w) = false /\
  fst (resetMachineId w) = Return (ids_at w) /\
  effects (snd (resetMachineId w)) =
    [WriteStorage false; Sleep 1000; WriteStorage false; Sleep 1500; WriteStorage true].
Proof.
  cbv zeta. split; [reflexivity|].
  apply (resetMachineId_retries
           (Sample.with_storage
              (File (Stored "{}") [Some "EBUSY: resource busy or locked"%string;
                                   Some "EBUSY: resource busy or locked"%string])
              Sample.world)).
  reflexivity.
Defined.

(** C5, as stated, fails: after three failed tries the caller gets
    neither the first error nor the last one as it was, but a new error
    with a prefixed message. *)
Lemma resetMachineId_retries_counterexample :
  fst (resetMachineId
         (Sample.with_storage
            (File (Stored "{}") [Some "first"%string; Some "second"%string;
                                 Some "third"%string])
            Sample.world)) =
  Throw (Error "重置机器 ID 失败: third").
Proof. vm_compute. reflexivity. Qed.

Lemma identity_props_plain pl ids props :
  plain (JObj props) = true -> plain (JObj (identity_props pl ids props)) = true.
Proof.
  assert (Hset : forall k s o, plain (JObj o) = true ->
                               plain (JObj (obj_set k (JStr s) o)) = true).
  { intros k s o. cbn [plain]. intros [Hd Hp]%andb_true_iff.
    now rewrite obj_set_distinct, obj_set_plain. }
  intros Hp. unfold identity_props.
  destruct (String.eqb pl "darwin"); repeat apply Hset; exact Hp.
Qed.




(** The digests on the test message of FIPS 180-4. *)
Example sha_abc :
  SHA2.hex (SHA2.sha256 [Byte.x61; Byte.x62; Byte.x63]) =
    "ba7816bf8f01cfea414140de5dae2223b00361a396177a9cb410ff61f20015ad"%string /\
  SHA2.hex (SHA2.sha512 [Byte.x61; Byte.x62; Byte.x63]) =
    ("ddaf35a193617abacc417349ae20413112e6fa4e89a97ea20a9eeee64b55d39a" +:+
     "2192992a274fc1a836ba3c23a3feebbd454d4423643ce80e2a9ac94fa54ca49f")%string.
Proof. split; vm_compute; reflexivity. Qed.

(** *** The shapes of the identifiers *)






























(** Two successive calls on the sample source: the digests differ. *)
Example generateMachineIds_twice :
  let w := Sample.world in
  machineId <$> returned (generateMachineIds w) <>
  machineId <$> returned (generateMachineIds (snd (generateMachineIds w))).
Proof. vm_compute. discriminate. Qed.

End Identity.

(** ** The store engine: edges and compositions *)

Section StoreEdges.

Import DatabaseHelper.

#[local] Arguments JSON.parse : simpl never.
#[local] Arguments stringify : simpl never.
#[local] Arguments String.append : simpl never.
#[local] Arguments text : simpl never.
#[local] Arguments print_Z : simpl never.

(** [readFromDB] only reads: it changes neither file and does nothing
    to the host; and once the image has loaded, a key that has no row
    reads as [null]. *)
Theorem readFromDB_reads_only key w :
  db (snd (readFromDB key w)) = db w /\
  storage (snd (readFromDB key w)) = storage w /\
  effects (snd (readFromDB key w)) = effects w /\
  (load_error w = None -> rows w !! key = None ->
   fst (readFromDB key w) = Return js_null).
Proof.
  unfold readFromDB, try_catch, bind, read_db, load_error, rows.
  destruct (on_disk (db w)) as [why|t].
  - repeat split.
  - destruct (t !! key) as [[ | z | s | bs ]|] eqn:E; cbn [fst snd].
    1,2,4,5: repeat split; try congruence.
    destruct (JSON.parse s); repeat split; congruence.
Qed.

(** A [writeToDB] that goes through leaves every other key reading as
    before. *)
Theorem writeToDB_other_keys key value w k :
  nullish value = false -> load_error w = None -> write_error w = None ->
  k <> key ->
  fst (readFromDB k (snd (writeToDB key value w))) = fst (readFromDB k w).
Proof.
  intros Hn Hl Hw Hk.
  assert (exists t, on_disk (db w) = Stored t) as [t Ht].
  { unfold load_error in Hl. destruct (on_disk (db w)); [discriminate | eauto]. }
  destruct (writeToDB_run key value w t Hn Ht Hw) as (w' & -> & Hd & _).
  cbn [snd]. rewrite (readFromDB_run k w' _ Hd), (readFromDB_run k w _ Ht).
  now rewrite lookup_insert_ne by congruence.
Qed.

Lemma writeToDB_other_keys_witness :
  let w := Sample.with_db (File (Stored Sample.three_rows) []) Sample.world in
  let value := JsData (JStr "new") in
  (nullish value = false /\ load_error w = None /\ write_error w = None /\
   "bar.c"%string <> "foo.a"%string) /\
  fst (readFromDB "bar.c" (snd (writeToDB "foo.a" value w))) = fst (readFromDB "bar.c" w).
Proof.
  cbv zeta. split; [repeat split; discriminate|].
  apply (writeToDB_other_keys "foo.a" (JsData (JStr "new"))
           (Sample.with_db (File (Stored Sample.three_rows) []) Sample.world) "bar.c");
    try reflexivity; discriminate.
Defined.

(** A [writeToDB] that is refused before its write, for a [null] or
    [undefined] value or for an image that does not load, throws and has
    changed neither file. *)
Theorem writeToDB_refused key value w :
  nullish value = true \/ load_error w <> None ->
  (exists e, fst (writeToDB key value w) = Throw e) /\
  db (snd (writeToDB key value w)) = db w /\
  storage (snd (writeToDB key value w)) = storage w.
Proof.
  destruct w as [pl [d faults] st en dr pa cf ef out con].
  unfold writeToDB, try_catch, bind, load_error. cbn [on_disk db].
  destruct (nullish value); [intros _; repeat split; eexists; reflexivity|].
  destruct d as [why|t]; [intros _; repeat split; eexists; reflexivity|].
  intros [H|H]; congruence.
Qed.

Lemma writeToDB_refused_witness :
  let w := Sample.with_db (File (Stored Sample.three_rows) []) Sample.world in
  nullish JsUndefined = true /\
  fst (writeToDB "foo.a" JsUndefined w) =
    Throw (Error "Cannot write null/undefined value to key: foo.a") /\
  db (snd (writeToDB "foo.a" JsUndefined w)) = db w /\
  storage (snd (writeToDB "foo.a" JsUndefined w)) = storage w.
Proof.
  cbv zeta. split; [reflexivity|]. split; [reflexivity|].
  apply (writeToDB_refused "foo.a" JsUndefined
           (Sample.with_db (File (Stored Sample.three_rows) []) Sample.world)).
  left. reflexivity.
Defined.

(** Of two writes to the same key the later one is read back, and the
    key still has one row; stated, as the round trip is, for a later
    value that is followed to the letter. *)
Theorem writeToDB_overwrites key v1 v2 w :
  nullish v1 = false -> nullish v2 = false -> exact_value v2 = true ->
  load_error w = None -> fault_at 0 (db w) = None -> fault_at 1 (db w) = None ->
  let w1 := snd (writeToDB key v1 w) in
  let w2 := snd (writeToDB key v2 w1) in
  fst (readFromDB key w2) = Return (read_back v2) /\
  size (rows w2) = size (rows w1).
Proof.
  intros Hn1 Hn2 Hp Hl F0 F1. cbv zeta.
  assert (exists t, on_disk (db w) = Stored t) as [t Ht].
  { unfold load_error in Hl. destruct (on_disk (db w)); [discriminate | eauto]. }
  destruct (writeToDB_run key v1 w t Hn1 Ht F0) as (w1 & -> & Hd1 & Hf1 & _).
  cbn [snd].
  assert (Hw1 : write_error w1 = None).
  { unfold write_error, fault_at in *. rewrite Hf1.
    destruct (write_faults (db w)) as [|x l]; [reflexivity | exact F1]. }
  destruct (writeToDB_run key v2 w1 _ Hn2 Hd1 Hw1) as (w2 & -> & Hd2 & _).
  cbn [snd]. split.
  - rewrite (readFromDB_run key w2 _ Hd2), lookup_insert_eq.
    f_equal. now apply finalValue_parse.
  - unfold rows. rewrite Hd1, Hd2. rewrite insert_insert_eq.
    destruct (t !! key) as [x|] eqn:E.
    + rewrite !map_size_insert_Some; eauto.
    + now rewrite !map_size_insert_None.
Qed.

Lemma writeToDB_overwrites_witness :
  let v1 := JsData (JStr "first") in
  let v2 := JsData (JObj [("n"%string, JNum 2)]) in
  let w := Sample.world in
  (nullish v1 = false /\ nullish v2 = false /\ exact_value v2 = true /\
   load_error w = None /\ fault_at 0 (db w) = None /\ fault_at 1 (db w) = None) /\
  fst (readFromDB "k" (snd (writeToDB "k" v2 (snd (writeToDB "k" v1 w))))) =
    Return (read_back v2) /\
  size (rows (snd (writeToDB "k" v2 (snd (writeToDB "k" v1 w))))) =
    size (rows (snd (writeToDB "k" v1 w))).
Proof.
  cbv zeta. split; [repeat split|].
  apply (writeToDB_overwrites "k" (JsData (JStr "first"))
           (JsData (JObj [("n"%string, JNum 2)])) Sample.world); reflexivity.
Defined.

Lemma deleteByPattern_run pattern w t :
  on_disk (db w) = Stored t -> write_error w = None ->
  exists w' t',
    deleteByPattern pattern w =
      (Return (Z.of_nat (length (select_like pattern t))), w') /\
    on_disk (db w') = Stored t' /\
    write_faults (db w') = tail (write_faults (db w)) /\
    (forall k, t' !! k = if decide (k ∈ select_like pattern t) then None else t !! k).
Proof.
  intros Ht Hw.
  destruct (delete_rows_spec (select_like pattern t) t 0) as (Hl & Hc & _).
  { unfold select_like. apply NoDup_filter, NoDup_fst_map_to_list. }
  { intros k Hk. now apply select_like_elem in Hk. }
  destruct w as [pl [d faults] st en dr pa cf ef out con].
  cbn in Ht. subst d. unfold write_error, fault_at in Hw. cbn in Hw.
  unfold deleteByPattern, try_catch, bind, read_db. cbn [on_disk db].
  destruct (delete_rows (select_like pattern t) t 0) as [t' count] eqn:E.
  cbn [fst snd] in *. rewrite Z.add_0_l in Hc. subst count.
  destruct faults as [|[why|] later]; try discriminate; cbn;
    (eexists; exists t'; split; [reflexivity|]; cbn; repeat split; exact Hl).
Qed.

(** A pattern that matches no key deletes nothing: once the image loads
    and the rewrite goes through, [deleteByPattern] returns 0 and the
    table is as it was. *)
Theorem deleteByPattern_no_match pattern w t :
  on_disk (db w) = Stored t -> write_error w = None ->
  (forall k, is_Some (t !! k) -> LIKE k pattern = false) ->
  fst (deleteByPattern pattern w) = Return 0 /\
  rows (snd (deleteByPattern pattern w)) = t.
Proof.
  intros Ht Hw Hno.
  assert (Hnone : select_like pattern t = []).
  { apply elem_of_nil_inv. intros k [Hm Hx]%select_like_elem.
    rewrite (Hno k Hx) in Hm. discriminate. }
  destruct (deleteByPattern_run pattern w t Ht Hw) as (w1 & t1 & -> & Hd1 & _ & Hl1).
  rewrite Hnone in *. cbn [length fst snd]. split; [reflexivity|].
  unfold rows. rewrite Hd1. apply map_eq. intros k. rewrite Hl1.
  now rewrite decide_False by apply not_elem_of_nil.
Qed.

Lemma deleteByPattern_no_match_witness :
  let w := Sample.with_db (File (Stored Sample.three_rows) []) Sample.world in
  (on_disk (db w) = Stored Sample.three_rows /\ write_error w = None /\
   (forall k, is_Some (Sample.three_rows !! k) -> LIKE k "qux.%" = false)) /\
  fst (deleteByPattern "qux.%" w) = Return 0 /\
  rows (snd (deleteByPattern "qux.%" w)) = Sample.three_rows.
Proof.
  cbv zeta.
  assert (H : forall k, is_Some (Sample.three_rows !! k) -> LIKE k "qux.%" = false).
  { intros k [x Hx]. unfold Sample.three_rows in Hx.
    repeat (apply lookup_insert_Some in Hx as [[<- _]|[_ Hx]]; [reflexivity|]).
    now rewrite lookup_empty in Hx. }
  split; [split; [reflexivity | split; [reflexivity | exact H]]|].
  apply (deleteByPattern_no_match "qux.%"
           (Sample.with_db (File (Stored Sample.three_rows) []) Sample.world)
           Sample.three_rows); [reflexivity | reflexivity | exact H].
Defined.

(** Deleting by the same pattern again finds nothing: when both rewrites
    go through, the second call returns 0 and the table stays as the
    first one left it. *)
Theorem deleteByPattern_again pattern w :
  load_error w = None -> fault_at 0 (db w) = None -> fault_at 1 (db w) = None ->
  let w1 := snd (deleteByPattern pattern w) in
  fst (deleteByPattern pattern w1) = Return 0 /\
  rows (snd (deleteByPattern pattern w1)) = rows w1.
Proof.
  intros Hl F0 F1. cbv zeta.
  assert (exists t, on_disk (db w) = Stored t) as [t Ht].
  { unfold load_error in Hl. destruct (on_disk (db w)); [discriminate | eauto]. }
  destruct (deleteByPattern_run pattern w t Ht F0) as (w1 & t1 & -> & Hd1 & Hf1 & Hl1).
  cbn [snd].
  assert (Hnone : select_like pattern t1 = []).
  { apply elem_of_nil_inv. intros k [Hm [x Hx]]%select_like_elem.
    rewrite Hl1 in Hx. destruct (decide (k ∈ select_like pattern t)) as [|Hn];
      [discriminate|].
    apply Hn, select_like_elem. rewrite Hx. eauto. }
  assert (Hw1 : write_error w1 = None).
  { unfold write_error, fault_at in *. rewrite Hf1.
    destruct (write_faults (db w)) as [|x l]; [reflexivity | exact F1]. }
  destruct (deleteByPattern_run pattern w1 t1 Hd1 Hw1) as (w2 & t2 & -> & Hd2 & _ & Hl2).
  rewrite Hnone. cbn [length fst snd]. split; [reflexivity|].
  unfold rows. rewrite Hd1, Hd2. apply map_eq. intros k. rewrite Hl2, Hnone.
  now rewrite decide_False by apply not_elem_of_nil.
Qed.

Lemma deleteByPattern_again_witness :
  let w := Sample.with_db (File (Stored Sample.three_rows) []) Sample.world in
  (load_error w = None /\ fault_at 0 (db w) = None /\ fault_at 1 (db w) = None) /\
  fst (deleteByPattern "foo.%" (snd (deleteByPattern "foo.%" w))) = Return 0 /\
  rows (snd (deleteByPattern "foo.%" (snd (deleteByPattern "foo.%" w)))) =
    rows (snd (deleteByPattern "foo.%" w)).
Proof.
  cbv zeta. split; [repeat split|].
  apply (deleteByPattern_again "foo.%"
           (Sample.with_db (File (Stored Sample.three_rows) []) Sample.world));
    reflexivity.
Defined.

(** Deleting a key that has no row succeeds like any other deletion:
    once the image loads and the rewrite goes through, [deleteFromDB]
    returns [true], and the table is as it was. *)
Theorem deleteFromDB_absent_key key w t :
  on_disk (db w) = Stored t -> write_error w = None -> t !! key = None ->
  fst (deleteFromDB key w) = Return true /\
  rows (snd (deleteFromDB key w)) = t.
Proof.
  destruct w as [pl [d faults] st en dr pa cf ef out con].
  unfold deleteFromDB, try_catch, bind, read_db, write_error, fault_at, rows.
  cbn [on_disk db write_faults nth_error].
  intros -> Hw Hk.
  destruct faults as [|[why|] later]; cbn; try discriminate;
    (split; [reflexivity | now apply delete_id]).
Qed.

Lemma deleteFromDB_absent_key_witness :
  let w := Sample.with_db (File (Stored Sample.three_rows) []) Sample.world in
  (on_disk (db w) = Stored Sample.three_rows /\ write_error w = None /\
   Sample.three_rows !! "baz.d"%string = None) /\
  fst (deleteFromDB "baz.d" w) = Return true /\
  rows (snd (deleteFromDB "baz.d" w)) = Sample.three_rows.
Proof.
  cbv zeta. split; [repeat split|].
  apply (deleteFromDB_absent_key "baz.d"
           (Sample.with_db (File (Stored Sample.three_rows) []) Sample.world)
           Sample.three_rows); reflexivity.
Defined.

(** Writing a key that had no row and deleting it again gives back the
    table as it was. *)
Theorem deleteFromDB_undoes_write key value w :
  nullish value = false -> load_error w = None ->
  fault_at 0 (db w) = None -> fault_at 1 (db w) = None ->
  rows w !! key = None ->
  let w1 := snd (writeToDB key value w) in
  fst (deleteFromDB key w1) = Return true /\
  rows (snd (deleteFromDB key w1)) = rows w.
Proof.
  intros Hn Hl F0 F1 Hk. cbv zeta.
  assert (exists t, on_disk (db w) = Stored t) as [t Ht].
  { unfold load_error in Hl. destruct (on_disk (db w)); [discriminate | eauto]. }
  destruct (writeToDB_run key value w t Hn Ht F0) as (w1 & -> & Hd1 & Hf1 & _).
  cbn [snd].
  assert (Hw1 : fault_at 0 (db w1) = None).
  { unfold fault_at in *. rewrite Hf1.
    destruct (write_faults (db w)) as [|x l]; [reflexivity | exact F1]. }
  unfold rows in *. rewrite Ht in *.
  destruct w1 as [pl [d faults] st en dr pa cf ef out con].
  cbn in Hd1. subst d. unfold fault_at in Hw1. cbn in Hw1.
  unfold deleteFromDB, try_catch, bind, read_db. cbn [on_disk db].
  destruct faults as [|[why|] later]; try discriminate; cbn;
    (split; [reflexivity | now apply delete_insert_id]).
Qed.

Lemma deleteFromDB_undoes_write_witness :
  let w := Sample.with_db (File (Stored Sample.three_rows) []) Sample.world in
  let value := JsData (JStr "new") in
  (nullish value = false /\ load_error w = None /\ fault_at 0 (db w) = None /\
   fault_at 1 (db w) = None /\ rows w !! "baz.d"%string = None) /\
  fst (deleteFromDB "baz.d" (snd (writeToDB "baz.d" value w))) = Return true /\
  rows (snd (deleteFromDB "baz.d" (snd (writeToDB "baz.d" value w)))) = rows w.
Proof.
  cbv zeta. split; [repeat split|].
  apply (deleteFromDB_undoes_write "baz.d" (JsData (JStr "new"))
           (Sample.with_db (File (Stored Sample.three_rows) []) Sample.world));
    reflexivity.
Defined.

End StoreEdges.
(** ** The switch: what every outcome guarantees *)

Section SwitchOutcomes.

Import AccountManager AccountSwitcher.

#[local] Arguments String.append : simpl never.
#[local] Arguments text : simpl never.
#[local] Arguments print_Z : simpl never.
#[local] Arguments stringify : simpl never.
#[local] Arguments JSON.parse : simpl never.
#[local] Arguments substring0 : simpl never.

(** The session step under the outermost [catch] either reports success
    with the three records in the table, or failure with a message. *)
Lemma sessionStep_settles account w1 :
  exists o w',
    try_catch (try_catch (injectSession account) (fallback account)) switchFailed w1 =
      (Return o, w') /\
    ((success o = true /\ error o = None /\
      exists teamId installationId, on_record account teamId installationId (rows w')) \/
     (success o = false /\ exists msg, error o = Some msg)).
Proof.
  assert (Hfb : forall e W,
    exists o w',
      match fallback account e W with
      | (Return a, w') => (Return a, w')
      | (Throw e', w') => switchFailed e' w'
      end = (Return o, w') /\
      ((success o = true /\ error o = None /\
        exists teamId installationId, on_record account teamId installationId (rows w')) \/
       (success o = false /\ exists msg, error o = Some msg))).
  { intros e W. destruct (fallback_run account e W) as (w2 & E & Hok). rewrite E.
    destruct (fallback_fault (db W)) as [msg|].
    - eexists. eexists. split; [reflexivity|]. right. split; [reflexivity|]. eauto.
    - exists {| success := true; error := None; needsRestart := None |}, w2.
      split; [reflexivity|]. left. split; [reflexivity|]. split; [reflexivity|].
      destruct (Hok eq_refl) as (_ & teamId & installationId & H).
      exists teamId, installationId. exact H. }
  unfold try_catch at 1 2, injectSession, bind at 1, executeCommand, bind at 1.
  cbn [effect modify fst snd]. unfold bind at 1, gets.
  change (command_fault (add_effect _ w1) INJECT) with (command_fault w1 INJECT).
  destruct (command_fault w1 INJECT) as [why|].
  - cbn [throw]. apply Hfb.
  - cbn [ret]. unfold bind at 1. cbn [log bind modify console_log fst snd].
    unfold bind at 1.
    lazymatch goal with
    | |- context [writeAuthData account ?W] =>
        destruct (writeAuthData_run account W) as (w2 & E & Hrec & _); rewrite E;
        destruct (fallback_fault (db W)) as [msg|]
    end.
    + apply Hfb.
    + destruct (Hrec eq_refl) as (teamId & installationId & H).
      eexists. eexists. split; [reflexivity|]. left.
      split; [reflexivity|]. split; [reflexivity|].
      exists teamId, installationId. exact H.
Qed.

Lemma switchAccount_settles account w :
  exists o w',
    switchAccount account w = (Return o, w') /\
    ((success o = true /\ error o = None /\
      exists teamId installationId, on_record account teamId installationId (rows w')) \/
     (success o = false /\ exists msg, error o = Some msg)).
Proof.
  destruct (patch w) as [e|r] eqn:Hp.
  - destruct w as [pl d st en dr pa cf ef out con]. cbn in Hp. subst pa.
    unfold switchAccount, try_catch, bind, checkAndApplyPatch. cbn.
    eexists. eexists. split; [reflexivity|]. right. split; [reflexivity|]. eauto.
  - destruct (WindsurfPatchService.needsRestart r) eqn:Hr.
    { destruct w as [pl d st en dr pa cf ef out con]. cbn in Hp. subst pa.
      unfold switchAccount, try_catch, bind, checkAndApplyPatch. cbn. rewrite Hr. cbn.
      eexists. eexists. split; [reflexivity|]. right. split; [reflexivity|]. eauto. }
    destruct (truthy (WindsurfPatchService.error r)) as [msg|] eqn:He.
    { destruct w as [pl d st en dr pa cf ef out con]. cbn in Hp. subst pa.
      unfold switchAccount, try_catch, bind, checkAndApplyPatch. cbn. rewrite Hr, He. cbn.
      eexists. eexists. split; [reflexivity|]. right. split; [reflexivity|]. eauto. }
    destruct (switchAccount_patched account w r Hp Hr He) as (w1 & _ & ->).
    apply sessionStep_settles.
Qed.

(** [switchAccount] never throws: whatever the host does, it returns an
    outcome, and an outcome that is not a success carries the message of
    what went wrong. *)
Theorem switchAccount_never_throws account w :
  exists o,
    fst (switchAccount account w) = Return o /\
    (success o = true -> error o = None) /\
    (success o = false -> exists msg, error o = Some msg).
Proof.
  destruct (switchAccount_settles account w) as (o & w' & -> & H).
  exists o. split; [reflexivity|].
  destruct H as [(Hs & He & _) | (Hs & He)]; split; intros; congruence || assumption.
Qed.

Lemma authStatus_plain account teamId : plain (authStatus account teamId) = true.
Proof. reflexivity. Qed.

(** A switch that reports success has the three records of the account
    in the table, and [getCurrentAccount] then returns its auth status. *)
Theorem switchAccount_success_on_record account w o :
  fst (switchAccount account w) = Return o -> success o = true ->
  let w' := snd (switchAccount account w) in
  exists teamId installationId,
    on_record account teamId installationId (rows w') /\
    fst (getCurrentAccount w') =
      Return (DatabaseHelper.JsData (authStatus account teamId)).
Proof.
  cbv zeta. destruct (switchAccount_settles account w) as (o' & w' & -> & H).
  cbn [fst snd]. intros [= <-] Hs.
  destruct H as [(_ & _ & teamId & installationId & Hrec) | (Hf & _)]; [|congruence].
  exists teamId, installationId. split; [exact Hrec|].
  destruct Hrec as (H1 & _). unfold rows in H1.
  destruct (on_disk (db w')) as [why|t] eqn:Hd; [rewrite lookup_empty in H1; discriminate|].
  unfold getCurrentAccount, try_catch.
  pose proof (readFromDB_run "windsurfAuthStatus" w' t Hd) as Hr.
  destruct (DatabaseHelper.readFromDB "windsurfAuthStatus" w') as [[v|e] w2];
    cbn [fst] in *; [|discriminate].
  rewrite Hr, H1. now rewrite parse_stringify by apply authStatus_plain.
Qed.

Lemma switchAccount_success_on_record_witness :
  let o := {| success := true; error := None; needsRestart := None |} in
  (fst (switchAccount Sample.alice Sample.world) = Return o /\ success o = true) /\
  exists teamId installationId,
    on_record Sample.alice teamId installationId
      (rows (snd (switchAccount Sample.alice Sample.world))) /\
    fst (getCurrentAccount (snd (switchAccount Sample.alice Sample.world))) =
      Return (DatabaseHelper.JsData (authStatus Sample.alice teamId)).
Proof.
  cbv zeta.
  assert (H : fst (switchAccount Sample.alice Sample.world) =
              Return {| success := true; error := None; needsRestart := None |})
    by (vm_compute; reflexivity).
  split; [split; [exact H | reflexivity]|].
  exact (switchAccount_success_on_record Sample.alice Sample.world _ H eq_refl).
Defined.

(** When the patch check itself throws, the switch ends at once with
    that error as its outcome: no host command has run, neither file has
    changed. *)
Theorem switchAccount_patch_throws account w e :
  patch w = inl e ->
  exists w',
    switchAccount account w =
      (Return {| success := false; error := Some (message e); needsRestart := None |}, w') /\
    effects w' = effects w /\ db w' = db w /\ storage w' = storage w /\
    drawn w' = drawn w.
Proof.
  intros Hp. destruct w as [pl d st en dr pa cf ef out con]. cbn in Hp. subst pa.
  unfold switchAccount, try_catch, bind, checkAndApplyPatch. cbn.
  eexists. split; [reflexivity|]. repeat split.
Qed.

Lemma switchAccount_patch_throws_witness :
  let e := Error "EACCES: permission denied" in
  let w := Sample.with_patch (inl e) Sample.world in
  patch w = inl e /\
  exists w',
    switchAccount Sample.alice w =
      (Return {| success := false; error := Some (message e); needsRestart := None |}, w') /\
    effects w' = effects w /\ db w' = db w /\ storage w' = storage w /\
    drawn w' = drawn w.
Proof.
  cbv zeta. split; [reflexivity|].
  apply (switchAccount_patch_throws Sample.alice
           (Sample.with_patch (inl (Error "EACCES: permission denied")) Sample.world)
           (Error "EACCES: permission denied")).
  reflexivity.
Defined.

End SwitchOutcomes.

(** ** The switch: which host commands run, and in which order *)

Section SwitchCommands.

Import AccountManager AccountSwitcher.

#[local] Arguments String.append : simpl never.
#[local] Arguments text : simpl never.
#[local] Arguments print_Z : simpl never.
#[local] Arguments stringify : simpl never.
#[local] Arguments Pretty.stringify_indent : simpl never.
#[local] Arguments JSON.parse : simpl never.
#[local] Arguments substring0 : simpl never.
#[local] Arguments SHA2.hex : simpl never.
#[local] Arguments SHA2.sha256 : simpl never.
#[local] Arguments SHA2.sha512 : simpl never.
#[local] Arguments uuid_format : simpl never.
#[local] Arguments uuid_bytes : simpl never.
#[local] Arguments toUpperCase : simpl never.

Lemma silent_ret {A} (a : A) : runs_no_command (ret a).
Proof. intros w. exists []. split; [now rewrite app_nil_r | constructor]. Qed.

Lemma silent_throw {A} e : runs_no_command (@throw A e).
Proof. intros w. exists []. split; [now rewrite app_nil_r | constructor]. Qed.

Lemma silent_gets {A} (f : World -> A) : runs_no_command (gets f).
Proof. intros w. exists []. split; [now rewrite app_nil_r | constructor]. Qed.

Lemma silent_modify f : (forall w, effects (f w) = effects w) -> runs_no_command (modify f).
Proof.
  intros Hf w. exists []. cbn. split; [now rewrite app_nil_r, Hf | constructor].
Qed.

Lemma silent_console_log line : runs_no_command (console_log line).
Proof. apply silent_modify. reflexivity. Qed.

Lemma silent_log line : runs_no_command (log line).
Proof. intros w. exists []. split; [now rewrite app_nil_r | constructor]. Qed.

Lemma silent_effect e : quiet e -> runs_no_command (effect e).
Proof. intros He w. exists [e]. split; [reflexivity | now repeat constructor]. Qed.

Lemma silent_randomBytes n : runs_no_command (randomBytes n).
Proof. intros w. exists []. split; [now rewrite app_nil_r | constructor]. Qed.

Lemma silent_bind {A B} (m : M A) (k : A -> M B) :
  runs_no_command m -> (forall a, runs_no_command (k a)) -> runs_no_command (bind m k).
Proof.
  intros Hm Hk w. unfold bind. destruct (Hm w) as (more & E & Hq).
  destruct (m w) as [[a|e] w1]; cbn [snd] in *; [|eauto].
  destruct (Hk a w1) as (more' & E' & Hq'). exists (more ++ more').
  split; [now rewrite E', E, app_assoc | now apply Forall_app].
Qed.

Lemma silent_try_catch {A} (m : M A) h :
  runs_no_command m -> (forall e, runs_no_command (h e)) -> runs_no_command (try_catch m h).
Proof.
  intros Hm Hh w. unfold try_catch. destruct (Hm w) as (more & E & Hq).
  destruct (m w) as [[a|e] w1]; cbn [snd] in *; [eauto|].
  destruct (Hh e w1) as (more' & E' & Hq'). exists (more ++ more').
  split; [now rewrite E', E, app_assoc | now apply Forall_app].
Qed.

Lemma silent_read_storage : runs_no_command read_storage.
Proof.
  intros w. exists []. unfold read_storage.
  destruct (on_disk (storage w)); (split; [now rewrite app_nil_r | constructor]).
Qed.

Lemma silent_write_storage s : runs_no_command (write_storage s).
Proof.
  intros w. unfold write_storage. destruct (write_attempt (storage w) s) as [[why|] f];
    eexists; (split; [reflexivity | now repeat constructor]).
Qed.

Lemma silent_read_db : runs_no_command read_db.
Proof.
  intros w. exists []. unfold read_db.
  destruct (on_disk (db w)); (split; [now rewrite app_nil_r | constructor]).
Qed.

Lemma silent_write_db t : runs_no_command (write_db t).
Proof.
  intros w. unfold write_db. destruct (write_attempt (db w) t) as [[why|] f];
    eexists; (split; [reflexivity | now repeat constructor]).
Qed.

Lemma silent_set_property data key value :
  runs_no_command (MachineIdResetter.set_property data key value).
Proof.
  intros w. exists []. destruct data; (split; [now rewrite app_nil_r | constructor]).
Qed.

Ltac silent_step :=
  lazymatch goal with
  | |- runs_no_command (ret _) => apply silent_ret
  | |- runs_no_command (throw _) => apply silent_throw
  | |- runs_no_command (gets _) => apply silent_gets
  | |- runs_no_command (effect _) => apply silent_effect; exact I
  | |- runs_no_command (console_log _) => apply silent_console_log
  | |- runs_no_command (log _) => apply silent_log
  | |- runs_no_command (randomBytes _) => apply silent_randomBytes
  | |- runs_no_command read_storage => apply silent_read_storage
  | |- runs_no_command (write_storage _) => apply silent_write_storage
  | |- runs_no_command read_db => apply silent_read_db
  | |- runs_no_command (write_db _) => apply silent_write_db
  | |- runs_no_command (MachineIdResetter.set_property _ _ _) => apply silent_set_property
  | |- runs_no_command (try_catch _ _) => apply silent_try_catch; [|intros ?]
  | |- runs_no_command (bind _ _) => apply silent_bind; [|intros ?]
  | |- runs_no_command (match ?x with _ => _ end) => destruct x
  end.

Lemma silent_uuidv4 : runs_no_command uuidv4.
Proof. unfold uuidv4. repeat silent_step. Qed.

Lemma silent_write_attempts remaining : forall i content lastError,
  runs_no_command (MachineIdResetter.write_attempts remaining i content lastError).
Proof.
  induction remaining as [|n IH]; intros i content lastError;
    cbn [MachineIdResetter.write_attempts]; [apply silent_ret|].
  apply silent_bind; [|intros [e|]; [apply IH | apply silent_ret]].
  apply silent_try_catch; [|intros e; repeat silent_step].
  apply silent_bind; [destruct (0 <? i); silent_step | intros _; repeat silent_step].
Qed.

Lemma silent_resetMachineId : runs_no_command MachineIdResetter.resetMachineId.
Proof.
  unfold MachineIdResetter.resetMachineId, MachineIdResetter.generateMachineIds.
  repeat first
    [ silent_step
    | lazymatch goal with
      | |- runs_no_command uuidv4 => apply silent_uuidv4
      | |- runs_no_command (MachineIdResetter.write_attempts _ _ _ _) =>
          apply silent_write_attempts
      end ].
Qed.

Lemma silent_writeToDB key value : runs_no_command (DatabaseHelper.writeToDB key value).
Proof. unfold DatabaseHelper.writeToDB. repeat silent_step. Qed.

Lemma silent_writeAuthData account : runs_no_command (writeAuthData account).
Proof.
  unfold writeAuthData.
  repeat first
    [ silent_step
    | lazymatch goal with
      | |- runs_no_command uuidv4 => apply silent_uuidv4
      | |- runs_no_command (DatabaseHelper.writeToDB _ _) => apply silent_writeToDB
      end ].
Qed.

Lemma silent_fallback account e : runs_no_command (fallback account e).
Proof.
  unfold fallback.
  repeat first
    [ silent_step
    | lazymatch goal with
      | |- runs_no_command (writeAuthData _) => apply silent_writeAuthData
      end ].
Qed.

Lemma silent_switchFailed e : runs_no_command (switchFailed e).
Proof. unfold switchFailed. repeat silent_step. Qed.

(** Step 2 always runs the logout command, and nothing else. *)
Lemma logoutStep_run w :
  exists w1,
    logoutStep w = (Return tt, w1) /\
    effects w1 = effects w ++ [ExecuteCommand "windsurf.logout" None] /\
    patch w1 = patch w /\ command_fault w1 = command_fault w.
Proof.
  destruct w as [pl d st en dr pa cf ef out con].
  unfold logoutStep, try_catch, bind, executeCommand, bind, effect, modify, gets. cbn.
  destruct (cf "windsurf.logout") as [why|]; cbn;
    (eexists; split; [reflexivity|]); cbn; repeat split.
Qed.

(** Step 3 never throws and runs no command. *)
Lemma identityResetStep_run w :
  exists w1 more,
    identityResetStep w = (Return tt, w1) /\
    effects w1 = effects w ++ more /\ Forall quiet more /\
    patch w1 = patch w /\ command_fault w1 = command_fault w.
Proof.
  destruct (identityResetStep_over (fun _ => ret tt) w) as (w1 & Hh & E).
  assert (Hsil : runs_no_command identityResetStep).
  { unfold identityResetStep.
    repeat first
      [ silent_step
      | lazymatch goal with
        | |- runs_no_command MachineIdResetter.resetMachineId => apply silent_resetMachineId
        end ]. }
  destruct (Hsil w) as (more & Hef & Hq).
  unfold bind in E. destruct (identityResetStep w) as [[[]|e] w'] eqn:Em; [|discriminate].
  cbn [ret] in E. injection E as ->. cbn [snd] in Hef.
  apply host_fields in Hh as (_ & Hp & Hc).
  exists w1, more. repeat split; assumption.
Qed.

Lemma checkAndApplyPatch_run w r :
  patch w = inr r -> checkAndApplyPatch w = (Return r, w).
Proof. unfold checkAndApplyPatch. now intros ->. Qed.

(** With the patch in place, the switch reaches the session step with
    the logout command run and no other. *)
Lemma switchAccount_patched_trace account w r :
  patch w = inr r -> WindsurfPatchService.needsRestart r = false ->
  truthy (WindsurfPatchService.error r) = None ->
  exists w1 reset,
    effects w1 = effects w ++ ExecuteCommand "windsurf.logout" None :: reset /\
    Forall quiet reset /\
    switchAccount account w =
      try_catch (try_catch (injectSession account) (fallback account)) switchFailed w1.
Proof.
  intros Hp Hr He. unfold switchAccount. unfold bind at 1. cbn [modify].
  unfold try_catch at 1.
  rewrite (bind_ret_run _ _ _ _ _ (log_run _ _)).
  rewrite (bind_ret_run _ _ _ _ _ (log_run _ _)).
  rewrite (bind_ret_run _ _ _ _ _ (log_run _ _)).
  lazymatch goal with
  | |- context [bind checkAndApplyPatch ?k ?W] =>
      rewrite (bind_ret_run _ _ _ _ _ (checkAndApplyPatch_run W r Hp))
  end.
  cbv beta. rewrite Hr, He. unfold switchSteps.
  rewrite (bind_ret_run _ _ _ _ _ (log_run _ _)).
  lazymatch goal with
  | |- context [bind logoutStep ?k ?W] =>
      destruct (logoutStep_run W) as (w5 & E5 & Hef5 & _);
      rewrite (bind_ret_run _ _ _ _ _ E5)
  end.
  destruct (identityResetStep_run w5) as (w6 & reset & E6 & Hef6 & Hq & _).
  rewrite (bind_ret_run _ _ _ _ _ E6). unfold sessionStep.
  rewrite (bind_ret_run _ _ _ _ _ (log_run _ _)).
  rewrite (bind_ret_run _ _ _ _ _ (log_run _ _)).
  rewrite (bind_ret_run _ _ _ _ _ (log_run _ _)).
  eexists. exists reset. split; [|split; [exact Hq | reflexivity]].
  cbn [effects logged add_console set_output]. rewrite Hef6, Hef5.
  cbn [effects logged add_console set_output]. now rewrite <- app_assoc.
Qed.

(** The session step runs the injection command first, and no other
    command after it. *)
Lemma sessionStep_trace account w1 :
  exists session,
    effects (snd (try_catch (try_catch (injectSession account) (fallback account))
                    switchFailed w1)) =
      effects w1 ++ ExecuteCommand INJECT (Some (injectArgs account)) :: session /\
    Forall quiet session.
Proof.
  set (after :=
         (fault <- gets (fun w => command_fault w INJECT) ;;
          match fault with
          | Some why => throw (Error why)
          | None => ret tt
          end) ;;
         log "会话注入成功！" ;;
         writeAuthData account ;;
         log "========== 切换完成 ==========" ;;
         log ("账号: " +:+ email account) ;;
         effect (ShowInformationMessage ("账号已切换到: " +:+ email account)) ;;
         ret {| success := true; error := None; needsRestart := None |}).
  assert (Hsil : runs_no_command
                   (try_catch (try_catch after (fallback account)) switchFailed)).
  { unfold after.
    repeat first
      [ silent_step
      | lazymatch goal with
        | |- runs_no_command (writeAuthData _) => apply silent_writeAuthData
        | |- runs_no_command (fallback _ _) => apply silent_fallback
        | |- runs_no_command (switchFailed _) => apply silent_switchFailed
        end ]. }
  destruct (Hsil (add_effect (ExecuteCommand INJECT (Some (injectArgs account))) w1))
    as (session & Hef & Hq).
  exists session. split; [|exact Hq].
  change (try_catch (try_catch (injectSession account) (fallback account)) switchFailed w1)
    with (try_catch (try_catch after (fallback account)) switchFailed
            (add_effect (ExecuteCommand INJECT (Some (injectArgs account))) w1)).
  rewrite Hef. cbn [effects add_effect]. now rewrite <- app_assoc.
Qed.

(** Once the patch check has passed, [switchAccount] runs two host
    commands and no more: first the logout, then the injection with the
    key of the account, its e-mail address as the name, and its server
    or the default one.  Whatever else it does in between and after
    (writing files, pausing, showing a notice, scheduling the reload) is
    no command run on the spot; and this is so whether or not the
    logout, the identity reset, the injection or the writes fail. *)
Theorem switchAccount_command_order account w r :
  patch w = inr r -> WindsurfPatchService.needsRestart r = false ->
  truthy (WindsurfPatchService.error r) = None ->
  exists reset session,
    effects (snd (switchAccount account w)) =
      effects w ++
      ExecuteCommand "windsurf.logout" None :: reset ++
      ExecuteCommand INJECT (Some (injectArgs account)) :: session /\
    Forall quiet reset /\ Forall quiet session.
Proof.
  intros Hp Hr He.
  destruct (switchAccount_patched_trace account w r Hp Hr He) as (w1 & reset & Hef & Hq & ->).
  destruct (sessionStep_trace account w1) as (session & Hef' & Hq').
  exists reset, session. split; [|split; assumption].
  rewrite Hef', Hef, <- app_assoc. reflexivity.
Qed.

Lemma switchAccount_command_order_witness :
  let w := Sample.with_fault "windsurf.logout" "command 'windsurf.logout' not found"
             Sample.world in
  (patch w = inr Sample.patched /\
   WindsurfPatchService.needsRestart Sample.patched = false /\
   truthy (WindsurfPatchService.error Sample.patched) = None) /\
  exists reset session,
    effects (snd (switchAccount Sample.alice w)) =
      effects w ++
      ExecuteCommand "windsurf.logout" None :: reset ++
      ExecuteCommand INJECT (Some (injectArgs Sample.alice)) :: session /\
    Forall quiet reset /\ Forall quiet session.
Proof.
  cbv zeta. split; [repeat split|].
  apply (switchAccount_command_order Sample.alice
           (Sample.with_fault "windsurf.logout" "command 'windsurf.logout' not found"
              Sample.world)
           Sample.patched); reflexivity.
Defined.

End SwitchCommands.
(** ** Identity reset: other documents, failures, repeated resets *)

Section IdentityEdges.

Import MachineIdResetter.

#[local] Arguments String.append : simpl never.
#[local] Arguments text : simpl never.
#[local] Arguments print_Z : simpl never.
#[local] Arguments stringify : simpl never.
#[local] Arguments Pretty.stringify_indent : simpl never.
#[local] Arguments JSON.parse : simpl never.
#[local] Arguments SHA2.hex : simpl never.
#[local] Arguments SHA2.sha256 : simpl never.
#[local] Arguments SHA2.sha512 : simpl never.
#[local] Arguments uuid_format : simpl never.
#[local] Arguments uuid_bytes : simpl never.
#[local] Arguments toUpperCase : simpl never.

(** Reading the document changes nothing but the console. *)
Lemma read_document_world w :
  exists w1,
    try_catch
      (content <- read_storage ;;
       match JSON.parse content with
       | Some data => ret data
       | None => throw (Error "Unexpected token in JSON")
       end)
      (fun _ =>
         console_log "[MachineIdResetter] storage.json 不存在或格式错误，创建新文件" ;;
         ret (JObj [])) w = (Return (document w), w1) /\
    storage w1 = storage w /\ effects w1 = effects w /\ platform w1 = platform w /\
    db w1 = db w /\ drawn w1 = drawn w /\ entropy w1 = entropy w.
Proof.
  unfold try_catch, bind, read_storage, document.
  destruct (on_disk (storage w)) as [why|content].
  - eexists. split; [reflexivity|]. repeat split.
  - destruct (JSON.parse content) as [data|].
    + eexists. split; [reflexivity|]. repeat split.
    + eexists. split; [reflexivity|]. repeat split.
Qed.

(** The first try of the retry loop, when it succeeds. *)
Lemma write_attempts_first content w :
  fault_at 0 (storage w) = None ->
  exists w1,
    write_attempts maxRetries 0 content None w = (Return None, w1) /\
    storage w1 = snd (write_attempt (storage w) content) /\
    platform w1 = platform w /\ drawn w1 = drawn w /\ entropy w1 = entropy w.
Proof.
  destruct w as [pl d [sd faults] en dr pa cf ef out con].
  unfold fault_at, maxRetries. cbn [storage write_faults nth_error].
  cbn [write_attempts]. unfold bind at 1, try_catch, bind at 1.
  change (0 <? 0) with false. cbn [ret fst snd].
  unfold bind, write_storage, write_attempt.
  cbn [storage write_faults on_disk add_effect].
  destruct faults as [|[e|] later]; cbn; intros H; try discriminate;
    (eexists; split; [reflexivity|]); cbn; repeat split.
Qed.

(** A document that parses but is neither an object nor an array (as
    [null], a number with or without a fraction, a text) is not replaced
    by an empty one: the reset throws, writes nothing and leaves
    [storage.json] as it was. *)
Theorem resetMachineId_not_an_object w content d :
  on_disk (storage w) = Stored content -> JSON.parse content = Some d ->
  primitive d = true ->
  exists msg,
    fst (resetMachineId w) = Throw (Error ("重置机器 ID 失败: " +:+ msg)) /\
    storage (snd (resetMachineId w)) = storage w /\
    effects (snd (resetMachineId w)) = effects w.
Proof.
  intros Hs Hp Hprim.
  assert (Hdoc : document w = d) by (unfold document; now rewrite Hs, Hp).
  destruct (resetMachineId_run_primitive w d Hdoc Hprim) as (msg & w' & -> & H1 & H2).
  exists msg. repeat split; assumption.
Qed.

Lemma resetMachineId_not_an_object_witness :
  let w := Sample.with_storage (File (Stored "1.5") []) Sample.world in
  (on_disk (storage w) = Stored "1.5"%string /\
   JSON.parse "1.5" = Some (JReal "1.5") /\ primitive (JReal "1.5") = true) /\
  exists msg,
    fst (resetMachineId w) = Throw (Error ("重置机器 ID 失败: " +:+ msg)) /\
    storage (snd (resetMachineId w)) = storage w /\
    effects (snd (resetMachineId w)) = effects w.
Proof.
  cbv zeta. split; [repeat split|].
  apply (resetMachineId_not_an_object
           (Sample.with_storage (File (Stored "1.5") []) Sample.world)
           "1.5" (JReal "1.5"));
    reflexivity.
Defined.

(** On a [storage.json] that holds an array the reset reports success
    and returns new identifiers, but what it writes is that array again,
    with none of the identifiers in it: for an array that is exact the
    file is the indented text of the array and reads back as it. *)
Theorem resetMachineId_on_array w content items :
  on_disk (storage w) = Stored content -> JSON.parse content = Some (JArr items) ->
  retry_error (storage w) = None ->
  fst (resetMachineId w) = Return (ids_at w) /\
  (exact (JArr items) = true ->
   on_disk (storage (snd (resetMachineId w))) =
     Stored (Pretty.stringify_indent 2 (JArr items)) /\
   document (snd (resetMachineId w)) = JArr items).
Proof.
  intros Hs Hp Hok.
  assert (Hdoc : document w = JArr items) by (unfold document; now rewrite Hs, Hp).
  destruct (resetMachineId_run_array w items Hdoc) as (w' & -> & _ & Hst).
  rewrite Hok in *. cbn [fst snd]. split; [reflexivity|].
  intros Hexact%exact_plain. split; [exact Hst|].
  unfold document. rewrite Hst.
  now rewrite parse_stringify_indent.
Qed.

Lemma resetMachineId_on_array_witness :
  let w := Sample.with_storage (File (Stored "[1, 2]") []) Sample.world in
  (on_disk (storage w) = Stored "[1, 2]"%string /\
   JSON.parse "[1, 2]" = Some (JArr [JNum 1; JNum 2]) /\
   retry_error (storage w) = None) /\
  fst (resetMachineId w) = Return (ids_at w) /\
  on_disk (storage (snd (resetMachineId w))) =
    Stored (Pretty.stringify_indent 2 (JArr [JNum 1; JNum 2])) /\
  document (snd (resetMachineId w)) = JArr [JNum 1; JNum 2].
Proof.
  cbv zeta. split; [repeat split|].
  pose proof (resetMachineId_on_array
                (Sample.with_storage (File (Stored "[1, 2]") []) Sample.world)
                "[1, 2]" [JNum 1; JNum 2] eq_refl eq_refl eq_refl) as (H1 & H2).
  split; [exact H1 | exact (H2 eq_refl)].
Defined.

(** No reset touches the database file: whatever becomes of
    [storage.json], [state.vscdb] and the fate of its coming writes are
    as before. *)
Theorem resetMachineId_leaves_database w : db (snd (resetMachineId w)) = db w.
Proof.
  pose proof (keeps_resetMachineId w) as H. apply host_fields in H as (H & _). exact H.
Qed.

(** *** Two resets in a row *)

Lemma resetMachineId_first_try w props :
  document w = JObj props -> fault_at 0 (storage w) = None ->
  exists w',
    resetMachineId w = (Return (ids_at w), w') /\
    storage w' =
      snd (write_attempt (storage w)
             (Pretty.stringify_indent 2
                (JObj (identity_props (platform w) (ids_at w) props)))) /\
    platform w' = platform w /\ entropy w' = entropy w /\
    drawn w' = (drawn w + 144)%nat.
Proof.
  intros Hdoc F0. unfold resetMachineId.
  rewrite (bind_ret_run _ _ _ _ _ (generateMachineIds_run w)).
  set (w0 := set_drawn _ w). set (ids := ids_at w).
  assert (Hdoc0 : document w0 = JObj props) by exact Hdoc.
  destruct (read_document_world w0) as (w1 & E1 & Hst1 & _ & Hpl1 & _ & Hdr1 & Hen1).
  unfold try_catch at 1.
  rewrite (bind_ret_run _ _ _ _ _ E1). rewrite Hdoc0.
  rewrite (bind_ret_run _ _ _ _ _ (set_property_run _ _ _ _)).
  rewrite (bind_ret_run _ _ _ _ _ (set_property_run _ _ _ _)).
  rewrite (bind_ret_run _ _ _ _ _ (set_property_run _ _ _ _)).
  rewrite (bind_ret_run _ _ _ _ _ (gets_run _ _)).
  rewrite (bind_ret_run _ _ _ _ _ (set_if_run _ _ _ _ _)).
  cbv beta. rewrite Hpl1. change (platform w0) with (platform w).
  assert (F1 : fault_at 0 (storage w1) = None) by (rewrite Hst1; exact F0).
  lazymatch goal with
  | |- context [write_attempts maxRetries 0 ?content None] =>
      destruct (write_attempts_first content w1 F1) as (w2 & E2 & Hst2 & Hpl2 & Hdr2 & Hen2)
  end.
  rewrite (bind_ret_run _ _ _ _ _ E2).
  exists w2. split; [reflexivity|]. split; [|split; [|split]].
  - rewrite Hst2, Hst1. reflexivity.
  - rewrite Hpl2, Hpl1. reflexivity.
  - rewrite Hen2, Hen1. reflexivity.
  - rewrite Hdr2, Hdr1. unfold w0. cbn [drawn set_drawn]. lia.
Qed.

Lemma keys_obj_set_in k v props : k ∈ keys (obj_set k v props).
Proof.
  unfold keys. induction props as [|[k' v'] props IH]; cbn [obj_set map fst].
  - left.
  - destruct (String.eqb_spec k k') as [->|Hne]; cbn [map fst]; [left | right; exact IH].
Qed.

Lemma keys_obj_set_same k v props :
  k ∈ keys props -> keys (obj_set k v props) = keys props.
Proof.
  unfold keys. induction props as [|[k' v'] props IH]; cbn [obj_set map fst]; intros Hin.
  - now apply elem_of_nil in Hin.
  - destruct (String.eqb_spec k k') as [->|Hne]; cbn [map fst]; [reflexivity|].
    f_equal. apply IH. apply elem_of_cons in Hin as [?|?]; [contradiction | assumption].
Qed.

Lemma keys_obj_set_mono k k' v props :
  k' ∈ keys props -> k' ∈ keys (obj_set k v props).
Proof.
  unfold keys. induction props as [|[k0 v0] props IH]; cbn [obj_set map fst]; intros Hin.
  - now apply elem_of_nil in Hin.
  - destruct (String.eqb_spec k k0) as [->|Hne]; cbn [map fst]; [exact Hin|].
    apply elem_of_cons in Hin as [->|Hin]; [left | right; now apply IH].
Qed.

Lemma identity_props_again pl ids ids' props :
  keys (identity_props pl ids' (identity_props pl ids props)) =
  keys (identity_props pl ids props).
Proof.
  unfold identity_props. destruct (String.eqb pl "darwin");
    repeat (rewrite keys_obj_set_same
              by (repeat first [apply keys_obj_set_in | apply keys_obj_set_mono]));
    reflexivity.
Qed.

(** A second reset replaces the identifiers of the first: it returns the
    identifiers made of the next random bytes, the document then holds
    them under the same keys (none is added), and the keys that are not
    identity fields are still as before the first reset.  Stated for a
    document that is exact, so that what the first reset writes is what
    the second one reads. *)
Theorem resetMachineId_supersedes w props :
  starts_from w props -> exact (JObj props) = true ->
  fault_at 0 (storage w) = None -> fault_at 1 (storage w) = None ->
  let second := ids_from (entropy w) (drawn w + 144) in
  let once := identity_props (platform w) (ids_at w) props in
  let twice := identity_props (platform w) second once in
  let w1 := snd (resetMachineId w) in
  fst (resetMachineId w1) = Return second /\
  document (snd (resetMachineId w1)) = JObj twice /\
  keys twice = keys once /\
  obj_get "telemetry.machineId" twice = Some (JStr (machineId second)) /\
  obj_get "telemetry.sqmId" twice = Some (JStr (sqmId second)) /\
  obj_get "telemetry.devDeviceId" twice = Some (JStr (devDeviceId second)) /\
  (forall k, k <> "telemetry.machineId"%string -> k <> "telemetry.sqmId"%string ->
             k <> "telemetry.devDeviceId"%string -> k <> "telemetry.macMachineId"%string ->
             obj_get k twice = obj_get k props).
Proof.
  intros Hfrom Hplain%exact_plain F0 F1. cbv zeta.
  apply starts_from_document in Hfrom as Hdoc.
  destruct (resetMachineId_first_try w props Hdoc F0) as (w1 & -> & Hst1 & Hpl1 & Hen1 & Hdr1).
  cbn [snd].
  set (once := identity_props (platform w) (ids_at w) props) in *.
  assert (Hon1 : on_disk (storage w1) = Stored (Pretty.stringify_indent 2 (JObj once))).
  { rewrite Hst1. now apply on_disk_after. }
  assert (Hplain1 : plain (JObj once) = true) by now apply identity_props_plain.
  assert (Hdoc1 : document w1 = JObj once).
  { unfold document. rewrite Hon1. now rewrite parse_stringify_indent. }
  assert (F01 : fault_at 0 (storage w1) = None).
  { rewrite Hst1, fault_at_after. exact F1. }
  destruct (resetMachineId_first_try w1 once Hdoc1 F01) as (w2 & -> & Hst2 & _).
  cbn [fst snd]. unfold ids_at in Hst2 |- *. rewrite Hen1, Hdr1, Hpl1 in Hst2.
  rewrite Hen1, Hdr1.
  set (second := ids_from (entropy w) (drawn w + 144)) in *.
  split; [reflexivity|]. split.
  { unfold document. rewrite Hst2, on_disk_after by exact F01.
    rewrite parse_stringify_indent; [reflexivity|].
    now apply identity_props_plain. }
  split; [apply identity_props_again|].
  unfold once, identity_props.
  destruct (String.eqb (platform w) "darwin");
    repeat split;
    repeat first
      [ apply obj_get_set_eq
      | rewrite obj_get_set_ne by discriminate
      | reflexivity ];
    intros k H1 H2 H3 H4;
    repeat (rewrite obj_get_set_ne by congruence); reflexivity.
Qed.

Lemma resetMachineId_supersedes_witness :
  let w := Sample.world in
  let second := ids_from (entropy w) (drawn w + 144) in
  (starts_from w [] /\ exact (JObj []) = true /\
   fault_at 0 (storage w) = None /\ fault_at 1 (storage w) = None) /\
  fst (resetMachineId (snd (resetMachineId w))) = Return second /\
  document (snd (resetMachineId (snd (resetMachineId w)))) =
    JObj (identity_props (platform w) second (identity_props (platform w) (ids_at w) [])).
Proof.
  cbv zeta.
  assert (H : starts_from Sample.world []).
  { apply (from_absent _ "ENOENT: no such file or directory"). reflexivity. }
  split; [split; [exact H | repeat split]|].
  pose proof (resetMachineId_supersedes Sample.world [] H eq_refl eq_refl eq_refl)
    as (H1 & H2 & _).
  split; [exact H1 | exact H2].
Defined.

End IdentityEdges.
(** ** The account list: adding, updating, removing, import and export *)

Section AccountList.

Import AccountManager.

#[local] Arguments String.append : simpl never.
#[local] Arguments text : simpl never.
#[local] Arguments stringify : simpl never.
#[local] Arguments Pretty.stringify_indent : simpl never.
#[local] Arguments JSON.parse : simpl never.
#[local] Arguments uuid_format : simpl never.
#[local] Arguments uuid_bytes : simpl never.

(** *** The keys of the secret storage *)

Lemma append_cancel_r a b s : a +:+ s = b +:+ s -> a = b.
Proof.
  intros H. apply (f_equal str) in H. rewrite !str_append in H.
  apply app_inv_tail in H. rewrite <- (text_str a), <- (text_str b). now f_equal.
Qed.

Lemma refreshToken_key_inj i j : refreshToken_key i = refreshToken_key j -> i = j.
Proof.
  unfold refreshToken_key. intros H. apply String.app_inj in H.
  now apply append_cancel_r in H.
Qed.

Lemma apiKey_key_inj i j : apiKey_key i = apiKey_key j -> i = j.
Proof.
  unfold apiKey_key. intros H. apply String.app_inj in H.
  now apply append_cancel_r in H.
Qed.

Lemma keys_apart i j : refreshToken_key i <> apiKey_key j.
Proof.
  unfold refreshToken_key, apiKey_key. intros H. apply String.app_inj in H.
  apply (f_equal str) in H. rewrite !str_append in H.
  apply (f_equal (@rev ascii)) in H. rewrite !rev_app_distr in H.
  discriminate H.
Qed.

(** *** Restoring the credentials *)

Lemma map_fmap {A B} (f : A -> B) l : map f l = f <$> l.
Proof. induction l as [|x l IH]; [reflexivity | cbn; now rewrite IH]. Qed.

Lemma restore_id ctx a : id (restore ctx a) = id a.
Proof.
  unfold restore.
  destruct (secret ctx (SECRETS_PREFIX +:+ id a +:+ ".refreshToken")); cbn [id];
    match goal with |- context [secret ctx ?k] => destruct (secret ctx k) end;
    reflexivity.
Qed.

Lemma restore_secrets ctx ctx' a :
  secrets ctx' !! refreshToken_key (id a) = secrets ctx !! refreshToken_key (id a) ->
  secrets ctx' !! apiKey_key (id a) = secrets ctx !! apiKey_key (id a) ->
  restore ctx' a = restore ctx a.
Proof.
  unfold restore, secret, refreshToken_key, apiKey_key. intros -> H.
  destruct (secrets ctx !! (SECRETS_PREFIX +:+ id a +:+ ".refreshToken")) as [t|];
    [destruct (String.eqb t EmptyString)|]; cbn [id]; now rewrite H.
Qed.

(** The credentials [restore] finds. *)
Lemma restore_blank ctx a :
  restore ctx (blank a) =
  {| id := id a; email := email a; name := name a;
     apiKey := match secret ctx (apiKey_key (id a)) with
               | Some k => k
               | None => EmptyString
               end;
     apiServerUrl := apiServerUrl a;
     refreshToken := match secret ctx (refreshToken_key (id a)) with
                     | Some t => t
                     | None => EmptyString
                     end;
     planName := planName a; createdAt := createdAt a; updatedAt := updatedAt a |}.
Proof.
  unfold restore, blank, refreshToken_key, apiKey_key. cbn [id].
  destruct (secret ctx (SECRETS_PREFIX +:+ id a +:+ ".refreshToken")); cbn [id];
    destruct (secret ctx (SECRETS_PREFIX +:+ id a +:+ ".apiKey")); reflexivity.
Qed.

Lemma filled_false s : filled s = false -> s = EmptyString.
Proof.
  unfold filled. destruct (String.eqb_spec s EmptyString); [auto | discriminate].
Qed.

Lemma secret_lookup ctx key v :
  secrets ctx !! key = Some v -> filled v = true -> secret ctx key = Some v.
Proof.
  unfold secret, filled. intros -> H. destruct (String.eqb v EmptyString);
    [discriminate | reflexivity].
Qed.

Lemma secret_none ctx key : secrets ctx !! key = None -> secret ctx key = None.
Proof. unfold secret. now intros ->. Qed.

Lemma getAccounts_listed ctx :
  fst (getAccounts ctx) = restore ctx <$> stored_accounts ctx.
Proof.
  unfold getAccounts, stored_accounts. destruct (accounts ctx); [apply map_fmap | reflexivity].
Qed.

Lemma getAccount_find ident ctx :
  fst (getAccount ident ctx) =
  snd <$> list_find (fun acc => id acc = ident) (fst (getAccounts ctx)).
Proof. unfold getAccount. destruct (getAccounts ctx). reflexivity. Qed.

(** *** Adding *)

Lemma addAccount_run data e :
  addAccount data e =
  (Return (added data e),
   {| extension :=
        update_accounts
          (stored_accounts (extension e) ++ [blank (added data e)])
          (store_filled (apiKey_key (id (added data e))) (data_apiKey data)
             (store_filled (refreshToken_key (id (added data e))) (data_refreshToken data)
                (extension e)));
      machine := set_drawn (drawn (machine e) + 16) (machine e);
      clock := clock e;
      ticks := S (ticks e) |}).
Proof.
  unfold addAccount, and_then, toISOString, on_machine. cbn [fst snd machine].
  rewrite uuidv4_run. unfold on_extension, pure. cbn.
  unfold store_filled, stored_accounts.
  destruct (filled (data_refreshToken data)), (filled (data_apiKey data)); reflexivity.
Qed.

Lemma store_filled_secrets_ne key value ctx k :
  key <> k -> secrets (store_filled key value ctx) !! k = secrets ctx !! k.
Proof.
  intros Hne. unfold store_filled. destruct (filled value); [|reflexivity].
  cbn [secrets secrets_store]. now rewrite lookup_insert_ne.
Qed.

Lemma store_filled_secret_eq key value ctx :
  filled value = true -> secret (store_filled key value ctx) key = Some value.
Proof.
  intros H. apply secret_lookup; [|exact H]. unfold store_filled. rewrite H.
  cbn [secrets secrets_store]. apply lookup_insert_eq.
Qed.

Lemma store_filled_empty key value ctx :
  filled value = false -> store_filled key value ctx = ctx.
Proof. unfold store_filled. now intros ->. Qed.

Lemma store_filled_accounts key value ctx :
  stored_accounts (store_filled key value ctx) = stored_accounts ctx.
Proof. unfold store_filled. now destruct (filled value). Qed.

Lemma secret_ext ctx ctx' key :
  secrets ctx' !! key = secrets ctx !! key -> secret ctx' key = secret ctx key.
Proof. unfold secret. now intros ->. Qed.

(** The secrets under the keys of one identifier after those of another
    one were stored or deleted. *)
Lemma other_keys_kept i j :
  i <> j ->
  refreshToken_key i <> refreshToken_key j /\ apiKey_key i <> refreshToken_key j /\
  refreshToken_key i <> apiKey_key j /\ apiKey_key i <> apiKey_key j.
Proof.
  intros Hne. repeat split.
  - intros H. now apply refreshToken_key_inj in H.
  - intros H. symmetry in H. now apply keys_apart in H.
  - apply keys_apart.
  - intros H. now apply apiKey_key_inj in H.
Qed.

Lemma fmap_restore_ext ctx ctx' (l : list Account) :
  Forall (fun a =>
            secrets ctx' !! refreshToken_key (id a) = secrets ctx !! refreshToken_key (id a) /\
            secrets ctx' !! apiKey_key (id a) = secrets ctx !! apiKey_key (id a)) l ->
  restore ctx' <$> l = restore ctx <$> l.
Proof.
  induction 1 as [|a l [H1 H2] _ IH]; [reflexivity|].
  cbn. rewrite IH. f_equal. now apply restore_secrets.
Qed.

(** Once [addAccount] has added an account under an identifier that was
    not in use, the accounts read as before, followed by the new one
    with its credentials, and [getAccount] finds it by its identifier. *)
Theorem addAccount_then_getAccounts data e :
  unused_id (id (added data e)) (extension e) ->
  let e' := snd (addAccount data e) in
  fst (addAccount data e) = Return (added data e) /\
  fst (getAccounts (extension e')) = fst (getAccounts (extension e)) ++ [added data e] /\
  fst (getAccount (id (added data e)) (extension e')) = Some (added data e).
Proof.
  intros (Hfresh & Hrt & Hak). cbv zeta. rewrite addAccount_run. cbn [fst snd extension].
  set (a := added data e) in *. set (ctx := extension e) in *.
  lazymatch goal with
  | |- context [update_accounts ?l ?c] => set (ctx2 := c); set (ctx' := update_accounts l ctx2)
  end.
  assert (Hsec : forall k, k <> refreshToken_key (id a) -> k <> apiKey_key (id a) ->
                           secrets ctx' !! k = secrets ctx !! k).
  { intros k H1 H2. unfold ctx', ctx2. cbn [secrets update_accounts].
    rewrite !store_filled_secrets_ne by congruence. reflexivity. }
  assert (Hnew : restore ctx' (blank a) = a).
  { rewrite restore_blank.
    assert (Hk : match secret ctx' (apiKey_key (id a)) with
                 | Some k => k
                 | None => EmptyString
                 end = data_apiKey data).
    { unfold ctx'. change (secret (update_accounts _ ctx2)) with (secret ctx2). unfold ctx2.
      destruct (filled (data_apiKey data)) eqn:F.
      - now rewrite store_filled_secret_eq.
      - rewrite (store_filled_empty _ _ _ F).
        rewrite (secret_ext ctx), (secret_none ctx _ Hak).
        + symmetry. now apply filled_false.
        + apply store_filled_secrets_ne, keys_apart. }
    assert (Ht : match secret ctx' (refreshToken_key (id a)) with
                 | Some t => t
                 | None => EmptyString
                 end = data_refreshToken data).
    { unfold ctx'. change (secret (update_accounts _ ctx2)) with (secret ctx2). unfold ctx2.
      rewrite (secret_ext (store_filled (refreshToken_key (id a)) (data_refreshToken data) ctx))
        by (apply store_filled_secrets_ne; intros H; symmetry in H; now apply keys_apart in H).
      destruct (filled (data_refreshToken data)) eqn:F.
      - now rewrite store_filled_secret_eq.
      - rewrite (store_filled_empty _ _ _ F), (secret_none ctx _ Hrt).
        symmetry. now apply filled_false. }
    rewrite Hk, Ht. reflexivity. }
  assert (Hold : restore ctx' <$> stored_accounts ctx = restore ctx <$> stored_accounts ctx).
  { apply fmap_restore_ext. apply List.Forall_forall. intros x Hx.
    assert (Hne : id x <> id a).
    { intros Heq. apply Hfresh. unfold listed_ids. rewrite <- Heq.
      apply list_elem_of_In, in_map, Hx. }
    destruct (other_keys_kept _ _ Hne) as (H1 & H2 & H3 & H4).
    split; apply Hsec; assumption. }
  assert (Hall : fst (getAccounts ctx') = fst (getAccounts ctx) ++ [a]).
  { rewrite !getAccounts_listed. unfold ctx' at 2. cbn [stored_accounts update_accounts accounts].
    rewrite fmap_app, Hold. cbn [fmap list_fmap]. now rewrite Hnew. }
  split; [reflexivity|]. split; [exact Hall|].
  rewrite getAccount_find, Hall.
  rewrite list_find_app_r.
  - cbn [list_find]. rewrite decide_True by reflexivity. reflexivity.
  - apply list_find_None. rewrite getAccounts_listed. apply Forall_fmap.
    apply List.Forall_forall. intros x Hx.
    change (id (restore ctx x) <> id a). rewrite restore_id.
    intros Heq. apply Hfresh. unfold listed_ids. rewrite <- Heq.
    apply list_elem_of_In, in_map, Hx.
Qed.

Lemma addAccount_then_getAccounts_witness :
  let e := Sample.env Sample.two_accounts in
  let a := added Sample.carol e in
  unused_id (id a) (extension e) /\
  fst (addAccount Sample.carol e) = Return a /\
  fst (getAccounts (extension (snd (addAccount Sample.carol e)))) =
    fst (getAccounts (extension e)) ++ [a] /\
  fst (getAccount (id a) (extension (snd (addAccount Sample.carol e)))) = Some a.
Proof.
  cbv zeta.
  assert (H : unused_id (id (added Sample.carol (Sample.env Sample.two_accounts)))
                (extension (Sample.env Sample.two_accounts))).
  { split; [|split; vm_compute; reflexivity].
    refine (bool_decide_unpack _ _); vm_compute; exact I. }
  split; [exact H|].
  exact (addAccount_then_getAccounts Sample.carol (Sample.env Sample.two_accounts) H).
Defined.

(** *** Removing *)

Lemma filter_all (P : Account -> Prop) `{forall x, Decision (P x)} (l : list Account) :
  Forall P l -> filter P l = l.
Proof.
  induction 1 as [|x l Hx _ IH]; [reflexivity|].
  rewrite filter_cons, decide_True by exact Hx. now rewrite IH.
Qed.

Lemma delete_found (l : list Account) : forall index found ident,
  NoDup (map id l) ->
  list_find (fun acc => id acc = ident) l = Some (index, found) ->
  delete index l = filter (fun a => id a <> ident) l.
Proof.
  induction l as [|x l IH]; intros index found ident Hnd Hfind; [discriminate|].
  cbn [map] in Hnd. apply NoDup_cons in Hnd as [Hx Hnd].
  cbn [list_find] in Hfind. rewrite filter_cons.
  destruct (decide (id x = ident)) as [Heq|Hne].
  - injection Hfind as <- <-. rewrite decide_False by (intros Hn; now apply Hn).
    cbn [delete list_delete]. symmetry. apply filter_all.
    apply List.Forall_forall. intros y Hy Hyid. apply Hx. rewrite Heq, <- Hyid.
    apply list_elem_of_In, in_map, Hy.
  - rewrite decide_True by exact Hne.
    destruct (list_find (fun acc => id acc = ident) l) as [[i y]|] eqn:E; [|discriminate].
    injection Hfind as <- <-. cbn [delete list_delete]. f_equal.
    now apply (IH i y ident).
Qed.

Lemma filter_restore ctx ident (l : list Account) :
  filter (fun a => id a <> ident) (restore ctx <$> l) =
  restore ctx <$> filter (fun a => id a <> ident) l.
Proof.
  induction l as [|x l IH]; [reflexivity|].
  cbn [fmap list_fmap]. rewrite !filter_cons, restore_id.
  destruct (decide (id x <> ident)); cbn [fmap list_fmap]; now rewrite IH.
Qed.

Lemma listed_find ident ctx :
  ident ∈ listed_ids ctx ->
  exists index found,
    list_find (fun acc => id acc = ident) (stored_accounts ctx) = Some (index, found).
Proof.
  unfold listed_ids. intros Hin.
  destruct (list_find (fun acc => id acc = ident) (stored_accounts ctx)) as [[i x]|] eqn:E;
    [eauto|].
  apply list_find_None in E. apply list_elem_of_In, in_map_iff in Hin as (x & Hx & Hin).
  rewrite List.Forall_forall in E. now apply E in Hin.
Qed.

Lemma unlisted_find ident ctx :
  ident ∉ listed_ids ctx ->
  list_find (fun acc => id acc = ident) (stored_accounts ctx) = None.
Proof.
  intros Hn. apply list_find_None, List.Forall_forall. intros x Hx Heq. apply Hn.
  unfold listed_ids. rewrite <- Heq. apply list_elem_of_In, in_map, Hx.
Qed.

(** Removing a listed account (identifiers being distinct) returns
    [true], deletes its two secrets and takes it, and nothing else, off
    the accounts read: [getAccount] no longer finds it. *)
Theorem removeAccount_removes ident ctx :
  NoDup (listed_ids ctx) -> ident ∈ listed_ids ctx ->
  let ctx' := snd (removeAccount ident ctx) in
  fst (removeAccount ident ctx) = true /\
  fst (getAccounts ctx') =
    filter (fun a => id a <> ident) (fst (getAccounts ctx)) /\
  fst (getAccount ident ctx') = None /\
  secrets ctx' !! refreshToken_key ident = None /\
  secrets ctx' !! apiKey_key ident = None.
Proof.
  intros Hnd Hin. cbv zeta.
  destruct (listed_find ident ctx Hin) as (index & found & Hfind).
  unfold removeAccount. rewrite Hfind. cbn [fst snd].
  set (ctx' := update_accounts _ _).
  assert (Hall : fst (getAccounts ctx') =
                 filter (fun a => id a <> ident) (fst (getAccounts ctx))).
  { rewrite !getAccounts_listed. unfold ctx' at 2.
    cbn [stored_accounts update_accounts accounts].
    rewrite (delete_found _ _ _ _ Hnd Hfind), filter_restore.
    apply fmap_restore_ext, List.Forall_forall. intros x Hx.
    apply list_elem_of_In, list_elem_of_filter in Hx as [Hne _].
    destruct (other_keys_kept _ _ Hne) as (H1 & H2 & H3 & H4).
    unfold ctx'. cbn [secrets update_accounts secrets_delete].
    split; rewrite !lookup_delete_ne by congruence; reflexivity. }
  split; [reflexivity|]. split; [exact Hall|]. split; [|split].
  - rewrite getAccount_find, Hall.
    assert (Hnone : list_find (fun acc => id acc = ident)
                      (filter (fun a => id a <> ident) (fst (getAccounts ctx))) = None).
    { apply list_find_None, List.Forall_forall. intros x Hx.
      now apply list_elem_of_In, list_elem_of_filter in Hx as [Hne _]. }
    now rewrite Hnone.
  - unfold ctx'. cbn [secrets update_accounts secrets_delete].
    rewrite lookup_delete_ne
      by (intros H; symmetry in H; now apply keys_apart in H).
    apply lookup_delete_eq.
  - unfold ctx'. cbn [secrets update_accounts secrets_delete]. apply lookup_delete_eq.
Qed.

Lemma removeAccount_removes_witness :
  let ctx := Sample.two_accounts in
  (NoDup (listed_ids ctx) /\ "a1"%string ∈ listed_ids ctx) /\
  fst (removeAccount "a1" ctx) = true /\
  fst (getAccounts (snd (removeAccount "a1" ctx))) =
    filter (fun a => id a <> "a1"%string) (fst (getAccounts ctx)) /\
  fst (getAccount "a1" (snd (removeAccount "a1" ctx))) = None.
Proof.
  cbv zeta.
  assert (H1 : NoDup (listed_ids Sample.two_accounts))
    by (refine (bool_decide_unpack _ _); vm_compute; exact I).
  assert (H2 : "a1"%string ∈ listed_ids Sample.two_accounts)
    by (refine (bool_decide_unpack _ _); vm_compute; exact I).
  split; [split; assumption|].
  pose proof (removeAccount_removes "a1" Sample.two_accounts H1 H2) as (R1 & R2 & R3 & _).
  split; [exact R1 | split; [exact R2 | exact R3]].
Defined.

(** For an identifier that is not on the list, [removeAccount] returns
    [false] and [updateAccount] returns [undefined]; neither changes the
    list or the secret storage, nor does the update read the clock. *)
Theorem unlisted_id_untouched ident updates e :
  ident ∉ listed_ids (extension e) ->
  removeAccount ident (extension e) = (false, extension e) /\
  updateAccount ident updates e = (Return None, e).
Proof.
  intros Hn. apply unlisted_find in Hn.
  unfold removeAccount, updateAccount. now rewrite Hn.
Qed.

Lemma unlisted_id_untouched_witness :
  let e := Sample.env Sample.two_accounts in
  let updates := {| new_id := None; new_email := None; new_name := Some "Nobody"%string;
                    new_apiKey := None; new_apiServerUrl := None;
                    new_refreshToken := None; new_planName := None;
                    new_createdAt := None; new_updatedAt := None |} in
  ("c3"%string ∉ listed_ids (extension e)) /\
  removeAccount "c3" (extension e) = (false, extension e) /\
  updateAccount "c3" updates e = (Return None, e).
Proof.
  cbv zeta.
  assert (H : "c3"%string ∉ listed_ids (extension (Sample.env Sample.two_accounts)))
    by (refine (bool_decide_unpack _ _); vm_compute; exact I).
  split; [exact H|].
  exact (unlisted_id_untouched "c3" _ (Sample.env Sample.two_accounts) H).
Defined.

(** *** Updating *)

Lemma secret_store_update_ne key new ctx k :
  key <> k -> secret (store_update key new ctx) k = secret ctx k.
Proof.
  intros Hne. apply secret_ext. destruct new as [v|]; [|reflexivity].
  now apply store_filled_secrets_ne.
Qed.

Lemma secret_store_update_eq key new ctx :
  match secret (store_update key new ctx) key with
  | Some v => v
  | None => EmptyString
  end = credential ctx key new.
Proof.
  unfold credential. destruct new as [v|]; [|reflexivity]. cbn [store_update].
  destruct (filled v) eqn:F.
  - now rewrite store_filled_secret_eq.
  - now rewrite (store_filled_empty _ _ _ F).
Qed.

(** An update of a listed account returns the account with the fields
    the update carries and the others as they were, stamped with the
    time of the update.  Its credentials are those of the update when
    they are not empty and those of the secret storage otherwise: an
    update cannot clear a credential. *)
Theorem updateAccount_merges ident updates e index found :
  list_find (fun acc => id acc = ident) (stored_accounts (extension e)) =
    Some (index, found) ->
  new_id updates = None ->
  fst (updateAccount ident updates e) =
    Return (Some
      {| id := ident;
         email := carried (email found) (new_email updates);
         name := carried (name found) (new_name updates);
         apiKey := credential (extension e) (apiKey_key ident) (new_apiKey updates);
         apiServerUrl := carried (apiServerUrl found) (new_apiServerUrl updates);
         refreshToken :=
           credential (extension e) (refreshToken_key ident) (new_refreshToken updates);
         planName := carried (planName found) (new_planName updates);
         createdAt := carried (createdAt found) (new_createdAt updates);
         updatedAt := clock e (ticks e) |}).
Proof.
  intros Hfind Hid. unfold updateAccount. rewrite Hfind.
  unfold and_then, on_extension, toISOString. cbn [fst snd extension set_extension clock ticks].
  set (ctx := extension e) in *.
  set (now := clock e (ticks e)).
  set (updated := blank (spread found updates now)).
  set (ctx2 := store_update (apiKey_key ident) (new_apiKey updates)
                 (store_update (refreshToken_key ident) (new_refreshToken updates) ctx)).
  set (ctx3 := update_accounts (<[index := updated]> (stored_accounts ctx)) ctx2).
  apply list_find_Some in Hfind as (Hlook & Hfound & Hfirst).
  assert (Hupd : id updated = ident).
  { unfold updated. cbn [id blank spread]. rewrite Hid. exact Hfound. }
  assert (Hget : fst (getAccount ident ctx3) = Some (restore ctx3 updated)).
  { rewrite getAccount_find, getAccounts_listed. unfold ctx3 at 2.
    cbn [stored_accounts update_accounts accounts].
    assert (Hf : list_find (fun acc => id acc = ident)
                   (restore ctx3 <$> <[index := updated]> (stored_accounts ctx)) =
                 Some (index, restore ctx3 updated)).
    { apply list_find_Some. split; [|split].
      - rewrite list_lookup_fmap, list_lookup_insert_eq; [reflexivity|].
        now apply lookup_lt_Some in Hlook.
      - now rewrite restore_id.
      - intros j y Hy Hj. rewrite list_lookup_fmap, list_lookup_insert_ne in Hy by lia.
        destruct (stored_accounts ctx !! j) as [z|] eqn:Hz; [|discriminate].
        injection Hy as <-. rewrite restore_id. now apply (Hfirst j z). }
    now rewrite Hf. }
  assert (Hk : match secret ctx3 (apiKey_key ident) with
               | Some k => k
               | None => EmptyString
               end = credential ctx (apiKey_key ident) (new_apiKey updates)).
  { change (secret ctx3) with (secret ctx2). unfold ctx2.
    rewrite secret_store_update_eq. unfold credential.
    rewrite secret_store_update_ne by apply keys_apart. reflexivity. }
  assert (Ht : match secret ctx3 (refreshToken_key ident) with
               | Some t => t
               | None => EmptyString
               end = credential ctx (refreshToken_key ident) (new_refreshToken updates)).
  { change (secret ctx3) with (secret ctx2). unfold ctx2.
    rewrite secret_store_update_ne
      by (intros H; symmetry in H; now apply keys_apart in H).
    apply secret_store_update_eq. }
  destruct (getAccount ident ctx3) as [r ctx4]. cbn [fst snd] in *. subst r.
  unfold updated. rewrite restore_blank.
  cbn [id email name apiServerUrl planName createdAt updatedAt spread].
  rewrite Hid. cbn [carried]. rewrite Hfound, Hk, Ht. reflexivity.
Qed.

Lemma updateAccount_merges_witness :
  let e := Sample.env Sample.two_accounts in
  let updates := {| new_id := None; new_email := None; new_name := Some "Alice B."%string;
                    new_apiKey := Some EmptyString; new_apiServerUrl := None;
                    new_refreshToken := Some "rt-new"%string; new_planName := None;
                    new_createdAt := None; new_updatedAt := None |} in
  (list_find (fun acc => id acc = "a1"%string) (stored_accounts (extension e)) =
     Some (0%nat, blank Sample.alice) /\
   new_id updates = None) /\
  fst (updateAccount "a1" updates e) =
    Return (Some
      {| id := "a1"; email := "alice@example.com"; name := "Alice B.";
         apiKey := "sk-alice-0123456789abcdef"; apiServerUrl := EmptyString;
         refreshToken := "rt-new"; planName := EmptyString;
         createdAt := "2025-01-01T00:00:00.000Z";
         updatedAt := "2025-03-03T00:00:10.000Z" |}).
Proof.
  cbv zeta. split; [split; reflexivity|].
  rewrite (updateAccount_merges "a1"
             {| new_id := None; new_email := None; new_name := Some "Alice B."%string;
                new_apiKey := Some EmptyString; new_apiServerUrl := None;
                new_refreshToken := Some "rt-new"%string; new_planName := None;
                new_createdAt := None; new_updatedAt := None |}
             (Sample.env Sample.two_accounts) 0 (blank Sample.alice) eq_refl eq_refl).
  vm_compute. reflexivity.
Defined.

(** *** Import and export *)

Lemma read_entry_exported a :
  read_entry (account_json a) = if importable a then Add (reimported a) else Skip.
Proof.
  unfold read_entry, account_json, importable, reimported, or_else, member.
  cbn [obj_get String.eqb Ascii.eqb Bool.eqb is_truthy].
  unfold or_text. cbn [is_truthy].
  destruct (filled (email a)), (filled (apiKey a)), (filled (refreshToken a)),
    (filled (name a)), (filled (apiServerUrl a)), (filled (planName a)); reflexivity.
Qed.

Lemma passes_exported l : forallb passes (map account_json l) = true.
Proof.
  induction l as [|a l IH]; [reflexivity|]. cbn [map forallb]. rewrite IH, andb_true_r.
  unfold passes. rewrite read_entry_exported. now destruct (importable a).
Qed.

Lemma additions_exported l :
  additions (map account_json l) =
  map reimported (filter (fun a => importable a = true) l).
Proof.
  unfold additions. induction l as [|a l IH]; [reflexivity|].
  cbn [map omap list_omap]. rewrite filter_cons, read_entry_exported.
  fold (omap (fun acc => match read_entry acc with
                         | Add data => Some data
                         | _ => None
                         end) (map account_json l)).
  rewrite IH. destruct (importable a) eqn:E.
  - rewrite decide_True by reflexivity. reflexivity.
  - rewrite decide_False by discriminate. reflexivity.
Qed.

Lemma exported_plain l : plain (JArr (map account_json l)) = true.
Proof.
  cbn [plain]. induction l as [|a l IH]; [reflexivity|]. cbn [map forallb].
  rewrite IH. reflexivity.
Qed.

(** The loop over entries none of which throws or stops it. *)
Lemma import_entries_passes entries : forall tail count e,
  forallb passes entries = true ->
  import_entries (entries ++ tail) count e =
  import_entries tail (count + Z.of_nat (length (additions entries)))
    (add_all (additions entries) e).
Proof.
  induction entries as [|acc entries IH]; intros tail count e Hp.
  - cbn. now rewrite Z.add_0_r.
  - cbn [forallb] in Hp. apply andb_true_iff in Hp as [Hacc Hp].
    unfold passes in Hacc. unfold additions.
    cbn [app import_entries omap list_omap].
    fold (omap (fun acc => match read_entry acc with
                           | Add data => Some data
                           | _ => None
                           end) entries).
    fold (additions entries).
    destruct (read_entry acc) as [ | data | err | ]; try discriminate.
    + now apply IH.
    + unfold and_then. rewrite addAccount_run.
      rewrite (IH tail (count + 1) _ Hp). cbn [length add_all fold_left].
      rewrite addAccount_run. cbn [snd]. f_equal. lia.
Qed.

(** Importing what [exportAccounts] wrote adds, one [addAccount] after
    the other and in the order of the list, every exported account that
    has an e-mail address and a credential, with the defaults filled in
    for an empty name, server address and plan; it returns their number
    and skips the others. *)
Theorem importAccounts_of_export ctx e :
  let kept := filter (fun a => importable a = true) (fst (getAccounts ctx)) in
  importAccounts (fst (exportAccounts ctx)) e =
    (Return (Count (Z.of_nat (length kept))), add_all (map reimported kept) e).
Proof.
  cbv zeta. unfold exportAccounts. destruct (getAccounts ctx) as [l ctx']. cbn [fst].
  unfold importAccounts. rewrite parse_stringify_indent by apply exported_plain.
  rewrite <- (app_nil_r (map account_json l)).
  rewrite import_entries_passes by apply passes_exported.
  rewrite additions_exported, length_map. reflexivity.
Qed.

(** An import is not all or nothing: when it comes to an entry that is
    [null] it throws, the accounts of the entries before it stay added
    and the entries after it are not looked at. *)
Theorem importAccounts_stops_at_null jsonData entries rest e :
  JSON.parse jsonData = Some (JArr (entries ++ JNull :: rest)) ->
  forallb passes entries = true ->
  exists err,
    importAccounts jsonData e = (Throw err, add_all (additions entries) e).
Proof.
  intros Hparse Hp. unfold importAccounts. rewrite Hparse.
  rewrite import_entries_passes by exact Hp.
  eexists. reflexivity.
Qed.

Lemma importAccounts_stops_at_null_witness :
  let entries := [account_json Sample.alice; account_json Sample.bob] in
  let jsonData := stringify (JArr (entries ++ [JNull; account_json Sample.alice])) in
  let e := Sample.env Sample.no_accounts in
  (JSON.parse jsonData = Some (JArr (entries ++ JNull :: [account_json Sample.alice])) /\
   forallb passes entries = true) /\
  exists err,
    importAccounts jsonData e = (Throw err, add_all (additions entries) e).
Proof.
  cbv zeta. split; [split; vm_compute; reflexivity|].
  apply (importAccounts_stops_at_null
           (stringify (JArr ([account_json Sample.alice; account_json Sample.bob] ++
                             [JNull; account_json Sample.alice])))
           [account_json Sample.alice; account_json Sample.bob]
           [account_json Sample.alice]
           (Sample.env Sample.no_accounts)); vm_compute; reflexivity.
Defined.

(** *** Reading and exporting the list *)

Lemma restore_again ctx a : restore ctx (restore ctx a) = restore ctx a.
Proof.
  unfold restore.
  destruct (secret ctx (SECRETS_PREFIX +:+ id a +:+ ".refreshToken")) as [t|] eqn:E1;
    cbn [id];
    destruct (secret ctx (SECRETS_PREFIX +:+ id a +:+ ".apiKey")) as [k|] eqn:E2;
    cbn [id]; rewrite ?E1; cbn [id]; rewrite ?E2; reflexivity.
Qed.

(** [getAccounts] gives the listed accounts in list order, each under
    its identifier; it leaves the secret storage and the current index
    alone, and reading the list again returns the same accounts. *)
Theorem getAccounts_again ctx :
  let ctx' := snd (getAccounts ctx) in
  fst (getAccounts ctx') = fst (getAccounts ctx) /\
  map id (fst (getAccounts ctx)) = listed_ids ctx /\
  secrets ctx' = secrets ctx /\
  currentAccountIndex ctx' = currentAccountIndex ctx.
Proof.
  cbv zeta. unfold listed_ids, stored_accounts, getAccounts.
  destruct (accounts ctx) as [stored|] eqn:E; cbn [fst snd accounts secrets currentAccountIndex].
  - repeat split.
    + rewrite map_map.
      set (ctx' := {| accounts := Some (map (restore ctx) stored);
                      currentAccountIndex := currentAccountIndex ctx;
                      secrets := secrets ctx |}).
      assert (H : forall a, restore ctx' (restore ctx a) = restore ctx a).
      { intros a. rewrite <- (restore_again ctx a) at 2. apply restore_secrets; reflexivity. }
      clearbody ctx'. clear E.
      induction stored as [|a l IH]; [reflexivity|]. cbn [map]. now rewrite H, IH.
    + rewrite map_map. clear E. induction stored as [|a l IH]; [reflexivity|].
      cbn [map]. now rewrite restore_id, IH.
  - rewrite E. repeat split.
Qed.

(** What [exportAccounts] writes is JSON that parses back to the list of
    the accounts as [getAccounts] returns them, credentials included. *)
Theorem exportAccounts_parses ctx :
  JSON.parse (fst (exportAccounts ctx)) =
    Some (JArr (map account_json (fst (getAccounts ctx)))) /\
  snd (exportAccounts ctx) = snd (getAccounts ctx).
Proof.
  unfold exportAccounts. destruct (getAccounts ctx) as [l ctx']. cbn [fst snd].
  split; [|reflexivity]. apply parse_stringify_indent, exported_plain.
Qed.

End AccountList.
(** ** The command [switchNext] *)

Section SwitchNext.

Import AccountManager AccountSwitcher Extension.

#[local] Arguments String.append : simpl never.
#[local] Arguments switchAccount : simpl never.

Lemma getAccounts_stored_length ctx :
  length (stored_accounts (snd (getAccounts ctx))) = length (stored_accounts ctx) /\
  length (fst (getAccounts ctx)) = length (stored_accounts ctx).
Proof.
  unfold getAccounts, stored_accounts. destruct (accounts ctx) as [stored|] eqn:E; cbn.
  - now rewrite length_map.
  - now rewrite E.
Qed.

(** One run of the command on a list that is not empty. *)
Lemma switchNext_step e :
  let ctx := extension e in
  let n := Z.of_nat (length (stored_accounts ctx)) in
  let next := (getCurrentAccountIndex ctx + 1) mod n in
  stored_accounts ctx <> [] -> 0 <= getCurrentAccountIndex ctx ->
  exists a o,
    nth_error (fst (getAccounts ctx)) (Z.to_nat next) = Some a /\
    switchAccount a (machine e) = (Return o, machine (snd (switchNext e))) /\
    fst (switchNext e) = Return (Switched o) /\
    getCurrentAccountIndex (extension (snd (switchNext e))) = next /\
    length (stored_accounts (extension (snd (switchNext e)))) =
      length (stored_accounts ctx).
Proof.
  cbv zeta. intros Hne Hpos.
  destruct (getAccounts_stored_length (extension e)) as [Hlen1 Hlen2].
  pose proof (getAccounts_index (extension e)) as Hidx.
  unfold switchNext, and_then, on_extension, getNextAccount.
  destruct (getAccounts (extension e)) as [listed ctx1]. cbn [fst snd] in *.
  assert (Hn : 0 < Z.of_nat (length (stored_accounts (extension e)))).
  { destruct (stored_accounts (extension e)); [congruence | cbn [length]; lia]. }
  destruct (Nat.eqb_spec (length listed) 0) as [Hz|_]; [lia|].
  cbn [account index].
  assert (Hg : getCurrentAccountIndex ctx1 = getCurrentAccountIndex (extension e)).
  { unfold getCurrentAccountIndex. now rewrite Hidx. }
  rewrite Hg, Hlen2. rewrite Z.rem_mod_nonneg by lia.
  set (next := (getCurrentAccountIndex (extension e) + 1) mod
               Z.of_nat (length (stored_accounts (extension e)))).
  pose proof (Z.mod_pos_bound (getCurrentAccountIndex (extension e) + 1) _ Hn) as Hb.
  fold next in Hb.
  unfold at_index. destruct (Z.ltb_spec next 0); [lia|].
  destruct (nth_error listed (Z.to_nat next)) as [a|] eqn:Ha.
  2:{ apply nth_error_None in Ha. lia. }
  unfold on_machine, pure. cbn [extension machine set_extension].
  destruct (switchAccount_settles a (machine e)) as (o & w' & E & _).
  exists a, o. rewrite !E. cbn [fst snd extension machine set_extension set_machine].
  split; [reflexivity|]. split; [reflexivity|]. split; [reflexivity|].
  split; [reflexivity|]. exact Hlen1.
Qed.

(** On a list that is not empty the command makes the next account (in
    list order, wrapping round) the current one and runs the switch to
    it; the index moves on whatever the outcome of the switch, and the
    list stays as long as it was. *)
Theorem switchNext_advances e :
  let ctx := extension e in
  let n := Z.of_nat (length (stored_accounts ctx)) in
  let next := (getCurrentAccountIndex ctx + 1) mod n in
  stored_accounts ctx <> [] -> 0 <= getCurrentAccountIndex ctx ->
  exists a o,
    nth_error (fst (getAccounts ctx)) (Z.to_nat next) = Some a /\
    fst (switchAccount a (machine e)) = Return o /\
    fst (switchNext e) = Return (Switched o) /\
    machine (snd (switchNext e)) = snd (switchAccount a (machine e)) /\
    getCurrentAccountIndex (extension (snd (switchNext e))) = next /\
    length (stored_accounts (extension (snd (switchNext e)))) =
      length (stored_accounts ctx).
Proof.
  cbv zeta. intros Hne Hpos.
  destruct (switchNext_step e Hne Hpos) as (a & o & H1 & H2 & H3 & H4 & H5).
  exists a, o. rewrite H2. cbn [fst snd]. repeat split; assumption.
Qed.

Lemma switchNext_advances_witness :
  let e := Sample.env Sample.two_accounts in
  (stored_accounts (extension e) <> [] /\ 0 <= getCurrentAccountIndex (extension e)) /\
  exists a o,
    nth_error (fst (getAccounts (extension e))) 0 = Some a /\
    fst (switchAccount a (machine e)) = Return o /\
    fst (switchNext e) = Return (Switched o) /\
    machine (snd (switchNext e)) = snd (switchAccount a (machine e)) /\
    getCurrentAccountIndex (extension (snd (switchNext e))) = 0 /\
    length (stored_accounts (extension (snd (switchNext e)))) = 2%nat.
Proof.
  cbv zeta.
  assert (H1 : stored_accounts (extension (Sample.env Sample.two_accounts)) <> [])
    by discriminate.
  assert (H2 : 0 <= getCurrentAccountIndex (extension (Sample.env Sample.two_accounts)))
    by (vm_compute; discriminate).
  split; [split; assumption|].
  exact (switchNext_advances (Sample.env Sample.two_accounts) H1 H2).
Defined.

(** Run again and again, the command goes round the list: after [k]
    runs ([k] at least one) the current index is the first one moved on
    by [k], modulo the length of the list, so that as many more runs as
    there are accounts bring it back to where it was. *)
Theorem switchNext_round k e :
  let ctx := extension e in
  let n := length (stored_accounts ctx) in
  stored_accounts ctx <> [] -> 0 <= getCurrentAccountIndex ctx ->
  getCurrentAccountIndex (extension (switchNext_times (S k) e)) =
    (getCurrentAccountIndex ctx + Z.of_nat (S k)) mod Z.of_nat n /\
  getCurrentAccountIndex (extension (switchNext_times (S k + n) e)) =
    getCurrentAccountIndex (extension (switchNext_times (S k) e)).
Proof.
  cbv zeta. intros Hne Hpos.
  set (n := length (stored_accounts (extension e))).
  assert (Hn : 0 < Z.of_nat n).
  { unfold n. destruct (stored_accounts (extension e)); [congruence | cbn [length]; lia]. }
  assert (Hall : forall j,
    getCurrentAccountIndex (extension (switchNext_times (S j) e)) =
      (getCurrentAccountIndex (extension e) + Z.of_nat (S j)) mod Z.of_nat n /\
    length (stored_accounts (extension (switchNext_times (S j) e))) = n).
  { induction j as [|j [IHi IHl]].
    - unfold switchNext_times. cbn [Nat.iter nat_rect].
      destruct (switchNext_step e Hne Hpos) as (_ & _ & _ & _ & _ & H4 & H5).
      split; [exact H4 | exact H5].
    - unfold switchNext_times in *. cbn [Nat.iter nat_rect] in *.
      set (ej := snd (switchNext (nat_rect _ e (fun _ e0 => snd (switchNext e0)) j))) in *.
      assert (Hnej : stored_accounts (extension ej) <> []).
      { intros H0. rewrite H0 in IHl. cbn in IHl. lia. }
      assert (Hposj : 0 <= getCurrentAccountIndex (extension ej)).
      { rewrite IHi. apply Z.mod_pos_bound. exact Hn. }
      destruct (switchNext_step ej Hnej Hposj) as (_ & _ & _ & _ & _ & H4 & H5).
      rewrite H4, H5, IHl, IHi. split; [|reflexivity].
      rewrite Z.add_mod_idemp_l by lia. f_equal. lia. }
  split; [apply Hall|].
  replace (S k + n)%nat with (S (k + n)) by lia.
  rewrite (proj1 (Hall (k + n)%nat)), (proj1 (Hall k)).
  replace (getCurrentAccountIndex (extension e) + Z.of_nat (S (k + n)))
    with (getCurrentAccountIndex (extension e) + Z.of_nat (S k) + 1 * Z.of_nat n) by lia.
  apply Z.mod_add. lia.
Qed.

Lemma switchNext_round_witness :
  let e := Sample.env Sample.two_accounts in
  (stored_accounts (extension e) <> [] /\ 0 <= getCurrentAccountIndex (extension e)) /\
  getCurrentAccountIndex (extension (switchNext_times 3 e)) = 0 /\
  getCurrentAccountIndex (extension (switchNext_times 5 e)) =
    getCurrentAccountIndex (extension (switchNext_times 3 e)).
Proof.
  cbv zeta.
  assert (H1 : stored_accounts (extension (Sample.env Sample.two_accounts)) <> [])
    by discriminate.
  assert (H2 : 0 <= getCurrentAccountIndex (extension (Sample.env Sample.two_accounts)))
    by (vm_compute; discriminate).
  split; [split; assumption|].
  exact (switchNext_round 2 (Sample.env Sample.two_accounts) H1 H2).
Defined.

(** Without an account on the list the command only warns: it runs no
    switch, and the machine and the current index stay as they were. *)
Theorem switchNext_without_accounts e :
  stored_accounts (extension e) = [] ->
  fst (switchNext e) = Return (Warned "没有可切换的账号，请先添加账号") /\
  machine (snd (switchNext e)) = machine e /\
  currentAccountIndex (extension (snd (switchNext e))) = currentAccountIndex (extension e).
Proof.
  intros Hnil.
  destruct (getAccounts_stored_length (extension e)) as [_ Hlen].
  pose proof (getAccounts_index (extension e)) as Hidx.
  unfold switchNext, and_then, on_extension, getNextAccount.
  destruct (getAccounts (extension e)) as [listed ctx1]. cbn [fst snd] in *.
  rewrite Hnil in Hlen. cbn [length] in Hlen. rewrite Hlen. cbn.
  repeat split. exact Hidx.
Qed.

Lemma switchNext_without_accounts_witness :
  let e := Sample.env Sample.no_accounts in
  stored_accounts (extension e) = [] /\
  fst (switchNext e) = Return (Warned "没有可切换的账号，请先添加账号") /\
  machine (snd (switchNext e)) = machine e /\
  currentAccountIndex (extension (snd (switchNext e))) = currentAccountIndex (extension e).
Proof.
  cbv zeta. split; [reflexivity|].
  apply (switchNext_without_accounts (Sample.env Sample.no_accounts)). reflexivity.
Defined.

End SwitchNext.
